(** * The callback registry of tron (package [callback]), embedded in Rocq.

    The registry tracks pending completion callbacks for agents, single or
    batched in groups, dispatches a phone call and/or an email when the work
    is done, keeps a bounded history, and persists itself as one JSON
    document.  The Go code is stateful; here every operation is a function
    on an explicit pair of the registry and the outside world.

    Conventions.
    - A Go [string] is a [string] (a sequence of bytes), [len] is
      [String.length].
    - A Go [map[string]T] is a [gmap string T], a slice is a [list].
    - A Go [error] is its message; [nil] is [None].
    - [time.Time] is the instant it denotes, in nanoseconds since the Unix
      epoch (what [UnixNano] returns, taken to fit its int64); the
      monotonic reading and the location of a Go time are not kept.
    - A pointer into a map ([*Callback], [*CallbackGroup]) is the value
      together with the key it was found under: what the code writes
      through the pointer is written back under that key.
    - [log.Printf] output is not part of the modelled world, and the mutex
      is not modelled: every operation runs alone. *)

From Stdlib Require Import ZArith Lia.
From Stdlib Require PrimFloat.
From stdpp Require Import gmap strings list fin_maps pretty sorting.

Local Open Scope string_scope.
Local Open Scope list_scope.
Local Open Scope nat_scope.

Definition Time := Z.

(** The zero [time.Time]: January 1, year 1, 00:00:00 UTC. *)
Definition zeroTime : Time := (-62135596800000000000)%Z.

(** A Go [error]: [None] is [nil], [Some msg] an error whose [Error()] is [msg]. *)
Definition error := option string.

Inductive result (A : Type) : Type :=
| Ok (a : A)
| Err (msg : string).
Arguments Ok {A} a.
Arguments Err {A} msg.

(** ** Data model (part_003, lines 16-66) *)

Module Callback.
Record t : Type := mk {
  ID : string;
  AgentID : string;
  AgentName : string;
  TaskSummary : string;
  ProjectName : string;
  Method : string;
  CustomerPhone : string;
  CustomerEmail : string;
  CustomerName : string;
  PersonaName : string;
  RequestedAt : Time;
  CompletedAt : Time;
  Status : string;
  Error : string;
  GroupID : string
}.

Definition with_CompletedAt (v : Time) (c : t) : t :=
  mk (ID c) (AgentID c) (AgentName c) (TaskSummary c) (ProjectName c) (Method c)
     (CustomerPhone c) (CustomerEmail c) (CustomerName c) (PersonaName c)
     (RequestedAt c) v (Status c) (Error c) (GroupID c).

Definition with_Status (v : string) (c : t) : t :=
  mk (ID c) (AgentID c) (AgentName c) (TaskSummary c) (ProjectName c) (Method c)
     (CustomerPhone c) (CustomerEmail c) (CustomerName c) (PersonaName c)
     (RequestedAt c) (CompletedAt c) v (Error c) (GroupID c).

Definition with_Error (v : string) (c : t) : t :=
  mk (ID c) (AgentID c) (AgentName c) (TaskSummary c) (ProjectName c) (Method c)
     (CustomerPhone c) (CustomerEmail c) (CustomerName c) (PersonaName c)
     (RequestedAt c) (CompletedAt c) (Status c) v (GroupID c).
End Callback.

Module CompletionInfo.
Record t : Type := mk {
  AgentID : string;
  AgentName : string;
  Result : string;
  ProjectName : string;
  Error : string
}.
End CompletionInfo.

Module CallbackGroup.
Record t : Type := mk {
  ID : string;
  AgentIDs : list string;
  Results : gmap string CompletionInfo.t;
  Method : string;
  CustomerPhone : string;
  CustomerEmail : string;
  CustomerName : string;
  PersonaName : string;
  RequestedAt : Time;
  CompletedAt : Time;
  Status : string;
  Error : string
}.

Definition with_Results (v : gmap string CompletionInfo.t) (g : t) : t :=
  mk (ID g) (AgentIDs g) v (Method g) (CustomerPhone g) (CustomerEmail g)
     (CustomerName g) (PersonaName g) (RequestedAt g) (CompletedAt g)
     (Status g) (Error g).

Definition with_CompletedAt (v : Time) (g : t) : t :=
  mk (ID g) (AgentIDs g) (Results g) (Method g) (CustomerPhone g) (CustomerEmail g)
     (CustomerName g) (PersonaName g) (RequestedAt g) v (Status g) (Error g).

Definition with_Status (v : string) (g : t) : t :=
  mk (ID g) (AgentIDs g) (Results g) (Method g) (CustomerPhone g) (CustomerEmail g)
     (CustomerName g) (PersonaName g) (RequestedAt g) (CompletedAt g) v (Error g).

Definition with_Error (v : string) (g : t) : t :=
  mk (ID g) (AgentIDs g) (Results g) (Method g) (CustomerPhone g) (CustomerEmail g)
     (CustomerName g) (PersonaName g) (RequestedAt g) (CompletedAt g) (Status g) v.
End CallbackGroup.

Module AgentInfo.
Record t : Type := mk {
  ID : string;
  Name : string;
  TaskSummary : string;
  ProjectName : string
}.
End AgentInfo.

(** ** Package vapi: the outbound call client (part_003, lines 569-727) *)

Module vapi.
Record Client : Type := mkClient {
  apiKey : string;
  phoneID : string;
  assistantID : string
}.

Definition IsConfigured (c : Client) : bool :=
  bool_decide (apiKey c ≠ "") && bool_decide (phoneID c ≠ "")
  && bool_decide (assistantID c ≠ "").

Record CallbackContext : Type := mkContext {
  AgentName : string;
  TaskSummary : string;
  Result : string;
  ProjectName : string
}.

Record Customer : Type := mkCustomer {
  Number : string;
  Name : string
}.

Record AssistantOverrides : Type := mkOverrides {
  VariableValues : gmap string string;
  FirstMessage : string
}.

Record CallRequest : Type := mkRequest {
  PhoneNumberID : string;
  AssistantID : string;
  Customer_ : Customer;
  AssistantOverrides_ : option AssistantOverrides
}.

(** [s[:maxLen-3] + "..."] when [s] is longer than [maxLen] bytes. *)
Definition summarize (s : string) (maxLen : nat) : string :=
  if decide (String.length s ≤ maxLen) then s
  else String.substring 0 (maxLen - 3) s +:+ "...".

Definition buildFirstMessage (ctx : option CallbackContext) : string :=
  match ctx with
  | None => ""
  | Some ctx =>
      "Hey, this is Tony. I'm calling to let you know that " +:+ AgentName ctx
      +:+ " has finished working on " +:+ summarize (TaskSummary ctx) 50 +:+ "."
  end.

(** The request that [Client.Call] hands to [createCall]. *)
Definition buildRequest (c : Client) (customerPhone customerName : string)
    (callbackCtx : option CallbackContext) : CallRequest :=
  mkRequest (phoneID c) (assistantID c) (mkCustomer customerPhone customerName)
    (match callbackCtx with
     | None => None
     | Some ctx =>
         Some (mkOverrides
           (<["agentName" := AgentName ctx]>
              (<["taskSummary" := summarize (TaskSummary ctx) 100]>
                 (<["result" := summarize (Result ctx) 200]>
                    (<["projectName" := ProjectName ctx]> ∅))))
           (buildFirstMessage callbackCtx))
     end).
End vapi.

(** ** Package email: the SMTP client (internal/voice/provider.go, second document) *)

Module email.
Record Client : Type := mkClient {
  host : string;
  port : Z;
  user : string;
  password : string;
  from : string
}.

Definition IsConfigured (c : Client) : bool :=
  bool_decide (host c ≠ "") && bool_decide (from c ≠ "").

Record CallbackContext : Type := mkContext {
  RecipientName : string;
  RecipientEmail : string;
  AgentID : string;
  AgentName : string;
  TaskSummary : string;
  ProjectName : string;
  Result : string;
  Error : string;
  ViewURL : string;
  Success : bool
}.

Record AgentResult : Type := mkResult {
  rAgentID : string;
  rAgentName : string;
  rTaskSummary : string;
  rProjectName : string;
  rResult : string;
  rError : string;
  rSuccess : bool
}.

Record BatchCallbackContext : Type := mkBatch {
  bRecipientName : string;
  bRecipientEmail : string;
  bResults : list AgentResult;
  bViewURL : string
}.

Definition truncate (s : string) (maxLen : nat) : string :=
  if decide (String.length s ≤ maxLen) then s
  else String.substring 0 (maxLen - 3) s +:+ "...".

Definition buildSubject (ctx : CallbackContext) : string :=
  let subject :=
    if Success ctx then AgentName ctx +:+ " completed: " +:+ TaskSummary ctx
    else AgentName ctx +:+ " failed: " +:+ TaskSummary ctx in
  if decide (50 < String.length subject) then String.substring 0 47 subject +:+ "..."
  else subject.

Definition buildBatchSubject (ctx : BatchCallbackContext) : string :=
  let successCount := length (filter (λ r, rSuccess r = true) (bResults ctx)) in
  let failCount := length (filter (λ r, rSuccess r = false) (bResults ctx)) in
  if decide (failCount = 0) then
    "Your tasks are complete (" +:+ pretty successCount +:+ " finished)"
  else
    "Your tasks are complete (" +:+ pretty successCount +:+ " finished, "
    +:+ pretty failCount +:+ " failed)".

Definition newline : string := String (Ascii.ascii_of_nat 10) "".

Definition greeting (name : string) : string :=
  if decide (name ≠ "") then "Hey " +:+ name +:+ "," +:+ newline +:+ newline
  else "Hey," +:+ newline +:+ newline.

Definition buildEmailBody (ctx : CallbackContext) : string :=
  greeting (RecipientName ctx)
  +:+ (if Success ctx
      then AgentName ctx +:+ " has finished working on your task." +:+ newline +:+ newline
      else AgentName ctx +:+ " encountered an issue with your task." +:+ newline +:+ newline)
  +:+ "**Task:** " +:+ TaskSummary ctx +:+ newline
  +:+ (if decide (ProjectName ctx ≠ "")
      then "**Project:** " +:+ ProjectName ctx +:+ newline else "")
  +:+ (if Success ctx && bool_decide (Result ctx ≠ "")
      then newline +:+ "**Result:**" +:+ newline +:+ Result ctx +:+ newline
      else if negb (Success ctx) && bool_decide (Error ctx ≠ "")
      then newline +:+ "**Error:**" +:+ newline +:+ Error ctx +:+ newline
      else "")
  +:+ (if decide (ViewURL ctx ≠ "")
      then newline +:+ "View the project: " +:+ ViewURL ctx +:+ newline else "")
  +:+ newline +:+ "---" +:+ newline +:+ "Agent ID: " +:+ AgentID ctx +:+ newline
  +:+ "This is an automated notification from Tony." +:+ newline.

Definition batchLine (r : AgentResult) : string :=
  (if rSuccess r then
     "✓ **" +:+ rAgentName r +:+ "** - " +:+ rTaskSummary r +:+ newline
     +:+ (if decide (rResult r ≠ "")
         then "  Result: " +:+ truncate (rResult r) 100 +:+ newline else "")
   else
     "✗ **" +:+ rAgentName r +:+ "** - " +:+ rTaskSummary r +:+ newline
     +:+ (if decide (rError r ≠ "")
         then "  Error: " +:+ truncate (rError r) 100 +:+ newline else ""))
  +:+ newline.

Definition buildBatchEmailBody (ctx : BatchCallbackContext) : string :=
  greeting (bRecipientName ctx)
  +:+ "Your tasks have been completed. Here's a summary:" +:+ newline +:+ newline
  +:+ foldr (λ r acc, batchLine r +:+ acc) "" (bResults ctx)
  +:+ (if decide (bViewURL ctx ≠ "")
      then "View the project: " +:+ bViewURL ctx +:+ newline else "")
  +:+ newline +:+ "---" +:+ newline
  +:+ "This is an automated notification from Tony." +:+ newline.
End email.

(** ** The persisted document

    [persist] writes one JSON document and [load] reads it back.  A
    document is kept as the tree of values that [encoding/json] prints and
    parses; the text between the two is not modelled, so strings are taken
    to be text that the encoder writes unchanged.  [JTime t] stands for the
    JSON string that holds the RFC 3339 form of the instant [t], which is
    how [time.Time] marshals itself. *)

Local Unset Elimination Schemes.
Inductive json : Type :=
| JNull
| JStr (s : string)
| JTime (t : Time)
| JArr (items : list json)
| JObj (fields : list (string * json)).
Local Set Elimination Schemes.

(** A string field tagged [omitempty] is left out when it is empty.  (The
    tag has no effect on a [time.Time], which is a struct.) *)
Definition omitempty (k s : string) : list (string * json) :=
  if decide (s = "") then [] else [(k, JStr s)].

Definition marshalCompletionInfo (i : CompletionInfo.t) : json :=
  JObj ([("agent_id", JStr (CompletionInfo.AgentID i));
         ("agent_name", JStr (CompletionInfo.AgentName i));
         ("result", JStr (CompletionInfo.Result i));
         ("project_name", JStr (CompletionInfo.ProjectName i))]
        ++ omitempty "error" (CompletionInfo.Error i)).

Definition marshalCallback (c : Callback.t) : json :=
  JObj ([("id", JStr (Callback.ID c));
         ("agent_id", JStr (Callback.AgentID c));
         ("agent_name", JStr (Callback.AgentName c));
         ("task_summary", JStr (Callback.TaskSummary c));
         ("project_name", JStr (Callback.ProjectName c));
         ("method", JStr (Callback.Method c))]
        ++ omitempty "customer_phone" (Callback.CustomerPhone c)
        ++ omitempty "customer_email" (Callback.CustomerEmail c)
        ++ omitempty "customer_name" (Callback.CustomerName c)
        ++ [("persona_name", JStr (Callback.PersonaName c));
            ("requested_at", JTime (Callback.RequestedAt c));
            ("completed_at", JTime (Callback.CompletedAt c));
            ("status", JStr (Callback.Status c))]
        ++ omitempty "error" (Callback.Error c)
        ++ omitempty "group_id" (Callback.GroupID c)).

Definition marshalMap {A : Type} (enc : A → json) (m : gmap string A) : json :=
  JObj ((λ kv, (kv.1, enc kv.2)) <$> map_to_list m).

Definition marshalCallbackGroup (g : CallbackGroup.t) : json :=
  JObj ([("id", JStr (CallbackGroup.ID g));
         ("agent_ids", JArr (JStr <$> CallbackGroup.AgentIDs g));
         ("results", marshalMap marshalCompletionInfo (CallbackGroup.Results g));
         ("method", JStr (CallbackGroup.Method g))]
        ++ omitempty "customer_phone" (CallbackGroup.CustomerPhone g)
        ++ omitempty "customer_email" (CallbackGroup.CustomerEmail g)
        ++ omitempty "customer_name" (CallbackGroup.CustomerName g)
        ++ [("persona_name", JStr (CallbackGroup.PersonaName g));
            ("requested_at", JTime (CallbackGroup.RequestedAt g));
            ("completed_at", JTime (CallbackGroup.CompletedAt g));
            ("status", JStr (CallbackGroup.Status g))]
        ++ omitempty "error" (CallbackGroup.Error g)).

(** The anonymous struct that [persist] and [load] marshal: a [nil] map or
    slice is [None] and prints as [null]. *)
Record data : Type := mkData {
  dCallbacks : option (gmap string Callback.t);
  dGroups : option (gmap string CallbackGroup.t);
  dHistory : option (list Callback.t);
  dGroupHistory : option (list CallbackGroup.t)
}.

Definition marshalOpt {A : Type} (enc : A → json) (o : option A) : json :=
  match o with
  | None => JNull
  | Some a => enc a
  end.

Definition marshalData (d : data) : json :=
  JObj [("callbacks", marshalOpt (marshalMap marshalCallback) (dCallbacks d));
        ("groups", marshalOpt (marshalMap marshalCallbackGroup) (dGroups d));
        ("history", marshalOpt (λ l, JArr (marshalCallback <$> l)) (dHistory d));
        ("group_history",
          marshalOpt (λ l, JArr (marshalCallbackGroup <$> l)) (dGroupHistory d))].

(** Reading a document back.  A key that is absent, or whose value is
    [null], leaves the zero value of the field; a value of the wrong kind
    is an unmarshalling error ([None]). *)
Fixpoint jget (k : string) (o : list (string * json)) : option json :=
  match o with
  | [] => None
  | (k', v) :: o' => if decide (k' = k) then Some v else jget k o'
  end.

Definition getString (o : list (string * json)) (k : string) : option string :=
  match jget k o with
  | None | Some JNull => Some ""
  | Some (JStr s) => Some s
  | Some _ => None
  end.

Definition getTime (o : list (string * json)) (k : string) : option Time :=
  match jget k o with
  | None | Some JNull => Some zeroTime
  | Some (JTime t) => Some t
  | Some _ => None
  end.

Definition unmarshalString (j : json) : option string :=
  match j with
  | JStr s => Some s
  | JNull => Some ""
  | _ => None
  end.

(** [None]: error; [Some None]: the slice stays [nil]. *)
Definition unmarshalSlice {A : Type} (dec : json → option A) (j : json)
    : option (option (list A)) :=
  match j with
  | JNull => Some None
  | JArr items => Some <$> mapM dec items
  | _ => None
  end.

(** Entries are stored in the order they are read, a later duplicate key
    replacing an earlier one. *)
Definition unmarshalMap {A : Type} (dec : json → option A) (j : json)
    : option (option (gmap string A)) :=
  match j with
  | JNull => Some None
  | JObj o =>
      (λ kvs, Some (list_to_map (reverse kvs)))
        <$> mapM (λ kv, (λ a, (kv.1, a)) <$> dec kv.2) o
  | _ => None
  end.

Definition getField {A : Type} (dec : json → option (option A))
    (o : list (string * json)) (k : string) : option (option A) :=
  match jget k o with
  | None => Some None
  | Some j => dec j
  end.

Definition unmarshalCompletionInfo (j : json) : option CompletionInfo.t :=
  match j with
  | JObj o =>
      a ← getString o "agent_id";
      n ← getString o "agent_name";
      r ← getString o "result";
      p ← getString o "project_name";
      e ← getString o "error";
      Some (CompletionInfo.mk a n r p e)
  | _ => None
  end.

Definition unmarshalCallback (j : json) : option Callback.t :=
  match j with
  | JObj o =>
      id ← getString o "id";
      aid ← getString o "agent_id";
      an ← getString o "agent_name";
      ts ← getString o "task_summary";
      pn ← getString o "project_name";
      m ← getString o "method";
      cp ← getString o "customer_phone";
      ce ← getString o "customer_email";
      cn ← getString o "customer_name";
      per ← getString o "persona_name";
      ra ← getTime o "requested_at";
      ca ← getTime o "completed_at";
      st ← getString o "status";
      er ← getString o "error";
      gid ← getString o "group_id";
      Some (Callback.mk id aid an ts pn m cp ce cn per ra ca st er gid)
  | _ => None
  end.

(** A group read from a document whose "results" is [null] has a nil map
    in Go, and recording a completion into it would panic; the model holds
    the empty map instead.  [persist] never writes such a document. *)
Definition unmarshalCallbackGroup (j : json) : option CallbackGroup.t :=
  match j with
  | JObj o =>
      id ← getString o "id";
      ids ← getField (unmarshalSlice unmarshalString) o "agent_ids";
      rs ← getField (unmarshalMap unmarshalCompletionInfo) o "results";
      m ← getString o "method";
      cp ← getString o "customer_phone";
      ce ← getString o "customer_email";
      cn ← getString o "customer_name";
      per ← getString o "persona_name";
      ra ← getTime o "requested_at";
      ca ← getTime o "completed_at";
      st ← getString o "status";
      er ← getString o "error";
      Some (CallbackGroup.mk id (default [] ids) (default ∅ rs) m cp ce cn per
              ra ca st er)
  | _ => None
  end.

Definition unmarshalData (j : json) : option data :=
  match j with
  | JObj o =>
      cbs ← getField (unmarshalMap unmarshalCallback) o "callbacks";
      gs ← getField (unmarshalMap unmarshalCallbackGroup) o "groups";
      h ← getField (unmarshalSlice unmarshalCallback) o "history";
      gh ← getField (unmarshalSlice unmarshalCallbackGroup) o "group_history";
      Some (mkData cbs gs h gh)
  | JNull => Some (mkData None None None None)
  | _ => None
  end.

(** ** The registry and the world around it *)

Record Registry : Type := mkRegistry {
  callbacks : gmap string Callback.t;
  groups : gmap string CallbackGroup.t;
  history : list Callback.t;
  groupHistory : list CallbackGroup.t;
  vapiClient : option vapi.Client;
  emailClient : option email.Client;
  getServerURL : option (string → string);
  agentValidator : option (string → bool);
  baseDir : string;
  personaName : string;
  personaEmail : string
}.

Definition set_callbacks (v : gmap string Callback.t) (r : Registry) : Registry :=
  mkRegistry v (groups r) (history r) (groupHistory r) (vapiClient r)
    (emailClient r) (getServerURL r) (agentValidator r) (baseDir r)
    (personaName r) (personaEmail r).

Definition set_groups (v : gmap string CallbackGroup.t) (r : Registry) : Registry :=
  mkRegistry (callbacks r) v (history r) (groupHistory r) (vapiClient r)
    (emailClient r) (getServerURL r) (agentValidator r) (baseDir r)
    (personaName r) (personaEmail r).

Definition set_history (v : list Callback.t) (r : Registry) : Registry :=
  mkRegistry (callbacks r) (groups r) v (groupHistory r) (vapiClient r)
    (emailClient r) (getServerURL r) (agentValidator r) (baseDir r)
    (personaName r) (personaEmail r).

Definition set_groupHistory (v : list CallbackGroup.t) (r : Registry) : Registry :=
  mkRegistry (callbacks r) (groups r) (history r) v (vapiClient r)
    (emailClient r) (getServerURL r) (agentValidator r) (baseDir r)
    (personaName r) (personaEmail r).

Definition set_getServerURL (v : option (string → string)) (r : Registry) : Registry :=
  mkRegistry (callbacks r) (groups r) (history r) (groupHistory r) (vapiClient r)
    (emailClient r) v (agentValidator r) (baseDir r)
    (personaName r) (personaEmail r).

Definition set_agentValidator (v : option (string → bool)) (r : Registry) : Registry :=
  mkRegistry (callbacks r) (groups r) (history r) (groupHistory r) (vapiClient r)
    (emailClient r) (getServerURL r) v (baseDir r)
    (personaName r) (personaEmail r).

(** The mail handed to [smtp.SendMail]; [mDate] is the clock reading that
    [send] formats into the Date header. *)
Record Message : Type := mkMessage {
  mFrom : string;
  mTo : string;
  mSubject : string;
  mDate : Time;
  mBody : string
}.

(** What left the process: a call request posted to the voice provider, a
    mail handed to the SMTP server. *)
Inductive Effect : Type :=
| PlacedCall (c : vapi.Client) (req : vapi.CallRequest)
| SentMail (c : email.Client) (m : Message).

(** The world: [tick] counts the interactions with the outside so far,
    [outbox] lists the requests sent, [files] is the file system. *)
Record World : Type := mkWorld {
  tick : nat;
  outbox : list Effect;
  files : gmap string json
}.

(** The outside answers: what the [n]-th interaction returns.  Nothing is
    assumed about them; the clock need not even be monotone. *)
Record Env : Type := mkEnv {
  time_Now : nat → Time;
  vapi_createCall : nat → vapi.Client → vapi.CallRequest → error;
  smtp_SendMail : nat → email.Client → Message → error;
  os_MkdirAll : nat → string → bool;
  os_WriteFile : nat → string → bool;
  os_ReadFile : nat → string → bool
}.

Definition step (w : World) : World :=
  mkWorld (S (tick w)) (outbox w) (files w).

Definition emit (e : Effect) (w : World) : World :=
  mkWorld (S (tick w)) (outbox w ++ [e]) (files w).

Definition write (path : string) (content : json) (w : World) : World :=
  mkWorld (S (tick w)) (outbox w) (<[path := content]> (files w)).

(** [filepath.Join(baseDir, "tron.work")]: an empty element is dropped.
    (The cleaning of the path that [Join] also does is not modelled.) *)
Definition callbacksDir (baseDir : string) : string :=
  if decide (baseDir = "") then "tron.work" else baseDir +:+ "/tron.work".

Definition callbacksPath (baseDir : string) : string :=
  callbacksDir baseDir +:+ "/callbacks.json".

Section Registry.
Variable env : Env.

Definition now (w : World) : Time * World := (time_Now env (tick w), step w).

(** [vapi.Client.Call] and [createCall]: everything from the HTTP request
    to the parsed answer is one interaction. *)
Definition createCall (c : vapi.Client) (req : vapi.CallRequest) (w : World)
    : error * World :=
  (vapi_createCall env (tick w) c req, emit (PlacedCall c req) w).

Definition Call (c : vapi.Client) (customerPhone customerName : string)
    (callbackCtx : option vapi.CallbackContext) (w : World) : error * World :=
  if negb (vapi.IsConfigured c) then (Some "VAPI client not configured", w)
  else createCall c (vapi.buildRequest c customerPhone customerName callbackCtx) w.

(** [email.Client.send] *)
Definition send (c : email.Client) (to subject body fromOverride : string)
    (w : World) : error * World :=
  let from := if decide (fromOverride ≠ "") then fromOverride else email.from c in
  let '(date, w) := now w in
  let m := mkMessage from to subject date body in
  (smtp_SendMail env (tick w) c m, emit (SentMail c m) w).

Definition SendTaskComplete (c : email.Client) (ctx : email.CallbackContext)
    (w : World) : error * World :=
  if negb (email.IsConfigured c) then (Some "email client not configured", w)
  else send c (email.RecipientEmail ctx) (email.buildSubject ctx)
         (email.buildEmailBody ctx) "" w.

Definition SendBatchComplete (c : email.Client) (ctx : email.BatchCallbackContext)
    (w : World) : error * World :=
  if negb (email.IsConfigured c) then (Some "email client not configured", w)
  else send c (email.bRecipientEmail ctx) (email.buildBatchSubject ctx)
         (email.buildBatchEmailBody ctx) "" w.

(** ** Registry operations (part_003, lines 85-568) *)

Definition CanCall (r : Registry) : bool :=
  match vapiClient r with
  | Some c => vapi.IsConfigured c
  | None => false
  end.

Definition CanEmail (r : Registry) : bool :=
  match emailClient r with
  | Some c => email.IsConfigured c
  | None => false
  end.

Definition persist (r : Registry) (w : World) : World :=
  let path := callbacksPath (baseDir r) in
  let dir := callbacksDir (baseDir r) in
  if negb (os_MkdirAll env (tick w) dir) then step w
  else
    let w := step w in
    let d := mkData (Some (callbacks r)) (Some (groups r)) (Some (history r))
               (Some (groupHistory r)) in
    let content := marshalData d in
    if os_WriteFile env (tick w) path then write path content w else step w.

Definition load (r : Registry) (w : World) : Registry * World :=
  let path := callbacksPath (baseDir r) in
  let content := if os_ReadFile env (tick w) path then files w !! path else None in
  let w := step w in
  match content with
  | None => (r, w)
  | Some content =>
      match unmarshalData content with
      | None => (r, w)
      | Some d =>
          let r := match dCallbacks d with Some v => set_callbacks v r | None => r end in
          let r := match dGroups d with Some v => set_groups v r | None => r end in
          let r := match dHistory d with Some v => set_history v r | None => r end in
          let r := match dGroupHistory d with
                   | Some v => set_groupHistory v r | None => r end in
          (r, w)
      end
  end.


Definition SetServerURLFunc (fn : option (string → string)) (r : Registry) : Registry :=
  set_getServerURL fn r.

(** The two validation blocks of [Register] (lines 121-137). *)
Definition checkCall (r : Registry) (method phone : string) : error :=
  if bool_decide (method = "call") || bool_decide (method = "both") then
    if decide (phone = "") then Some "phone number required for call callback"
    else if negb (CanCall r) then Some "VAPI not configured for call callbacks"
    else None
  else None.

Definition checkEmail (r : Registry) (method emailAddr : string) : error :=
  if bool_decide (method = "email") || bool_decide (method = "both") then
    if decide (emailAddr = "") then Some "email address required for email callback"
    else if negb (CanEmail r) then Some "email not configured for email callbacks"
    else None
  else None.

Definition Register (agentID agentName taskSummary projectName method phone
    emailAddr customerName : string) (r : Registry) (w : World)
    : result Callback.t * Registry * World :=
  match checkCall r method phone with
  | Some e => (Err e, r, w)
  | None =>
      match checkEmail r method emailAddr with
      | Some e => (Err e, r, w)
      | None =>
          let '(t1, w) := now w in
          let '(t2, w) := now w in
          let cb := Callback.mk ("cb-" +:+ agentID +:+ "-" +:+ pretty t1) agentID
                      agentName taskSummary projectName method phone emailAddr
                      customerName (personaName r) t2 zeroTime "pending" "" "" in
          let r := set_callbacks (<[agentID := cb]> (callbacks r)) r in
          (Ok cb, r, persist r w)
      end
  end.

(** The validation blocks of [RegisterBatch] (lines 165-175). *)
Definition checkBatchCall (method phone : string) : error :=
  if bool_decide (method = "call") || bool_decide (method = "both") then
    if decide (phone = "") then Some "phone number required for call callback"
    else None
  else None.

Definition checkBatchEmail (method emailAddr : string) : error :=
  if bool_decide (method = "email") || bool_decide (method = "both") then
    if decide (emailAddr = "") then Some "email address required for email callback"
    else None
  else None.

(** One round of the loop of [RegisterBatch] (lines 181-199). *)
Definition registerMember (method phone emailAddr customerName persona groupID : string)
    (st : gmap string Callback.t * World) (agent : AgentInfo.t)
    : gmap string Callback.t * World :=
  let '(t1, w) := now st.2 in
  let '(t2, w) := now w in
  let cb := Callback.mk ("cb-" +:+ AgentInfo.ID agent +:+ "-" +:+ pretty t1)
              (AgentInfo.ID agent) (AgentInfo.Name agent)
              (AgentInfo.TaskSummary agent) (AgentInfo.ProjectName agent)
              method phone emailAddr customerName persona t2 zeroTime
              "pending" "" groupID in
  (<[AgentInfo.ID agent := cb]> st.1, w).

Definition RegisterBatch (agents : list AgentInfo.t) (method phone emailAddr
    customerName : string) (r : Registry) (w : World)
    : result CallbackGroup.t * Registry * World :=
  match checkBatchCall method phone with
  | Some e => (Err e, r, w)
  | None =>
      match checkBatchEmail method emailAddr with
      | Some e => (Err e, r, w)
      | None =>
          let '(t0, w) := now w in
          let groupID := "grp-" +:+ pretty t0 in
          let agentIDs := AgentInfo.ID <$> agents in
          let '(cbs, w) :=
            foldl (registerMember method phone emailAddr customerName
                     (personaName r) groupID) (callbacks r, w) agents in
          let '(t, w) := now w in
          let group := CallbackGroup.mk groupID agentIDs ∅ method phone emailAddr
                         customerName (personaName r) t zeroTime "pending" "" in
          let r := set_groups (<[groupID := group]> (groups r)) (set_callbacks cbs r) in
          (Ok group, r, persist r w)
      end
  end.

(** *** Dispatch *)

Definition executeCall (r : Registry) (cb : Callback.t) (info : CompletionInfo.t)
    (w : World) : error * World :=
  match vapiClient r with
  | None => (Some "VAPI client not configured", w)
  | Some c =>
      if negb (vapi.IsConfigured c) then (Some "VAPI client not configured", w)
      else
        let ctx := vapi.mkContext (Callback.AgentName cb) (Callback.TaskSummary cb)
                     (CompletionInfo.Result info) (Callback.ProjectName cb) in
        Call c (Callback.CustomerPhone cb) (Callback.CustomerName cb) (Some ctx) w
  end.

Definition executeEmail (r : Registry) (cb : Callback.t) (info : CompletionInfo.t)
    (w : World) : error * World :=
  match emailClient r with
  | None => (Some "email client not configured", w)
  | Some c =>
      if negb (email.IsConfigured c) then (Some "email client not configured", w)
      else
        let viewURL :=
          match getServerURL r with
          | Some f => if decide (Callback.ProjectName cb ≠ "")
                      then f (Callback.ProjectName cb) else ""
          | None => ""
          end in
        let ctx := email.mkContext (Callback.CustomerName cb)
                     (Callback.CustomerEmail cb) (Callback.AgentID cb)
                     (Callback.AgentName cb) (Callback.TaskSummary cb)
                     (Callback.ProjectName cb) (CompletionInfo.Result info)
                     (CompletionInfo.Error info) viewURL
                     (bool_decide (CompletionInfo.Error info = "")) in
        SendTaskComplete c ctx w
  end.

Definition executeBatchCall (r : Registry) (group : CallbackGroup.t) (w : World)
    : error * World :=
  (Some "batch calls not yet implemented", w).

(** Go ranges over [group.Results] in an unspecified order; the model
    takes the order of [map_to_list]. *)
Definition executeBatchEmail (r : Registry) (group : CallbackGroup.t) (w : World)
    : error * World :=
  match emailClient r with
  | None => (Some "email client not configured", w)
  | Some c =>
      if negb (email.IsConfigured c) then (Some "email client not configured", w)
      else
        let infos := (map_to_list (CallbackGroup.Results group)).*2 in
        let viewURL :=
          match getServerURL r with
          | Some f =>
              match filter (λ i, CompletionInfo.ProjectName i ≠ "") infos with
              | i :: _ => f (CompletionInfo.ProjectName i)
              | [] => ""
              end
          | None => ""
          end in
        let results :=
          (λ i, email.mkResult (CompletionInfo.AgentID i) (CompletionInfo.AgentName i)
                  "" "" (CompletionInfo.Result i) (CompletionInfo.Error i)
                  (bool_decide (CompletionInfo.Error i = ""))) <$> infos in
        let ctx := email.mkBatch (CallbackGroup.CustomerName group)
                     (CallbackGroup.CustomerEmail group) results viewURL in
        SendBatchComplete c ctx w
  end.

(** How the errors of the two channels of method "both" are composed
    (lines 261-270 and 299-308). *)
Definition composeBoth (callErr emailErr : error) : error :=
  match emailErr with
  | Some err =>
      match callErr with
      | Some execErr => Some ("call: " +:+ execErr +:+ "; email: " +:+ err)
      | None => Some err
      end
  | None => callErr
  end.

(** The [switch cb.Method] of [executeCallback] (lines 254-271); a method
    that is none of the three dispatches nothing and leaves [execErr] nil. *)
Definition dispatch (r : Registry) (cb : Callback.t) (info : CompletionInfo.t)
    (w : World) : error * World :=
  if decide (Callback.Method cb = "call") then executeCall r cb info w
  else if decide (Callback.Method cb = "email") then executeEmail r cb info w
  else if decide (Callback.Method cb = "both") then
    let '(e1, w) := executeCall r cb info w in
    let '(e2, w) := executeEmail r cb info w in
    (composeBoth e1 e2, w)
  else (None, w).

(** [executeCallback(cb, info)].  [cb] is a pointer into [r.callbacks]:
    [key] is the key it was found under, and what the function writes to
    [cb] is seen through the map until the entry is deleted. *)
Definition executeCallback (key : string) (cb : Callback.t) (info : CompletionInfo.t)
    (r : Registry) (w : World) : Registry * World :=
  let '(t, w) := now w in
  let cb := Callback.with_CompletedAt t cb in
  let '(execErr, w) := dispatch r cb info w in
  let cb :=
    match execErr with
    | Some e => Callback.with_Error e (Callback.with_Status "failed" cb)
    | None => Callback.with_Status "completed" cb
    end in
  let cbs := delete (Callback.AgentID cb) (<[key := cb]> (callbacks r)) in
  let h := history r ++ [cb] in
  let h := if decide (100 < length h) then drop 1 h else h in
  (set_history h (set_callbacks cbs r), w).

(** One round of the clean-up loop of [executeGroupCallback] (lines 320-327). *)
Definition retireMember (status : string) (completedAt : Time)
    (st : gmap string Callback.t * list Callback.t) (agentID : string)
    : gmap string Callback.t * list Callback.t :=
  match st.1 !! agentID with
  | Some cb =>
      (delete agentID st.1,
       st.2 ++ [Callback.with_CompletedAt completedAt (Callback.with_Status status cb)])
  | None => st
  end.

(** The [switch group.Method] of [executeGroupCallback] (lines 292-309). *)
Definition dispatchBatch (r : Registry) (group : CallbackGroup.t) (w : World)
    : error * World :=
  if decide (CallbackGroup.Method group = "call") then executeBatchCall r group w
  else if decide (CallbackGroup.Method group = "email") then executeBatchEmail r group w
  else if decide (CallbackGroup.Method group = "both") then
    let '(e1, w) := executeBatchCall r group w in
    let '(e2, w) := executeBatchEmail r group w in
    (composeBoth e1 e2, w)
  else (None, w).

(** [executeGroupCallback(group)]; [key] is the key of [r.groups] that
    [group] was found under. *)
Definition executeGroupCallback (key : string) (group : CallbackGroup.t)
    (r : Registry) (w : World) : Registry * World :=
  let '(t, w) := now w in
  let group := CallbackGroup.with_CompletedAt t group in
  let '(execErr, w) := dispatchBatch r group w in
  let group :=
    match execErr with
    | Some e => CallbackGroup.with_Error e (CallbackGroup.with_Status "failed" group)
    | None => CallbackGroup.with_Status "completed" group
    end in
  let '(cbs, h) :=
    foldl (retireMember (CallbackGroup.Status group) (CallbackGroup.CompletedAt group))
      (callbacks r, history r) (CallbackGroup.AgentIDs group) in
  let h := if decide (100 < length h) then drop (length h - 100) h else h in
  let gs := delete (CallbackGroup.ID group) (<[key := group]> (groups r)) in
  let gh := groupHistory r ++ [group] in
  let gh := if decide (50 < length gh) then drop 1 gh else gh in
  (set_groupHistory gh (set_groups gs (set_history h (set_callbacks cbs r))), w).

Definition OnAgentComplete (info : CompletionInfo.t) (r : Registry) (w : World)
    : Registry * World :=
  match callbacks r !! CompletionInfo.AgentID info with
  | None => (r, w)
  | Some cb =>
      if decide (Callback.GroupID cb ≠ "") then
        match groups r !! Callback.GroupID cb with
        | None => (r, w)
        | Some group =>
            let group :=
              CallbackGroup.with_Results
                (<[CompletionInfo.AgentID info := info]> (CallbackGroup.Results group))
                group in
            let r := set_groups (<[Callback.GroupID cb := group]> (groups r)) r in
            let '(r, w) :=
              if decide (size (CallbackGroup.Results group)
                         = length (CallbackGroup.AgentIDs group))
              then executeGroupCallback (Callback.GroupID cb) group r w
              else (r, w) in
            (r, persist r w)
        end
      else
        let '(r, w) := executeCallback (CompletionInfo.AgentID info) cb info r w in
        (r, persist r w)
  end.

Definition Get (agentID : string) (r : Registry) : option Callback.t :=
  callbacks r !! agentID.

Definition Cancel (agentID : string) (r : Registry) (w : World)
    : bool * Registry * World :=
  match callbacks r !! agentID with
  | Some _ =>
      let r := set_callbacks (delete agentID (callbacks r)) r in
      (true, r, persist r w)
  | None => (false, r, w)
  end.

Definition ListPending (r : Registry) : list Callback.t :=
  (map_to_list (callbacks r)).*2.

Definition ListHistory (r : Registry) : list Callback.t := history r.

(** One round of the loop of [cleanupOrphaned] (lines 559-565). *)
Definition orphan (valid : string → bool)
    (st : gmap string Callback.t * list Callback.t) (kv : string * Callback.t)
    : gmap string Callback.t * list Callback.t :=
  if negb (valid kv.1)
  then (delete kv.1 st.1, st.2 ++ [Callback.with_Status "orphaned" kv.2])
  else st.

(** Go ranges over the map while deleting the entry in hand, so every
    entry is visited once, in an unspecified order; the model takes the
    order of [map_to_list]. *)
Definition cleanupOrphaned (r : Registry) (w : World) : Registry * World :=
  match agentValidator r with
  | None => (r, w)
  | Some valid =>
      let '(cbs, h) :=
        foldl (orphan valid) (callbacks r, history r) (map_to_list (callbacks r)) in
      let r := set_history h (set_callbacks cbs r) in
      (r, persist r w)
  end.

Definition SetAgentValidator (fn : option (string → bool)) (r : Registry) (w : World)
    : Registry * World :=
  cleanupOrphaned (set_agentValidator fn r) w.

End Registry.

(** * Vocabulary of the statements *)

(** A world in which every interaction succeeds and the clock reads the
    number of the interaction; used for the concrete runs below. *)
Definition calmEnv : Env :=
  mkEnv (λ n, Z.of_nat n) (λ _ _ _, None) (λ _ _ _, None)
        (λ _ _, true) (λ _ _, true) (λ _ _, true).

Definition emptyWorld : World := mkWorld 0 [] ∅.

Definition demoVapi : vapi.Client := vapi.mkClient "key" "phone-1" "assistant-1".
Definition demoEmail : email.Client :=
  email.mkClient "smtp.example.com" 587%Z "" "" "tony@example.com".

Definition emptyRegistry (v : option vapi.Client) (e : option email.Client) : Registry :=
  mkRegistry ∅ ∅ [] [] v e None None "/srv" "Tony" "tony@example.com".

Definition retired (s : string) (t : Time) (c : Callback.t) : Callback.t :=
  Callback.with_CompletedAt t (Callback.with_Status s c).

Definition orphaned (kv : string * Callback.t) : Callback.t :=
  Callback.with_Status "orphaned" kv.2.

(** ** Runs of the registry

    The operations a caller can apply to a registry, and their effect on
    the registry and the world; the value an operation returns is dropped. *)
Inductive Op : Type :=
| DoRegister (agentID agentName taskSummary projectName method phone emailAddr
    customerName : string)
| DoRegisterBatch (agents : list AgentInfo.t) (method phone emailAddr
    customerName : string)
| DoOnAgentComplete (info : CompletionInfo.t)
| DoCancel (agentID : string)
| DoSetAgentValidator (fn : option (string → bool))
| DoSetServerURLFunc (fn : option (string → string)).

Section Running.
Variable env : Env.

Definition perform (st : Registry * World) (op : Op) : Registry * World :=
  match op with
  | DoRegister a n t p m ph e c =>
      let out := Register env a n t p m ph e c st.1 st.2 in (out.1.2, out.2)
  | DoRegisterBatch ags m ph e c =>
      let out := RegisterBatch env ags m ph e c st.1 st.2 in (out.1.2, out.2)
  | DoOnAgentComplete info => OnAgentComplete env info st.1 st.2
  | DoCancel a => let out := Cancel env a st.1 st.2 in (out.1.2, out.2)
  | DoSetAgentValidator fn => SetAgentValidator env fn st.1 st.2
  | DoSetServerURLFunc fn => (SetServerURLFunc fn st.1, st.2)
  end.

Definition run (ops : list Op) (st : Registry * World) : Registry * World :=
  foldl perform st ops.

(** The completion events [infos], handled one after the other. *)
Definition completions (infos : list CompletionInfo.t) (st : Registry * World)
    : Registry * World :=
  foldl (λ st info, OnAgentComplete env info st.1 st.2) st infos.

End Running.

(** The agents that have completed so far. *)
Definition completed (infos : list CompletionInfo.t) : gset string :=
  list_to_set (CompletionInfo.AgentID <$> infos).

(** The state of a group that was registered without members, at id [gid]
    by the clock reading taken at tick [t0]: it is in the groups map,
    pending and memberless; every group is stored under its own id; and
    the group history has gained no group of that id since ([old] is the
    group history at registration). *)
Definition kept (gid : string) (t0 : nat) (old : list CallbackGroup.t)
    (st : Registry * World) : Prop :=
  (∃ g, groups st.1 !! gid = Some g
        ∧ CallbackGroup.AgentIDs g = []
        ∧ CallbackGroup.Status g = "pending")
  ∧ (∀ k g, groups st.1 !! k = Some g → CallbackGroup.ID g = k)
  ∧ t0 < tick st.2
  ∧ (∀ h, h ∈ groupHistory st.1 → CallbackGroup.ID h = gid → h ∈ old).

(** The group [gid] with members [ids] is waiting: it is in the groups map,
    pending, with results recorded for exactly the agents in [D]; every
    member still has its pending callback of the group; and nothing has
    been dispatched since the registration: the two histories and the
    outbox are those of the registration ([h], [gh], [ob]). *)
Definition waiting (gid : string) (ids : list string) (D : gset string)
    (h : list Callback.t) (gh : list CallbackGroup.t) (ob : list Effect)
    (st : Registry * World) : Prop :=
  (∃ g, groups st.1 !! gid = Some g
        ∧ CallbackGroup.ID g = gid
        ∧ CallbackGroup.AgentIDs g = ids
        ∧ CallbackGroup.Status g = "pending"
        ∧ dom (CallbackGroup.Results g) = D)
  ∧ gid ≠ ""
  ∧ (∀ a, a ∈ ids →
       ∃ cb, callbacks st.1 !! a = Some cb
             ∧ Callback.GroupID cb = gid
             ∧ Callback.Status cb = "pending")
  ∧ history st.1 = h
  ∧ groupHistory st.1 = gh
  ∧ outbox st.2 = ob.

(** The group [gid] has been dispatched: it has left the groups map for the
    group history, where it is the newest entry, completed or failed, with
    the results of the agents in [D]; no member has a pending callback. *)
Definition fired (gid : string) (ids : list string) (D : gset string)
    (gh : list CallbackGroup.t) (st : Registry * World) : Prop :=
  groups st.1 !! gid = None
  ∧ (∀ a, a ∈ ids → callbacks st.1 !! a = None)
  ∧ ∃ g', groupHistory st.1
          = (if decide (50 < length (gh ++ [g'])) then drop 1 (gh ++ [g'])
             else gh ++ [g'])
          ∧ CallbackGroup.ID g' = gid
          ∧ CallbackGroup.AgentIDs g' = ids
          ∧ dom (CallbackGroup.Results g') = D
          ∧ (CallbackGroup.Status g' = "completed"
             ∨ CallbackGroup.Status g' = "failed").

(** ** Concrete registries and worlds *)

Definition strayCallback : Callback.t :=
  Callback.mk "cb-A-1" "A" "alpha" "task" "proj" "email" "" "ann@example.com" "Ann"
    "Tony" 1%Z zeroTime "pending" "" "grp-7".

Definition strayRegistry : Registry :=
  set_callbacks {["A" := strayCallback]} (emptyRegistry None (Some demoEmail)).


Definition bothCallback : Callback.t :=
  Callback.mk "cb-A-1" "A" "alpha" "task" "proj" "both" "+15550001111"
    "ann@example.com" "Ann" "Tony" 1%Z zeroTime "pending" "" "".

Definition bothRegistry : Registry :=
  set_callbacks {["A" := bothCallback]}
    (emptyRegistry (Some demoVapi) (Some demoEmail)).

Definition callMember : Callback.t :=
  Callback.mk "cb-A-2" "A" "alpha" "task" "proj" "call" "+15550001111" "" "Ann"
    "Tony" 3%Z zeroTime "pending" "" "grp-1".

Definition callGroup : CallbackGroup.t :=
  CallbackGroup.mk "grp-1" ["A"] ∅ "call" "+15550001111" "" "Ann" "Tony" 4%Z
    zeroTime "pending" "".

Definition callRegistry : Registry :=
  set_groups {["grp-1" := callGroup]}
    (set_callbacks {["A" := callMember]} (emptyRegistry (Some demoVapi) None)).

Definition orphanRegistry : Registry :=
  set_agentValidator (Some (λ _, false)) bothRegistry.

(** [n] single email callbacks, registered and completed one after the other. *)
Fixpoint completedRounds (n : nat) (st : Registry * World) : Registry * World :=
  match n with
  | 0 => st
  | S n' =>
      let st := completedRounds n' st in
      let id := "agent-" +:+ pretty n' in
      let out := Register calmEnv id id "task" "proj" "email" "" "ann@example.com"
                   "Ann" st.1 st.2 in
      OnAgentComplete calmEnv (CompletionInfo.mk id id "done" "proj" "")
        out.1.2 out.2
  end.

(** A registry whose history is full (100 completed callbacks), with one
    more callback pending for agent Z. *)
Definition fullRegistry : Registry * World :=
  let st := completedRounds 100 (emptyRegistry None (Some demoEmail), emptyWorld) in
  let out := Register calmEnv "Z" "zeta" "task" "proj" "email" "" "ann@example.com"
               "Ann" st.1 st.2 in
  (out.1.2, out.2).

(** A batch of two email callbacks, and the completion of its first member. *)
Definition pairBatch : result CallbackGroup.t * Registry * World :=
  RegisterBatch calmEnv
    [AgentInfo.mk "A" "alpha" "task a" "proj"; AgentInfo.mk "B" "beta" "task b" "proj"]
    "email" "" "ann@example.com" "Ann" (emptyRegistry None (Some demoEmail))
    emptyWorld.

Definition pairAfterA : Registry * World :=
  OnAgentComplete calmEnv (CompletionInfo.mk "A" "alpha" "done" "proj" "")
    pairBatch.1.2 pairBatch.2.

(** A registry with something in each of its four parts: a pending single
    callback, a pending group with one result in, and a dispatched batch in
    both histories. *)
Definition livelyRegistry : Registry * World :=
  run calmEnv
    [DoRegisterBatch [AgentInfo.mk "A" "alpha" "task a" "proj";
                      AgentInfo.mk "B" "beta" "task b" ""]
       "email" "" "ann@example.com" "Ann";
     DoOnAgentComplete (CompletionInfo.mk "A" "alpha" "done" "proj" "");
     DoOnAgentComplete (CompletionInfo.mk "B" "beta" "" "" "no luck");
     DoRegister "C" "gamma" "task c" "proj" "email" "" "ann@example.com" "";
     DoRegisterBatch [AgentInfo.mk "D" "delta" "task d" "proj";
                      AgentInfo.mk "E" "eps" "task e" "proj"]
       "both" "+15550001111" "ann@example.com" "Ann";
     DoOnAgentComplete (CompletionInfo.mk "D" "delta" "done" "proj" "")]
    (emptyRegistry None (Some demoEmail), emptyWorld).


(** * Further vocabulary: invariants of the registry *)

(** Every pending callback is stored under its own agent id and every
    pending group under its own id, as [Register] and [RegisterBatch] store
    them. *)
Definition keyed (r : Registry) : Prop :=
  (∀ k cb, callbacks r !! k = Some cb → Callback.AgentID cb = k)
  ∧ (∀ k g, groups r !! k = Some g → CallbackGroup.ID g = k).

(** The statuses of the state machine: what is in the two maps is
    pending, what is in the callback history is completed, failed or
    orphaned, what is in the group history is completed or failed. *)
Definition statuses (r : Registry) : Prop :=
  (∀ k cb, callbacks r !! k = Some cb → Callback.Status cb = "pending")
  ∧ (∀ k g, groups r !! k = Some g → CallbackGroup.Status g = "pending")
  ∧ Forall (λ cb, Callback.Status cb = "completed" ∨ Callback.Status cb = "failed"
                  ∨ Callback.Status cb = "orphaned") (history r)
  ∧ Forall (λ g, CallbackGroup.Status g = "completed"
                 ∨ CallbackGroup.Status g = "failed") (groupHistory r).

(** Both histories are within their capacities. *)
Definition bounded (r : Registry) : Prop :=
  length (history r) ≤ 100 ∧ length (groupHistory r) ≤ 50.

(** The operation installs an agent validator, and so runs [cleanupOrphaned]. *)
Definition installsValidator (op : Op) : Prop :=
  match op with
  | DoSetAgentValidator (Some _) => True
  | _ => False
  end.

(** The operation registers a callback for agent [a]. *)
Definition registers (a : string) (op : Op) : Prop :=
  match op with
  | DoRegister a' _ _ _ _ _ _ _ => a' = a
  | DoRegisterBatch ags _ _ _ _ => a ∈ AgentInfo.ID <$> ags
  | _ => False
  end.

(** [c'] is what became of the pending callback [c] when it was retired:
    the same callback, with a terminal status. *)
Definition retires (c c' : Callback.t) : Prop :=
  Callback.ID c' = Callback.ID c
  ∧ Callback.AgentID c' = Callback.AgentID c
  ∧ Callback.GroupID c' = Callback.GroupID c
  ∧ Callback.Method c' = Callback.Method c
  ∧ (Callback.Status c' = "completed" ∨ Callback.Status c' = "failed"
     ∨ Callback.Status c' = "orphaned").


(** The disk takes no write. *)
Definition readonly (env : Env) : Prop :=
  ∀ n p, os_WriteFile env n p = false.



(** How one operation may change the four parts of a registry, [reg]
    telling the agents it registers: a pending callback is an old one or
    a newly registered one; a pending group is an old one (results apart)
    or a new one; a history entry is an old one or the retirement of a
    callback that was pending under its agent id; a group history entry is
    an old one or a group that has just been dispatched. *)
Definition evolves (reg : string → Prop) (r r' : Registry) : Prop :=
  (∀ k c, callbacks r' !! k = Some c →
     callbacks r !! k = Some c
     ∨ (reg k ∧ Callback.AgentID c = k ∧ Callback.Status c = "pending"))
  ∧ (∀ k g, groups r' !! k = Some g →
       (∃ g0, groups r !! k = Some g0
              ∧ CallbackGroup.ID g = CallbackGroup.ID g0
              ∧ CallbackGroup.Status g = CallbackGroup.Status g0)
       ∨ (CallbackGroup.ID g = k ∧ CallbackGroup.Status g = "pending"))
  ∧ (∀ c', c' ∈ history r' →
       c' ∈ history r
       ∨ ∃ c, callbacks r !! Callback.AgentID c' = Some c ∧ retires c c')
  ∧ (∀ h, h ∈ groupHistory r' →
       h ∈ groupHistory r
       ∨ (CallbackGroup.Status h = "completed" ∨ CallbackGroup.Status h = "failed")).

(** Agent [a] has no pending callback, and the history holds no callback
    of [a] beyond those of [old]. *)
Definition forgotten (a : string) (old : list Callback.t) (r : Registry) : Prop :=
  callbacks r !! a = None
  ∧ ∀ c, c ∈ history r → Callback.AgentID c = a → c ∈ old.

(** What one completion event may send through the clients of [r]:
    nothing, one call, one mail, or one call and then one mail, and only
    through a client that is configured. *)
Definition sendable (r : Registry) (effs : list Effect) : Prop :=
  effs = []
  ∨ (∃ c req, effs = [PlacedCall c req]
              ∧ vapiClient r = Some c ∧ vapi.IsConfigured c = true)
  ∨ (∃ e m, effs = [SentMail e m]
            ∧ emailClient r = Some e ∧ email.IsConfigured e = true)
  ∨ (∃ c req e m, effs = [PlacedCall c req; SentMail e m]
                  ∧ vapiClient r = Some c ∧ vapi.IsConfigured c = true
                  ∧ emailClient r = Some e ∧ email.IsConfigured e = true).

(** The group [gid] with members [ids] is stranded by the loss of the
    pending callback of its member [a]: the group is in the groups map,
    pending, with results recorded for exactly the agents in [D]; [a] has
    no pending callback, while every other member still has its pending
    callback of the group; and nothing has been dispatched: the two
    histories and the outbox are [h], [gh] and [ob]. *)
Definition stranded (gid : string) (ids : list string) (a : string) (D : gset string)
    (h : list Callback.t) (gh : list CallbackGroup.t) (ob : list Effect)
    (st : Registry * World) : Prop :=
  (∃ g, groups st.1 !! gid = Some g
        ∧ CallbackGroup.ID g = gid
        ∧ CallbackGroup.AgentIDs g = ids
        ∧ CallbackGroup.Status g = "pending"
        ∧ dom (CallbackGroup.Results g) = D)
  ∧ gid ≠ ""
  ∧ callbacks st.1 !! a = None
  ∧ (∀ b, b ∈ ids → b ≠ a →
       ∃ cb, callbacks st.1 !! b = Some cb
             ∧ Callback.GroupID cb = gid
             ∧ Callback.Status cb = "pending")
  ∧ history st.1 = h
  ∧ groupHistory st.1 = gh
  ∧ outbox st.2 = ob.

(** The completion map of a group after the completion events [infos] of
    its members: the last event of each agent. *)
Definition recorded (infos : list CompletionInfo.t) : gmap string CompletionInfo.t :=
  foldl (λ m i, <[CompletionInfo.AgentID i := i]> m) ∅ infos.

(** The line of a batch mail for one completion, as [executeBatchEmail]
    fills it (lines 409-418): task summary and project name are left out. *)
Definition reported (i : CompletionInfo.t) : email.AgentResult :=
  email.mkResult (CompletionInfo.AgentID i) (CompletionInfo.AgentName i) "" ""
    (CompletionInfo.Result i) (CompletionInfo.Error i)
    (bool_decide (CompletionInfo.Error i = "")).

(** * Package server: the history store (part_003, lines 728-1088)

    The store keeps the events of the last 30 days in a slice, in the
    order they were recorded, and answers queries over the last days.

    Further conventions.
    - A Go [int] or [int64] is a [Z].  Counters that count elements of a
      slice cannot wrap and are plain; the arithmetic on durations wraps
      at 64 bits ([wrap64]); [int] is taken to have 64 bits.
    - A [float64] is a binary64 float, [+] its addition.
    - [Time.Format] is a function of the instant ([formatDay] for the
      layout "2006-01-02", [formatID] for "20060102150405.000000").
    - [sort.Slice] is not stable and leaves the order of equal keys open;
      the model sorts with a merge sort.
    - [save] is kept as the event of its call, the path and the entries
      handed to the encoder: whether the directory, the encoding and the
      write succeed does not reach the store.  What [load] reads and
      parses is an oracle of the environment, [None] for a file that is
      missing, unreadable or not a JSON array of entries. *)

Module History.

(** [30 * 24 * time.Hour], in nanoseconds. *)
Definition MaxHistoryAge : Z := 30 * 24 * 3600000000000.

Definition HistoryProcessStart : string := "process_start".
Definition HistoryProcessEnd : string := "process_end".
Definition HistorySessionStart : string := "session_start".
Definition HistorySessionEnd : string := "session_end".
Definition HistoryError : string := "error".

Record HistoryMetrics : Type := mkMetrics {
  InputTokens : Z;
  OutputTokens : Z;
  TotalTokens : Z;
  LLMCalls : Z;
  ToolCalls : Z;
  EstimatedCost : PrimFloat.float
}.

Record HistoryEntry : Type := mkEntry {
  ID : string;
  Type_ : string;
  Timestamp : Time;
  Agent : string;
  ProcessID : string;
  Task : string;
  Status : string;
  DurationMs : Z;
  Metrics : option HistoryMetrics;
  Error : string
}.

Definition with_ID (v : string) (e : HistoryEntry) : HistoryEntry :=
  mkEntry v (Type_ e) (Timestamp e) (Agent e) (ProcessID e) (Task e) (Status e)
    (DurationMs e) (Metrics e) (Error e).

Definition with_Timestamp (v : Time) (e : HistoryEntry) : HistoryEntry :=
  mkEntry (ID e) (Type_ e) v (Agent e) (ProcessID e) (Task e) (Status e)
    (DurationMs e) (Metrics e) (Error e).

Record HistorySummary : Type := mkSummary {
  TotalEntries : Z;
  TotalProcesses : Z;
  TotalSessions : Z;
  TotalErrors : Z;
  ByAgent : gmap string Z;
  ByDay : gmap string Z;
  ByStatus : gmap string Z;
  AvgDurationMs : Z;
  TotalCost : PrimFloat.float
}.

Record HistoryResponse : Type := mkResponse {
  Entries : list HistoryEntry;
  Summary : HistorySummary
}.

Record HistoryStore : Type := mkStore {
  entries : list HistoryEntry;
  baseDir : string
}.

Record SpawnPattern : Type := mkPattern {
  Parent : string;
  Child : string;
  Count : Z
}.

Record SpawnPatternSummary : Type := mkSpawns {
  TotalSpawns : Z;
  MaxDepth : Z;
  SpawnsByAgent : gmap string Z;
  SpawnedByAgent : gmap string Z;
  CommonPatterns : list SpawnPattern
}.

(** The outside world of the store: [tick] counts the interactions with
    it, [saved] lists the calls of [save]. *)
Record World : Type := mkWorld {
  tick : nat;
  saved : list (string * list HistoryEntry)
}.

(** The answers of the outside world, by the number of the interaction. *)
Record Env : Type := mkEnv {
  time_Now : nat → Time;
  readHistory : nat → string → option (list HistoryEntry);
  os_UserHomeDir : option string;
  formatDay : Time → string;
  formatID : Time → string
}.

Definition step (w : World) : World := mkWorld (S (tick w)) (saved w).

(** ** Times and durations *)

Definition wrap64 (z : Z) : Z := ((z + 2 ^ 63) mod 2 ^ 64 - 2 ^ 63)%Z.

Definition Hour : Z := 3600000000000.

(** [-time.Duration(days) * 24 * time.Hour] *)
Definition window (days : Z) : Z :=
  wrap64 (wrap64 (wrap64 (- days) * 24) * Hour).

Definition Add (t : Time) (d : Z) : Time := (t + d)%Z.

Definition After (t u : Time) : Prop := (u < t)%Z.
Definition Before (t u : Time) : Prop := (t < u)%Z.

#[global] Instance After_dec (t u : Time) : Decision (After t u) := Z_lt_dec u t.
#[global] Instance Before_dec (t u : Time) : Decision (Before t u) := Z_lt_dec t u.

(** ** Counting *)

(** [m[k]++] *)
Definition incr (k : string) (m : gmap string Z) : gmap string Z :=
  <[k := (default 0 (m !! k) + 1)%Z]> m.

(** [strings.Split(s, sep)] for a separator that is not empty: [s] is cut
    at every occurrence of [sep], found from the left and not
    overlapping.  [cur] is the piece being read, [skip] the bytes of a
    separator still to pass. *)
Fixpoint splitFrom (sep : string) (skip : nat) (cur s : string) : list string :=
  match s with
  | "" => [cur]
  | String c s' =>
      match skip with
      | S k => splitFrom sep k cur s'
      | O =>
          if String.prefix sep s
          then cur :: splitFrom sep (String.length sep - 1) "" s'
          else splitFrom sep 0 (cur +:+ String c "") s'
      end
  end.

Definition splitPattern (pattern : string) : list string :=
  splitFrom "→" 0 "" pattern.

Definition byCount (a b : SpawnPattern) : Prop := (Count b ≤ Count a)%Z.

#[global] Instance byCount_dec (a b : SpawnPattern) : Decision (byCount a b) :=
  Z_le_dec (Count b) (Count a).

Definition sortPatterns (patterns : list SpawnPattern) : list SpawnPattern :=
  merge_sort byCount patterns.

Definition newestFirst (a b : HistoryEntry) : Prop :=
  (Timestamp b ≤ Timestamp a)%Z.

#[global] Instance newestFirst_dec (a b : HistoryEntry) : Decision (newestFirst a b) :=
  Z_le_dec (Timestamp b) (Timestamp a).

Section Store.
Variable env : Env.

Definition now (w : World) : Time * World := (time_Now env (tick w), step w).

(** One round of the loop of [buildSummary] (lines 875-909), on the
    summary, [totalDuration] and [durationCount]. *)
Definition summarizeEntry (st : HistorySummary * Z * Z) (entry : HistoryEntry)
    : HistorySummary * Z * Z :=
  let '(s, totalDuration, durationCount) := st in
  let byAgent :=
    if decide (Agent entry ≠ "") then incr (Agent entry) (ByAgent s) else ByAgent s in
  let byDay := incr (formatDay env (Timestamp entry)) (ByDay s) in
  let byStatus :=
    if decide (Status entry ≠ "") then incr (Status entry) (ByStatus s)
    else ByStatus s in
  let '(processes, sessions, errors) :=
    if decide (Type_ entry = HistoryProcessStart ∨ Type_ entry = HistoryProcessEnd)
    then ((TotalProcesses s + 1)%Z, TotalSessions s, TotalErrors s)
    else if decide (Type_ entry = HistorySessionStart
                    ∨ Type_ entry = HistorySessionEnd)
    then (TotalProcesses s, (TotalSessions s + 1)%Z, TotalErrors s)
    else if decide (Type_ entry = HistoryError)
    then (TotalProcesses s, TotalSessions s, (TotalErrors s + 1)%Z)
    else (TotalProcesses s, TotalSessions s, TotalErrors s) in
  let '(totalDuration, durationCount) :=
    if decide (0 < DurationMs entry)%Z
    then (wrap64 (totalDuration + DurationMs entry), (durationCount + 1)%Z)
    else (totalDuration, durationCount) in
  let cost :=
    match Metrics entry with
    | Some m => PrimFloat.add (TotalCost s) (EstimatedCost m)
    | None => TotalCost s
    end in
  (mkSummary (TotalEntries s) processes sessions errors byAgent byDay byStatus
     (AvgDurationMs s) cost,
   totalDuration, durationCount).

Definition buildSummary (entries : list HistoryEntry) : HistorySummary :=
  let summary := mkSummary (Z.of_nat (length entries)) 0 0 0 ∅ ∅ ∅ 0 PrimFloat.zero in
  let '(s, totalDuration, durationCount) :=
    foldl summarizeEntry (summary, 0%Z, 0%Z) entries in
  let avg :=
    if decide (0 < durationCount)%Z then Z.quot totalDuration durationCount
    else AvgDurationMs s in
  mkSummary (TotalEntries s) (Z.quot (TotalProcesses s) 2)
    (Z.quot (TotalSessions s) 2) (TotalErrors s) (ByAgent s) (ByDay s) (ByStatus s)
    avg (TotalCost s).

Definition prune (h : HistoryStore) (w : World) : HistoryStore * World :=
  let '(t, w) := now w in
  let cutoff := Add t (- MaxHistoryAge) in
  (mkStore (filter (λ entry, After (Timestamp entry) cutoff) (entries h)) (baseDir h),
   w).

(** [filepath.Join(dir, ".tronvega", "history.json")], where [dir] is the
    base directory or else the home directory, or "." when there is none.
    (Of the cleaning of the path that [Join] does, only the dropping of an
    empty or "." first element is modelled.) *)
Definition filePath (h : HistoryStore) : string :=
  let dir :=
    if decide (baseDir h ≠ "") then baseDir h
    else match os_UserHomeDir env with
         | Some home => home
         | None => "."
         end in
  if decide (dir = "" ∨ dir = ".") then ".tronvega/history.json"
  else dir +:+ "/.tronvega/history.json".

Definition save (h : HistoryStore) (w : World) : World :=
  mkWorld (S (tick w)) (saved w ++ [(filePath h, entries h)]).

Definition load (h : HistoryStore) (w : World) : HistoryStore * World :=
  match readHistory env (tick w) (filePath h) with
  | None => (h, step w)
  | Some es => prune (mkStore es (baseDir h)) (step w)
  end.

Definition NewHistoryStore (baseDir : string) (w : World) : HistoryStore * World :=
  load (mkStore [] baseDir) w.

Definition generateHistoryID (w : World) : string * World :=
  let '(t, w) := now w in (formatID env t, w).

(** [Record]; the name is a keyword here. *)
Definition Record_ (entry : HistoryEntry) (h : HistoryStore) (w : World)
    : HistoryStore * World :=
  let '(entry, w) :=
    if decide (ID entry = "")
    then let '(id, w) := generateHistoryID w in (with_ID id entry, w)
    else (entry, w) in
  let '(entry, w) :=
    if decide (Timestamp entry = zeroTime)
    then let '(t, w) := now w in (with_Timestamp t entry, w)
    else (entry, w) in
  let h := mkStore (entries h ++ [entry]) (baseDir h) in
  let '(h, w) := prune h w in
  (h, save h w).

Definition Query (days : Z) (h : HistoryStore) (w : World) : HistoryResponse * World :=
  let '(t, w) := now w in
  let cutoff := Add t (window days) in
  let filtered := filter (λ entry, After (Timestamp entry) cutoff) (entries h) in
  let filtered := merge_sort newestFirst filtered in
  (mkResponse filtered (buildSummary filtered), w).

(** One round of the loop over the entries of [BuildSpawnPatterns]
    (lines 1038-1056), on [summary.SpawnedByAgent] and
    [summary.TotalSpawns].  (The map of personas is only read in a branch
    without statements.) *)
Definition countSpawn (cutoff : Time) (st : gmap string Z * Z) (entry : HistoryEntry)
    : gmap string Z * Z :=
  if decide (Before (Timestamp entry) cutoff) then st
  else if decide (Type_ entry = HistoryProcessStart ∧ Agent entry ≠ "")
  then (incr (Agent entry) st.1, (st.2 + 1)%Z)
  else st.

(** One round of the loop over [patternCounts] (lines 1059-1068). *)
Definition addPattern (patterns : list SpawnPattern) (pc : string * Z)
    : list SpawnPattern :=
  match splitPattern pc.1 with
  | [parent; child] => patterns ++ [mkPattern parent child pc.2]
  | _ => patterns
  end.

Definition BuildSpawnPatterns (days : Z) (h : HistoryStore) (w : World)
    : SpawnPatternSummary * World :=
  let '(t, w) := now w in
  let cutoff := Add t (window days) in
  let patternCounts : gmap string Z := ∅ in
  let '(spawnedByAgent, totalSpawns) :=
    foldl (countSpawn cutoff) (∅, 0%Z) (entries h) in
  let patterns := foldl addPattern [] (map_to_list patternCounts) in
  let patterns := sortPatterns patterns in
  let patterns := if decide (10 < length patterns) then take 10 patterns else patterns in
  (mkSpawns totalSpawns 0 ∅ spawnedByAgent patterns, w).

End Store.

(** ** Vocabulary of the statements about the store *)

(** The operations of the store. *)
Inductive Op : Type :=
| DoRecord (entry : HistoryEntry)
| DoQuery (days : Z)
| DoBuildSpawnPatterns (days : Z).

Definition perform (env : Env) (st : HistoryStore * World) (op : Op)
    : HistoryStore * World :=
  match op with
  | DoRecord entry => Record_ env entry st.1 st.2
  | DoQuery days => (st.1, (Query env days st.1 st.2).2)
  | DoBuildSpawnPatterns days => (st.1, (BuildSpawnPatterns env days st.1 st.2).2)
  end.

Definition run (env : Env) (ops : list Op) (st : HistoryStore * World)
    : HistoryStore * World :=
  foldl (perform env) st ops.

(** The number of entries of [l] that satisfy [P]. *)
Definition count {A} (P : A → Prop) `{!∀ x, Decision (P x)} (l : list A) : Z :=
  Z.of_nat (length (filter P l)).

(** The durations that [buildSummary] averages: those above zero. *)
Definition durations (l : list HistoryEntry) : list Z :=
  filter (λ d, 0 < d)%Z (DurationMs <$> l).

Definition sumZ (l : list Z) : Z := foldr Z.add 0%Z l.

(** A clock that reads one second per interaction, from the instant
    [start]; a disk without history file; every day formatted alike. *)
Definition tickingEnv (start : Time) : Env :=
  mkEnv (λ n, (start + 1000000000 * Z.of_nat n)%Z) (λ _ _, None) None
        (λ _, "day") (λ _, "id").

(** A store with an entry of two days ago and one of an hour ago, by a
    clock that starts in January 2027. *)
Definition demoStart : Time := 1800000000000000000%Z.

Definition demoStore : HistoryStore :=
  mkStore
    [mkEntry "e1" "process_start" (demoStart - 172800000000000)%Z "Tony" "p1" "plan"
       "running" 0 None "";
     mkEntry "e2" "process_end" (demoStart - 3600000000000)%Z "Tony" "p1" "plan"
       "done" 1500 None ""]
    "/srv".

Definition emptyWorld : World := mkWorld 0 [].

End History.

(** * Properties *)

Section Properties.
Variable env : Env.

(** ** Projections of the setters and of [persist] *)

Lemma persist_files_other (r : Registry) (w : World) (p : string) :
  p ≠ callbacksPath (baseDir r) → files (persist env r w) !! p = files w !! p.
Proof.
  intros Hp. unfold persist.
  destruct (os_MkdirAll env (tick w) _); simpl; [|done].
  destruct (os_WriteFile env _ _); simpl; [|done].
  by rewrite lookup_insert_ne.
Qed.

Lemma persist_outbox (r : Registry) (w : World) :
  outbox (persist env r w) = outbox w.
Proof.
  unfold persist.
  destruct (os_MkdirAll env (tick w) _); simpl; [|done].
  by destruct (os_WriteFile env _ _).
Qed.

(** ** Registration *)

Lemma checkCall_None (r : Registry) (method phone : string) :
  checkCall r method phone = None ↔
  ¬ ((method = "call" ∨ method = "both") ∧ (phone = "" ∨ CanCall r = false)).
Proof.
  unfold checkCall.
  destruct (decide (method = "call")) as [->|Hc]; simpl.
  - destruct (decide (phone = "")); [intuition congruence|].
    destruct (CanCall r); simpl; intuition congruence.
  - rewrite (bool_decide_eq_false_2 _ Hc). simpl.
    destruct (decide (method = "both")) as [->|Hb]; simpl.
    + destruct (decide (phone = "")); [intuition congruence|].
      destruct (CanCall r); simpl; intuition congruence.
    + rewrite (bool_decide_eq_false_2 _ Hb). intuition congruence.
Qed.

Lemma checkEmail_None (r : Registry) (method emailAddr : string) :
  checkEmail r method emailAddr = None ↔
  ¬ ((method = "email" ∨ method = "both") ∧ (emailAddr = "" ∨ CanEmail r = false)).
Proof.
  unfold checkEmail.
  destruct (decide (method = "email")) as [->|Hc]; simpl.
  - destruct (decide (emailAddr = "")); [intuition congruence|].
    destruct (CanEmail r); simpl; intuition congruence.
  - rewrite (bool_decide_eq_false_2 _ Hc). simpl.
    destruct (decide (method = "both")) as [->|Hb]; simpl.
    + destruct (decide (emailAddr = "")); [intuition congruence|].
      destruct (CanEmail r); simpl; intuition congruence.
    + rewrite (bool_decide_eq_false_2 _ Hb). intuition congruence.
Qed.

(** C5. [Register] either rejects the request and leaves the registry and
    the world exactly as they were (when the method needs a phone number
    or an email address that is empty, or a client that is not
    configured), or it succeeds and stores exactly one callback, pending,
    under the agent id, replacing whatever was pending there; the other
    keys, the groups and both histories are untouched. *)
Theorem Register_rejects_or_stores_one
    (agentID agentName taskSummary projectName method phone emailAddr
     customerName : string) (r : Registry) (w : World) :
  let rejected :=
    ((method = "call" ∨ method = "both") ∧ (phone = "" ∨ CanCall r = false))
    ∨ ((method = "email" ∨ method = "both") ∧ (emailAddr = "" ∨ CanEmail r = false)) in
  let out := Register env agentID agentName taskSummary projectName method phone
               emailAddr customerName r w in
  (rejected → ∃ e, out = (Err e, r, w))
  ∧ (¬ rejected →
     ∃ cb r' w',
       out = (Ok cb, r', w')
       ∧ Callback.AgentID cb = agentID
       ∧ Callback.Status cb = "pending"
       ∧ Callback.GroupID cb = ""
       ∧ callbacks r' = <[agentID := cb]> (callbacks r)
       ∧ callbacks r' !! agentID = Some cb
       ∧ (∀ k, k ≠ agentID → callbacks r' !! k = callbacks r !! k)
       ∧ groups r' = groups r
       ∧ history r' = history r
       ∧ groupHistory r' = groupHistory r).
Proof.
  intros rejected out. subst rejected out. unfold Register.
  destruct (checkCall r method phone) as [e1|] eqn:Hc.
  - split; [eauto|].
    intros Hn. exfalso.
    assert (checkCall r method phone ≠ None) as Hne by congruence.
    apply Hne, checkCall_None. tauto.
  - apply checkCall_None in Hc.
    destruct (checkEmail r method emailAddr) as [e2|] eqn:He.
    + split; [eauto|].
      intros Hn. exfalso.
      assert (checkEmail r method emailAddr ≠ None) as Hne by congruence.
      apply Hne, checkEmail_None. tauto.
    + apply checkEmail_None in He. split; [tauto|].
      intros _. simpl. eexists _, _, _. split; [reflexivity|]. simpl.
      repeat split; try reflexivity.
      * apply lookup_insert_eq.
      * intros k Hk. by apply lookup_insert_ne.
Qed.

End Properties.

(** Both branches of [Register] on concrete requests: a call callback
    without a phone number, and an email callback that goes through. *)
Lemma Register_rejects_or_stores_one_witness :
  (∃ e, Register calmEnv "agentX" "x" "task" "proj" "call" "" "" "Ann"
          (emptyRegistry (Some demoVapi) (Some demoEmail)) emptyWorld
        = (Err e, emptyRegistry (Some demoVapi) (Some demoEmail), emptyWorld))
  ∧ (∃ cb r' w',
       Register calmEnv "agentX" "x" "task" "proj" "email" "" "ann@example.com" "Ann"
         (emptyRegistry (Some demoVapi) (Some demoEmail)) emptyWorld
       = (Ok cb, r', w')
       ∧ callbacks r' !! "agentX" = Some cb).
Proof.
  split.
  - apply (Register_rejects_or_stores_one calmEnv "agentX" "x" "task" "proj" "call"
             "" "" "Ann" (emptyRegistry (Some demoVapi) (Some demoEmail)) emptyWorld).
    left. split; [by left|by left].
  - destruct (Register_rejects_or_stores_one calmEnv "agentX" "x" "task" "proj"
                "email" "" "ann@example.com" "Ann"
                (emptyRegistry (Some demoVapi) (Some demoEmail)) emptyWorld)
      as [_ H].
    destruct H as (cb & r' & w' & Hout & _ & _ & _ & _ & Hl & _).
    + intros [[[H|H] _]|[_ [H|H]]]; discriminate H.
    + exists cb, r', w'. split; assumption.
Defined.

(** C4. [RegisterBatch] does not perform the validation of [Register]:
    it checks that the phone number and the email address are present but
    never asks whether the clients are configured.  On a registry that
    has no email client, the single registration of an email callback is
    refused, while the batch registration of the same request succeeds,
    stores a callback and a group, and persists them. *)
Theorem RegisterBatch_skips_client_check :
  let r := emptyRegistry None None in
  (Register calmEnv "A" "alpha" "task" "proj" "email" "" "ann@example.com" "Ann"
     r emptyWorld
   = (Err "email not configured for email callbacks", r, emptyWorld))
  ∧ ∃ g r' w',
      RegisterBatch calmEnv [AgentInfo.mk "A" "alpha" "task" "proj"] "email" ""
        "ann@example.com" "Ann" r emptyWorld = (Ok g, r', w')
      ∧ is_Some (callbacks r' !! "A")
      ∧ groups r' !! CallbackGroup.ID g = Some g
      ∧ is_Some (files w' !! "/srv/tron.work/callbacks.json").
Proof.
  split; [reflexivity|].
  eexists _, _, _. split; [reflexivity|].
  split; [|split]; vm_compute; eauto.
Qed.

Section Completion.
Variable env : Env.

(** C9. When the callback found for the agent names a group that is not
    in the groups map, [OnAgentComplete] returns at once: nothing is
    recorded, dispatched or persisted, and the registry and the world are
    what they were, the callback still pending in the map. *)
Theorem OnAgentComplete_unknown_group (info : CompletionInfo.t) (cb : Callback.t)
    (r : Registry) (w : World) :
  callbacks r !! CompletionInfo.AgentID info = Some cb →
  Callback.GroupID cb ≠ "" →
  groups r !! Callback.GroupID cb = None →
  OnAgentComplete env info r w = (r, w)
  ∧ callbacks (OnAgentComplete env info r w).1 !! CompletionInfo.AgentID info = Some cb.
Proof.
  intros Hcb Hne Hg. unfold OnAgentComplete. rewrite Hcb.
  destruct (decide (Callback.GroupID cb ≠ "")); [|done].
  rewrite Hg. done.
Qed.

End Completion.

Lemma OnAgentComplete_unknown_group_witness :
  OnAgentComplete calmEnv (CompletionInfo.mk "A" "alpha" "done" "proj" "")
    strayRegistry emptyWorld = (strayRegistry, emptyWorld)
  ∧ callbacks
      (OnAgentComplete calmEnv (CompletionInfo.mk "A" "alpha" "done" "proj" "")
         strayRegistry emptyWorld).1 !! "A" = Some strayCallback.
Proof.
  apply (OnAgentComplete_unknown_group calmEnv
           (CompletionInfo.mk "A" "alpha" "done" "proj" "") strayCallback
           strayRegistry emptyWorld).
  - reflexivity.
  - simpl. discriminate.
  - reflexivity.
Defined.

(** ** Bounded histories *)

Section Trim.
Context {A : Type}.

Lemma last_drop_lt (n : nat) (l : list A) :
  n < length l → last (drop n l) = last l.
Proof.
  intros Hn. rewrite <- (take_drop n l) at 2. rewrite last_app.
  destruct (last (drop n l)) eqn:E; [done|].
  apply last_None in E. apply (f_equal length) in E.
  rewrite length_drop in E. simpl in E. lia.
Qed.

(** Appending and then dropping the oldest entry when the capacity is
    exceeded leaves the new entry last. *)
Lemma last_push (cap : nat) (l : list A) (x : A) :
  0 < cap →
  last (if decide (cap < length (l ++ [x])) then drop 1 (l ++ [x]) else l ++ [x])
  = Some x.
Proof.
  intros Hcap. case_decide as H.
  - rewrite last_drop_lt; [apply last_snoc|lia].
  - apply last_snoc.
Qed.

Lemma length_push (cap : nat) (l : list A) (x : A) :
  length l ≤ cap →
  length (if decide (cap < length (l ++ [x])) then drop 1 (l ++ [x]) else l ++ [x])
  ≤ cap.
Proof.
  intros Hl. case_decide as H.
  - rewrite length_drop, length_app. simpl. lia.
  - lia.
Qed.

Lemma length_keep_last (cap : nat) (l : list A) :
  length (if decide (cap < length l) then drop (length l - cap) l else l) ≤ cap.
Proof.
  case_decide as H.
  - rewrite length_drop. lia.
  - lia.
Qed.
End Trim.

Section Single.
Variable env : Env.

Lemma executeCallback_unfold (key : string) (cb : Callback.t)
    (info : CompletionInfo.t) (r : Registry) (w : World) :
  let cb0 := Callback.with_CompletedAt (time_Now env (tick w)) cb in
  let out := dispatch env r cb0 info (step w) in
  let cb' :=
    match out.1 with
    | Some e => Callback.with_Error e (Callback.with_Status "failed" cb0)
    | None => Callback.with_Status "completed" cb0
    end in
  executeCallback env key cb info r w
  = (set_history
       (if decide (100 < length (history r ++ [cb'])) then drop 1 (history r ++ [cb'])
        else history r ++ [cb'])
       (set_callbacks (delete (Callback.AgentID cb) (<[key := cb']> (callbacks r))) r),
     out.2).
Proof.
  intros cb0 out cb'. unfold executeCallback, now. simpl.
  fold cb0. subst cb'. subst out.
  destruct (dispatch env r cb0 info (step w)) as [[e|] w']; reflexivity.
Qed.


End Single.


(** ** Group dispatch *)

Section Group.
Variable env : Env.

(** The clean-up loop: every member id is gone from the pending map
    afterwards, the other keys are untouched, and the history has grown by
    the members that were pending, each with the status and the completion
    time of the group. *)
Lemma foldl_retireMember (s : string) (t : Time) (ids : list string) :
  ∀ (cbs : gmap string Callback.t) (h : list Callback.t),
    let st := foldl (retireMember s t) (cbs, h) ids in
    (∀ a, a ∈ ids → st.1 !! a = None)
    ∧ (∀ a, a ∉ ids → st.1 !! a = cbs !! a)
    ∧ ∃ moved,
        st.2 = h ++ moved
        ∧ length moved ≤ length ids
        ∧ Forall (λ c, Callback.Status c = s ∧ Callback.CompletedAt c = t) moved
        ∧ (∀ a c, a ∈ ids → cbs !! a = Some c → retired s t c ∈ moved).
Proof.
  induction ids as [|a ids IH]; intros cbs h; simpl.
  - split; [intros a Ha; by apply elem_of_nil in Ha|].
    split; [done|]. exists []. rewrite app_nil_r.
    repeat split; [done|constructor|].
    intros a c Ha. by apply elem_of_nil in Ha.
  - assert (retireMember s t (cbs, h) a
            = match cbs !! a with
              | Some c => (delete a cbs, h ++ [retired s t c])
              | None => (cbs, h)
              end) as -> by reflexivity.
    destruct (cbs !! a) as [c|] eqn:Ha.
    + destruct (IH (delete a cbs) (h ++ [retired s t c]))
        as (Hin & Hout & moved & Hh & Hlen & Hall & Hmem).
      split; [|split].
      * intros x Hx. destruct (decide (x ∈ ids)) as [Hi|Hi]; [by apply Hin|].
        apply elem_of_cons in Hx as [->|Hx]; [|done].
        rewrite Hout by done. apply lookup_delete_eq.
      * intros x Hx. apply not_elem_of_cons in Hx as [Hxa Hx].
        rewrite Hout by done. by apply lookup_delete_ne.
      * exists (retired s t c :: moved).
        split; [by rewrite Hh, <- app_assoc|].
        split; [simpl; lia|]. split; [constructor; [done|exact Hall]|].
        intros x c' Hx Hc'. destruct (decide (x = a)) as [->|Hxa].
        -- rewrite Ha in Hc'. injection Hc' as <-. apply elem_of_cons. by left.
        -- apply elem_of_cons. right. apply (Hmem x); [|by rewrite lookup_delete_ne].
           apply elem_of_cons in Hx as [?|?]; done.
    + destruct (IH cbs h) as (Hin & Hout & moved & Hh & Hlen & Hall & Hmem).
      split; [|split].
      * intros x Hx. destruct (decide (x ∈ ids)) as [Hi|Hi]; [by apply Hin|].
        apply elem_of_cons in Hx as [->|Hx]; [|done].
        by rewrite Hout.
      * intros x Hx. apply not_elem_of_cons in Hx as [Hxa Hx]. by apply Hout.
      * exists moved. split; [done|]. split; [lia|]. split; [done|].
        intros x c' Hx Hc'. destruct (decide (x = a)) as [->|Hxa]; [congruence|].
        apply (Hmem x); [|done]. apply elem_of_cons in Hx as [?|?]; done.
Qed.

Lemma executeGroupCallback_unfold (key : string) (group : CallbackGroup.t)
    (r : Registry) (w : World) :
  let g0 := CallbackGroup.with_CompletedAt (time_Now env (tick w)) group in
  let out := dispatchBatch env r g0 (step w) in
  let g' :=
    match out.1 with
    | Some e => CallbackGroup.with_Error e (CallbackGroup.with_Status "failed" g0)
    | None => CallbackGroup.with_Status "completed" g0
    end in
  let st := foldl (retireMember (CallbackGroup.Status g') (time_Now env (tick w)))
              (callbacks r, history r) (CallbackGroup.AgentIDs group) in
  executeGroupCallback env key group r w
  = (set_groupHistory
       (if decide (50 < length (groupHistory r ++ [g']))
        then drop 1 (groupHistory r ++ [g']) else groupHistory r ++ [g'])
       (set_groups (delete (CallbackGroup.ID group) (<[key := g']> (groups r)))
          (set_history
             (if decide (100 < length st.2) then drop (length st.2 - 100) st.2
              else st.2)
             (set_callbacks st.1 r))),
     out.2).
Proof.
  intros g0 out g' st. unfold executeGroupCallback, now. simpl.
  fold g0. subst st g' out.
  destruct (dispatchBatch env r g0 (step w)) as [[e|] w']; simpl;
    match goal with
    | |- context [foldl ?f ?a ?l] => destruct (foldl f a l) as [cbs h]
    end; reflexivity.
Qed.

(** The batch call is not implemented: whenever the method includes the
    call, the dispatch of the group ends with an error. *)
Lemma dispatchBatch_call (r : Registry) (g : CallbackGroup.t) (w : World) :
  CallbackGroup.Method g = "call" ∨ CallbackGroup.Method g = "both" →
  ∃ e, (dispatchBatch env r g w).1 = Some e
       ∧ (e = "batch calls not yet implemented"
          ∨ ∃ e2, e = "call: batch calls not yet implemented; email: " +:+ e2).
Proof.
  intros [Hm|Hm]; unfold dispatchBatch; rewrite Hm; simpl.
  - eexists. split; [reflexivity|by left].
  - destruct (executeBatchEmail env r g w) as [[e2|] w']; simpl.
    + eexists. split; [reflexivity|]. right. by exists e2.
    + eexists. split; [reflexivity|by left].
Qed.

(** C8. When the completion that reaches the barrier belongs to a group
    whose method is "call" or "both", the group is retired as failed,
    never completed, with the error of the unimplemented batch call
    (alone, or joined with the email error), and every member that was
    pending is retired as failed with it. *)
Theorem group_with_call_always_fails (info : CompletionInfo.t) (cb : Callback.t)
    (group : CallbackGroup.t) (r : Registry) (w : World) :
  callbacks r !! CompletionInfo.AgentID info = Some cb →
  Callback.GroupID cb ≠ "" →
  groups r !! Callback.GroupID cb = Some group →
  CallbackGroup.Method group = "call" ∨ CallbackGroup.Method group = "both" →
  size (<[CompletionInfo.AgentID info := info]> (CallbackGroup.Results group))
  = length (CallbackGroup.AgentIDs group) →
  let r' := (OnAgentComplete env info r w).1 in
  ∃ g' moved,
    last (groupHistory r') = Some g'
    ∧ CallbackGroup.ID g' = CallbackGroup.ID group
    ∧ CallbackGroup.Status g' = "failed"
    ∧ CallbackGroup.Status g' ≠ "completed"
    ∧ (CallbackGroup.Error g' = "batch calls not yet implemented"
       ∨ ∃ e2, CallbackGroup.Error g'
               = "call: batch calls not yet implemented; email: " +:+ e2)
    ∧ history r'
      = (if decide (100 < length (history r ++ moved))
         then drop (length (history r ++ moved) - 100) (history r ++ moved)
         else history r ++ moved)
    ∧ Forall (λ c, Callback.Status c = "failed") moved
    ∧ (∀ a c, a ∈ CallbackGroup.AgentIDs group → callbacks r !! a = Some c →
         retired "failed" (CallbackGroup.CompletedAt g') c ∈ moved)
    ∧ (∀ a, a ∈ CallbackGroup.AgentIDs group → callbacks r' !! a = None).
Proof.
  intros Hcb Hne Hg Hm Hsize r'. subst r'. unfold OnAgentComplete.
  rewrite Hcb. destruct (decide (Callback.GroupID cb ≠ "")); [|done].
  rewrite Hg. simpl. rewrite decide_True by exact Hsize.
  rewrite executeGroupCallback_unfold. simpl.
  set (g0 := CallbackGroup.with_CompletedAt _ _).
  set (r1 := set_groups _ r).
  destruct (dispatchBatch_call r1 g0 (step w) Hm) as (e & He & Hform).
  rewrite He. simpl.
  destruct (foldl_retireMember "failed" (time_Now env (tick w))
              (CallbackGroup.AgentIDs group) (callbacks r) (history r))
    as (Hin & _ & moved & Hh & _ & Hall & Hmem).
  eexists _, moved. split; [apply last_push; lia|]. simpl.
  split; [done|]. split; [done|]. split; [done|]. split; [exact Hform|].
  split; [by rewrite Hh|]. split.
  - eapply Forall_impl; [exact Hall|]. by intros c [? _].
  - split; [exact Hmem|exact Hin].
Qed.

End Group.

Lemma group_with_call_always_fails_witness :
  ∃ g', last (groupHistory
                (OnAgentComplete calmEnv (CompletionInfo.mk "A" "alpha" "done" "proj" "")
                   callRegistry emptyWorld).1) = Some g'
        ∧ CallbackGroup.Status g' = "failed"
        ∧ CallbackGroup.Error g' = "batch calls not yet implemented".
Proof.
  destruct (group_with_call_always_fails calmEnv
              (CompletionInfo.mk "A" "alpha" "done" "proj" "") callMember callGroup
              callRegistry emptyWorld)
    as (g' & moved & Hl & _ & Hs & _).
  - reflexivity.
  - simpl. discriminate.
  - reflexivity.
  - left. reflexivity.
  - reflexivity.
  - exists g'. split; [exact Hl|]. split; [exact Hs|].
    vm_compute in Hl. injection Hl as <-. reflexivity.
Defined.

(** ** Orphans *)

Section Orphans.
Variable env : Env.

Lemma foldl_orphan (valid : string → bool) (l : list (string * Callback.t)) :
  ∀ (cbs : gmap string Callback.t) (h : list Callback.t),
    let st := foldl (orphan valid) (cbs, h) l in
    st.2 = h ++ (orphaned <$> filter (λ kv, valid kv.1 = false) l)
    ∧ (∀ k, st.1 !! k
            = if decide (k ∈ l.*1 ∧ valid k = false) then None else cbs !! k).
Proof.
  induction l as [|[a c] l IH]; intros cbs h.
  - simpl. rewrite app_nil_r. done.
  - cbn [foldl].
    assert (orphan valid (cbs, h) (a, c)
            = if valid a then (cbs, h)
              else (delete a cbs, h ++ [Callback.with_Status "orphaned" c])) as ->
      by (unfold orphan; simpl; by destruct (valid a)).
    rewrite fmap_cons. cbn [fst]. destruct (valid a) eqn:Hv.
    + destruct (IH cbs h) as [Hh Hm].
      rewrite filter_cons_False by (simpl; congruence).
      split; [exact Hh|]. intros k. rewrite Hm.
      destruct (decide (k ∈ l.*1 ∧ valid k = false)) as [[Hk Hvk]|Hn].
      * rewrite decide_True; [done|]. split; [by apply elem_of_cons; right|done].
      * rewrite decide_False; [done|]. intros [Hk Hvk].
        apply elem_of_cons in Hk as [->|Hk]; [congruence|]. by apply Hn.
    + destruct (IH (delete a cbs) (h ++ [Callback.with_Status "orphaned" c]))
        as [Hh Hm].
      rewrite filter_cons_True by done.
      split; [rewrite Hh, <- app_assoc; reflexivity|].
      intros k. rewrite Hm.
      destruct (decide (k ∈ l.*1 ∧ valid k = false)) as [[Hk Hvk]|Hn].
      * rewrite decide_True; [done|]. split; [by apply elem_of_cons; right|done].
      * destruct (decide (k = a)) as [->|Hka].
        -- rewrite lookup_delete_eq. rewrite decide_True; [done|].
           split; [by apply elem_of_cons; left|done].
        -- rewrite lookup_delete_ne by done.
           rewrite decide_False; [done|]. intros [Hk Hvk].
           apply elem_of_cons in Hk as [->|Hk]; [done|]. by apply Hn.
Qed.

(** What one pass of [cleanupOrphaned] does, for a validator [valid]:
    the rejected callbacks leave the pending map and are appended to the
    history as orphaned, the history being cut nowhere. *)
Lemma cleanupOrphaned_spec (valid : string → bool) (r : Registry) (w : World) :
  agentValidator r = Some valid →
  let r' := (cleanupOrphaned env r w).1 in
  history r'
  = history r
    ++ (orphaned <$> filter (λ kv, valid kv.1 = false) (map_to_list (callbacks r)))
  ∧ (∀ k, callbacks r' !! k = if valid k then callbacks r !! k else None)
  ∧ groups r' = groups r
  ∧ groupHistory r' = groupHistory r.
Proof.
  intros Hv r'. subst r'. unfold cleanupOrphaned. rewrite Hv.
  destruct (foldl_orphan valid (map_to_list (callbacks r)) (callbacks r) (history r))
    as [Hh Hm]. simpl in Hh, Hm.
  destruct (foldl (orphan valid) _ _) as [cbs h] eqn:E. simpl in *.
  split; [exact Hh|]. split; [|done].
  intros k. rewrite Hm. destruct (valid k) eqn:Hvk.
  - rewrite decide_False; [done|]. intros [_ ?]; congruence.
  - case_decide as Hd; [done|].
    destruct (callbacks r !! k) as [c|] eqn:Hk; [|done].
    exfalso. apply Hd. split; [|done].
    apply list_elem_of_fmap. exists (k, c). split; [done|].
    by apply elem_of_map_to_list.
Qed.

Lemma cleanupOrphaned_length (valid : string → bool) (r : Registry) (w : World) :
  agentValidator r = Some valid →
  length (history (cleanupOrphaned env r w).1)
  = length (history r)
    + length (filter (λ kv, valid kv.1 = false) (map_to_list (callbacks r))).
Proof.
  intros Hv. destruct (cleanupOrphaned_spec valid r w Hv) as [-> _].
  by rewrite length_app, length_fmap.
Qed.

End Orphans.

(** ** The capacity of the histories *)

Section Capacity.
Variable env : Env.

(** The two dispatch paths keep the histories within their capacities:
    a single dispatch drops the oldest callback when the 101st arrives, a
    group dispatch keeps the last 100 callbacks and drops the oldest group
    when the 51st arrives. *)
Lemma executeCallback_capacity (key : string) (cb : Callback.t)
    (info : CompletionInfo.t) (r : Registry) (w : World) :
  length (history r) ≤ 100 →
  length (history (executeCallback env key cb info r w).1) ≤ 100
  ∧ groupHistory (executeCallback env key cb info r w).1 = groupHistory r.
Proof.
  intros H. rewrite executeCallback_unfold. simpl.
  split; [by apply length_push|done].
Qed.

Lemma executeGroupCallback_capacity (key : string) (g : CallbackGroup.t)
    (r : Registry) (w : World) :
  length (groupHistory r) ≤ 50 →
  length (history (executeGroupCallback env key g r w).1) ≤ 100
  ∧ length (groupHistory (executeGroupCallback env key g r w).1) ≤ 50.
Proof.
  intros H. rewrite executeGroupCallback_unfold. simpl.
  split; [apply length_keep_last|by apply length_push].
Qed.

(** Oldest first: when the history is full, a single dispatch evicts
    exactly its first entry. *)
Lemma executeCallback_evicts_oldest (key : string) (cb old : Callback.t)
    (info : CompletionInfo.t) (h : list Callback.t) (r : Registry) (w : World) :
  history r = old :: h → length h = 99 →
  ∃ cb', history (executeCallback env key cb info r w).1 = h ++ [cb'].
Proof.
  intros Hh Hl. rewrite executeCallback_unfold. simpl. rewrite Hh.
  eexists. rewrite decide_True; [reflexivity|].
  simpl. rewrite length_app. simpl. lia.
Qed.

End Capacity.

(** C3. The history does not stay within its capacity of 100 after
    [cleanupOrphaned]: starting from a registry reached through the API
    whose history holds 100 callbacks, installing a validator that rejects
    the one pending agent leaves a history of 101 callbacks, the oldest
    still in first place.  (The two dispatch paths do keep the bounds, see
    [executeCallback_capacity] and [executeGroupCallback_capacity].) *)
Theorem cleanupOrphaned_exceeds_capacity :
  let r := fullRegistry.1 in
  let r' := (SetAgentValidator calmEnv (Some (λ _, false)) r fullRegistry.2).1 in
  length (history r) = 100
  ∧ length (history r') = 101
  ∧ head (history r') = head (history r)
  ∧ Callback.Status <$> last (history r') = Some "orphaned".
Proof.
  vm_compute. repeat split; reflexivity.
Qed.

(** ** One completion per pending callback *)

Section Once.
Variable env : Env.

Lemma OnAgentComplete_absent (info : CompletionInfo.t) (r : Registry) (w : World) :
  callbacks r !! CompletionInfo.AgentID info = None →
  OnAgentComplete env info r w = (r, w).
Proof. intros H. unfold OnAgentComplete. by rewrite H. Qed.

Lemma OnAgentComplete_single (info : CompletionInfo.t) (cb : Callback.t)
    (r : Registry) (w : World) :
  callbacks r !! CompletionInfo.AgentID info = Some cb →
  Callback.GroupID cb = "" →
  OnAgentComplete env info r w
  = ((executeCallback env (CompletionInfo.AgentID info) cb info r w).1,
     persist env (executeCallback env (CompletionInfo.AgentID info) cb info r w).1
       (executeCallback env (CompletionInfo.AgentID info) cb info r w).2).
Proof.
  intros Hcb Hg. unfold OnAgentComplete. rewrite Hcb.
  rewrite decide_False by (intros H; by apply H).
  by destruct (executeCallback env _ cb info r w).
Qed.

(** C2, as the code has it.  A pending callback that is not part of a
    group and is stored under its own agent id (as [Register] stores it)
    is retired by one [OnAgentComplete]: it is the newest entry of the
    history, completed or failed, it is gone from the pending map, and
    every further [OnAgentComplete] for the agent changes nothing.  Any
    pending callback, in a group or not, whose agent the validator rejects
    is retired by one pass of [cleanupOrphaned]: it is in the history as
    orphaned, gone from the pending map, and a later [OnAgentComplete]
    for the agent changes nothing.  The callback of a group member is not
    retired by its own completion: unless that completion brings the
    completion map of the group to the number of member ids, the pending
    map and the history stay as they were. *)
Theorem pending_callback_retires_once (a : string) (cb : Callback.t)
    (r : Registry) (w : World) :
  callbacks r !! a = Some cb →
  (Callback.GroupID cb = "" → Callback.AgentID cb = a →
   ∀ info, CompletionInfo.AgentID info = a →
     let out := OnAgentComplete env info r w in
     (∃ cb', last (history out.1) = Some cb'
             ∧ Callback.ID cb' = Callback.ID cb
             ∧ Callback.AgentID cb' = a
             ∧ (Callback.Status cb' = "completed" ∨ Callback.Status cb' = "failed"))
     ∧ callbacks out.1 !! a = None
     ∧ ∀ info', CompletionInfo.AgentID info' = a →
         OnAgentComplete env info' out.1 out.2 = out)
  ∧ (∀ valid, agentValidator r = Some valid → valid a = false →
     let out := cleanupOrphaned env r w in
     Callback.with_Status "orphaned" cb ∈ history out.1
     ∧ callbacks out.1 !! a = None
     ∧ ∀ info', CompletionInfo.AgentID info' = a →
         OnAgentComplete env info' out.1 out.2 = out)
  ∧ (∀ info g, CompletionInfo.AgentID info = a →
     Callback.GroupID cb ≠ "" → groups r !! Callback.GroupID cb = Some g →
     size (<[a := info]> (CallbackGroup.Results g))
     ≠ length (CallbackGroup.AgentIDs g) →
     let out := OnAgentComplete env info r w in
     callbacks out.1 = callbacks r ∧ history out.1 = history r).
Proof.
  intros Hcb. split; [|split].
  - intros Hg Ha info Hi out.
    assert (callbacks out.1 !! a = None) as Hgone.
    { subst out. rewrite <- Hi in Hcb. rewrite (OnAgentComplete_single info cb) by done.
      simpl. rewrite executeCallback_unfold. simpl.
      rewrite Hi, Ha. apply lookup_delete_eq. }
    split; [|split; [exact Hgone|]].
    + subst out. rewrite <- Hi in Hcb.
      rewrite (OnAgentComplete_single info cb) by done.
      simpl. rewrite executeCallback_unfold. simpl.
      eexists. split; [apply last_push; lia|].
      destruct (dispatch env r _ info (step w)).1; simpl; auto.
    + intros info' Hi'. rewrite OnAgentComplete_absent; [by destruct out|].
      by rewrite Hi'.
  - intros valid Hv Hrej out.
    destruct (cleanupOrphaned_spec env valid r w Hv) as (Hh & Hm & _).
    assert (callbacks out.1 !! a = None) as Hgone.
    { subst out. rewrite Hm, Hrej. done. }
    split; [|split; [exact Hgone|]].
    + subst out. rewrite Hh. apply elem_of_app. right.
      apply list_elem_of_fmap. exists (a, cb). split; [done|].
      apply list_elem_of_filter. split; [done|]. by apply elem_of_map_to_list.
    + intros info' Hi'. rewrite OnAgentComplete_absent; [by destruct out|].
      by rewrite Hi'.
  - intros info g Hi Hne Hg Hsz out. subst out. unfold OnAgentComplete.
    rewrite Hi, Hcb. rewrite decide_True by done. rewrite Hg. simpl.
    rewrite decide_False by done. done.
Qed.

End Once.

Lemma pending_callback_retires_once_witness :
  callbacks
    (OnAgentComplete calmEnv (CompletionInfo.mk "A" "alpha" "done" "proj" "")
       bothRegistry emptyWorld).1 !! "A" = None
  ∧ callbacks (cleanupOrphaned calmEnv orphanRegistry emptyWorld).1 !! "A" = None.
Proof.
  split.
  - destruct (pending_callback_retires_once calmEnv "A" bothCallback bothRegistry
                emptyWorld eq_refl) as [H _].
    destruct (H eq_refl eq_refl (CompletionInfo.mk "A" "alpha" "done" "proj" "")
                eq_refl) as (_ & Hgone & _).
    exact Hgone.
  - destruct (pending_callback_retires_once calmEnv "A" bothCallback orphanRegistry
                emptyWorld eq_refl) as [_ H].
    destruct H as [H _].
    destruct (H (λ _, false) eq_refl eq_refl) as (_ & Hgone & _).
    exact Hgone.
Defined.

(** C2 does not hold of a group member: agent A has a pending callback,
    and after one [OnAgentComplete] for A the callback is still in the
    pending map, still pending, nothing is in the history, and a second
    [OnAgentComplete] for A (with another result) changes the registry. *)
Lemma group_member_stays_pending :
  (Callback.Status <$> callbacks pairBatch.1.2 !! "A" = Some "pending")
  ∧ (Callback.Status <$> callbacks pairAfterA.1 !! "A" = Some "pending")
  ∧ history pairAfterA.1 = []
  ∧ (OnAgentComplete calmEnv (CompletionInfo.mk "A" "alpha" "redone" "proj" "")
       pairAfterA.1 pairAfterA.2).1 ≠ pairAfterA.1.
Proof.
  split; [reflexivity|]. split; [reflexivity|]. split; [reflexivity|].
  intros H.
  apply (f_equal (λ r, CompletionInfo.Result
                         <$> (groups r !! "grp-0" ≫= λ g,
                              CallbackGroup.Results g !! "A"))) in H.
  vm_compute in H. discriminate H.
Qed.

(** ** The clock of the world only moves forward *)

Section Ticks.
Variable env : Env.

Lemma persist_tick (r : Registry) (w : World) : tick w < tick (persist env r w).
Proof.
  unfold persist. destruct (os_MkdirAll env _ _); simpl; [|lia].
  destruct (os_WriteFile env _ _); simpl; lia.
Qed.

Lemma executeCall_tick (r : Registry) (cb : Callback.t) (info : CompletionInfo.t)
    (w : World) : tick w ≤ tick (executeCall env r cb info w).2.
Proof.
  unfold executeCall, Call, createCall.
  destruct (vapiClient r) as [c|]; [|done].
  destruct (vapi.IsConfigured c); simpl; lia.
Qed.

Lemma send_tick (c : email.Client) (to subject body fromOverride : string) (w : World) :
  tick w ≤ tick (send env c to subject body fromOverride w).2.
Proof. unfold send, now. simpl. lia. Qed.

Lemma executeEmail_tick (r : Registry) (cb : Callback.t) (info : CompletionInfo.t)
    (w : World) : tick w ≤ tick (executeEmail env r cb info w).2.
Proof.
  unfold executeEmail, SendTaskComplete.
  destruct (emailClient r) as [c|]; [|done].
  destruct (email.IsConfigured c); cbn [negb]; [apply send_tick|done].
Qed.

Lemma executeBatchEmail_tick (r : Registry) (g : CallbackGroup.t) (w : World) :
  tick w ≤ tick (executeBatchEmail env r g w).2.
Proof.
  unfold executeBatchEmail, SendBatchComplete.
  destruct (emailClient r) as [c|]; [|done].
  destruct (email.IsConfigured c); cbn [negb]; [apply send_tick|done].
Qed.

Lemma dispatch_tick (r : Registry) (cb : Callback.t) (info : CompletionInfo.t)
    (w : World) : tick w ≤ tick (dispatch env r cb info w).2.
Proof.
  unfold dispatch. repeat case_decide.
  - apply executeCall_tick.
  - apply executeEmail_tick.
  - pose proof (executeCall_tick r cb info w) as Hc.
    destruct (executeCall env r cb info w) as [e1 w1].
    pose proof (executeEmail_tick r cb info w1) as He.
    destruct (executeEmail env r cb info w1) as [e2 w2]. simpl in *. lia.
  - done.
Qed.

Lemma dispatchBatch_tick (r : Registry) (g : CallbackGroup.t) (w : World) :
  tick w ≤ tick (dispatchBatch env r g w).2.
Proof.
  unfold dispatchBatch, executeBatchCall. repeat case_decide.
  - done.
  - apply executeBatchEmail_tick.
  - pose proof (executeBatchEmail_tick r g w) as He.
    destruct (executeBatchEmail env r g w) as [e2 w2]. simpl in *. lia.
  - done.
Qed.

Lemma foldl_registerMember_tick (method phone emailAddr customerName persona
    groupID : string) (agents : list AgentInfo.t) :
  ∀ (cbs : gmap string Callback.t) (w : World),
    tick w ≤ tick (foldl (registerMember env method phone emailAddr customerName
                            persona groupID) (cbs, w) agents).2.
Proof.
  induction agents as [|a agents IH]; intros cbs w; simpl; [done|].
  unfold registerMember at 2. simpl.
  etransitivity; [|apply IH]. simpl. lia.
Qed.

End Ticks.

(** ** Batch registration *)

Section Batch.
Variable env : Env.

Lemma checkBatchCall_None (method phone : string) :
  checkBatchCall method phone = None ↔
  (method = "call" ∨ method = "both" → phone ≠ "").
Proof.
  unfold checkBatchCall.
  destruct (decide (method = "call")) as [->|Hc]; simpl.
  - destruct (decide (phone = "")); intuition congruence.
  - rewrite (bool_decide_eq_false_2 _ Hc). simpl.
    destruct (decide (method = "both")) as [->|Hb]; simpl.
    + destruct (decide (phone = "")); intuition congruence.
    + rewrite (bool_decide_eq_false_2 _ Hb). intuition congruence.
Qed.

Lemma checkBatchEmail_None (method emailAddr : string) :
  checkBatchEmail method emailAddr = None ↔
  (method = "email" ∨ method = "both" → emailAddr ≠ "").
Proof.
  unfold checkBatchEmail.
  destruct (decide (method = "email")) as [->|Hc]; simpl.
  - destruct (decide (emailAddr = "")); intuition congruence.
  - rewrite (bool_decide_eq_false_2 _ Hc). simpl.
    destruct (decide (method = "both")) as [->|Hb]; simpl.
    + destruct (decide (emailAddr = "")); intuition congruence.
    + rewrite (bool_decide_eq_false_2 _ Hb). intuition congruence.
Qed.

(** The registration loop: every listed agent ends with a pending callback
    of the group under its own id; the other keys are untouched. *)
Lemma foldl_registerMember (method phone emailAddr customerName persona
    groupID : string) (agents : list AgentInfo.t) :
  ∀ (cbs : gmap string Callback.t) (w : World),
    let st := foldl (registerMember env method phone emailAddr customerName
                       persona groupID) (cbs, w) agents in
    (∀ a, a ∈ AgentInfo.ID <$> agents →
       ∃ cb, st.1 !! a = Some cb
             ∧ Callback.AgentID cb = a
             ∧ Callback.GroupID cb = groupID
             ∧ Callback.Status cb = "pending")
    ∧ (∀ a, a ∉ AgentInfo.ID <$> agents → st.1 !! a = cbs !! a)
    ∧ outbox st.2 = outbox w
    ∧ files st.2 = files w.
Proof.
  induction agents as [|ag agents IH]; intros cbs w.
  - simpl. split; [intros a Ha; by apply elem_of_nil in Ha|done].
  - cbn [foldl]. rewrite fmap_cons.
    set (st1 := registerMember env method phone emailAddr customerName persona
                  groupID (cbs, w) ag).
    destruct (IH st1.1 st1.2) as (Hin & Hout & Hob & Hfs).
    rewrite <- surjective_pairing in Hin, Hout, Hob, Hfs.
    split; [|split; [|split]].
    + intros a Ha. destruct (decide (a ∈ AgentInfo.ID <$> agents)) as [Hi|Hi];
        [by apply Hin|].
      apply elem_of_cons in Ha as [->|Ha]; [|done].
      rewrite Hout by done. subst st1. unfold registerMember. simpl.
      rewrite lookup_insert_eq. eexists. split; [reflexivity|]. done.
    + intros a Ha. apply not_elem_of_cons in Ha as [Hne Ha].
      rewrite Hout by done. subst st1. unfold registerMember. simpl.
      by rewrite lookup_insert_ne.
    + by rewrite Hob.
    + by rewrite Hfs.
Qed.

(** What a successful [RegisterBatch] leaves behind. *)
Lemma RegisterBatch_spec (agents : list AgentInfo.t) (method phone emailAddr
    customerName : string) (r : Registry) (w : World) :
  (method = "call" ∨ method = "both" → phone ≠ "") →
  (method = "email" ∨ method = "both" → emailAddr ≠ "") →
  let gid := "grp-" +:+ pretty (time_Now env (tick w)) in
  ∃ g r1 w1,
    RegisterBatch env agents method phone emailAddr customerName r w = (Ok g, r1, w1)
    ∧ CallbackGroup.ID g = gid
    ∧ CallbackGroup.AgentIDs g = AgentInfo.ID <$> agents
    ∧ CallbackGroup.Results g = ∅
    ∧ CallbackGroup.Method g = method
    ∧ CallbackGroup.Status g = "pending"
    ∧ groups r1 = <[gid := g]> (groups r)
    ∧ (∀ a, a ∈ AgentInfo.ID <$> agents →
         ∃ cb, callbacks r1 !! a = Some cb
               ∧ Callback.AgentID cb = a
               ∧ Callback.GroupID cb = gid
               ∧ Callback.Status cb = "pending")
    ∧ (∀ a, a ∉ AgentInfo.ID <$> agents → callbacks r1 !! a = callbacks r !! a)
    ∧ history r1 = history r
    ∧ groupHistory r1 = groupHistory r
    ∧ outbox w1 = outbox w
    ∧ tick w < tick w1.
Proof.
  intros Hp He gid.
  apply checkBatchCall_None in Hp. apply checkBatchEmail_None in He.
  unfold RegisterBatch. rewrite Hp, He. unfold now. simpl.
  pose proof (foldl_registerMember method phone emailAddr customerName
                (personaName r) gid agents (callbacks r) (step w)) as Hfold.
  pose proof (foldl_registerMember_tick env method phone emailAddr customerName
                (personaName r) gid agents (callbacks r) (step w)) as Htick.
  fold gid.
  destruct (foldl _ (callbacks r, step w) agents) as [cbs w'].
  simpl in Hfold, Htick. destruct Hfold as (Hin & Hout & Hob & _).
  eexists _, _, _. split; [reflexivity|]. simpl.
  repeat (split; [done|]).
  split; [by rewrite persist_outbox|].
  pose proof (persist_tick env
    (set_groups (<[gid := CallbackGroup.mk gid (AgentInfo.ID <$> agents) ∅ method
                            phone emailAddr customerName (personaName r)
                            (time_Now env (tick w')) zeroTime "pending" ""]>
                   (groups r)) (set_callbacks cbs r)) (step w')) as Hpt.
  simpl in Hpt. simpl. lia.
Qed.

End Batch.

(** ** What a step leaves of the groups *)

Section Steps.
Variable env : Env.

Lemma executeCallback_tick (key : string) (cb : Callback.t) (info : CompletionInfo.t)
    (r : Registry) (w : World) :
  tick w < tick (executeCallback env key cb info r w).2.
Proof.
  rewrite executeCallback_unfold. simpl.
  pose proof (dispatch_tick env r
                (Callback.with_CompletedAt (time_Now env (tick w)) cb) info (step w))
    as Hd.
  simpl in Hd. lia.
Qed.

(** A group dispatch retires the group under its own id, completed or
    failed, as the newest entry of the group history. *)
Lemma executeGroupCallback_groups (key : string) (g : CallbackGroup.t)
    (r : Registry) (w : World) :
  ∃ g',
    CallbackGroup.ID g' = CallbackGroup.ID g
    ∧ CallbackGroup.AgentIDs g' = CallbackGroup.AgentIDs g
    ∧ CallbackGroup.Results g' = CallbackGroup.Results g
    ∧ (CallbackGroup.Status g' = "completed" ∨ CallbackGroup.Status g' = "failed")
    ∧ groups (executeGroupCallback env key g r w).1
      = delete (CallbackGroup.ID g) (<[key := g']> (groups r))
    ∧ groupHistory (executeGroupCallback env key g r w).1
      = (if decide (50 < length (groupHistory r ++ [g']))
         then drop 1 (groupHistory r ++ [g']) else groupHistory r ++ [g'])
    ∧ tick w < tick (executeGroupCallback env key g r w).2.
Proof.
  rewrite executeGroupCallback_unfold. simpl.
  pose proof (dispatchBatch_tick env r
                (CallbackGroup.with_CompletedAt (time_Now env (tick w)) g) (step w))
    as Hd.
  simpl in Hd.
  destruct (dispatchBatch env r
              (CallbackGroup.with_CompletedAt (time_Now env (tick w)) g) (step w))
    as [[e|] w']; simpl in *.
  - exists (CallbackGroup.with_Error e
              (CallbackGroup.with_Status "failed"
                 (CallbackGroup.with_CompletedAt (time_Now env (tick w)) g))).
    simpl. repeat split; auto; lia.
  - exists (CallbackGroup.with_Status "completed"
              (CallbackGroup.with_CompletedAt (time_Now env (tick w)) g)).
    simpl. repeat split; auto; lia.
Qed.

Lemma OnAgentComplete_tick (info : CompletionInfo.t) (r : Registry) (w : World) :
  tick w ≤ tick (OnAgentComplete env info r w).2.
Proof.
  unfold OnAgentComplete.
  destruct (callbacks r !! _) as [cb|]; [|done].
  destruct (decide (Callback.GroupID cb ≠ "")).
  - destruct (groups r !! _) as [grp|]; [|done]. simpl.
    case_decide.
    + match goal with
      | |- context [executeGroupCallback env ?k ?g ?r' w] =>
          destruct (executeGroupCallback_groups k g r' w) as (_ & _ & _ & _ & _ & _ & _ & Ht);
          destruct (executeGroupCallback env k g r' w) as [r2 w2]
      end.
      simpl in *.
      pose proof (persist_tick env r2 w2). lia.
    + simpl. match goal with |- _ ≤ tick (persist env ?r' _) =>
        pose proof (persist_tick env r' w) end. lia.
  - pose proof (executeCallback_tick (CompletionInfo.AgentID info) cb info r w) as Ht.
    destruct (executeCallback env _ cb info r w) as [r2 w2]. simpl in *.
    pose proof (persist_tick env r2 w2). lia.
Qed.

End Steps.

(** ** Every group is stored under its own id *)


Section Runs.
Variable env : Env.

Lemma elem_of_push {A : Type} (cap : nat) (l : list A) (x y : A) :
  y ∈ (if decide (cap < length (l ++ [x])) then drop 1 (l ++ [x]) else l ++ [x]) →
  y ∈ l ∨ y = x.
Proof.
  intros H.
  assert (y ∈ l ++ [x]) as H'.
  { case_decide; [|done]. eapply subseteq_drop, H. }
  apply elem_of_app in H' as [?|H']; [by left|].
  apply list_elem_of_singleton in H'. by right.
Qed.

Lemma kept_same_groups (gid : string) (t0 : nat) (old : list CallbackGroup.t)
    (st st' : Registry * World) :
  kept gid t0 old st →
  groups st'.1 = groups st.1 → groupHistory st'.1 = groupHistory st.1 →
  tick st.2 ≤ tick st'.2 →
  kept gid t0 old st'.
Proof.
  intros (Hg & Hwf & Ht & Hh) Eg Eh Et. unfold kept.
  rewrite Eg, Eh. repeat split; [done|done|lia|done].
Qed.

Lemma kept_OnAgentComplete (gid : string) (t0 : nat) (old : list CallbackGroup.t)
    (info : CompletionInfo.t) (st : Registry * World) :
  kept gid t0 old st → kept gid t0 old (OnAgentComplete env info st.1 st.2).
Proof.
  destruct st as [r w]. simpl. intros K.
  pose proof K as ((g & Hg & Hids & Hst) & Hwf & Ht & Hh). simpl in *.
  pose proof (OnAgentComplete_tick env info r w) as Htick.
  unfold OnAgentComplete in *.
  destruct (callbacks r !! CompletionInfo.AgentID info) as [cb|]; [|done].
  destruct (decide (Callback.GroupID cb ≠ "")) as [Hne|Hne].
  - destruct (groups r !! Callback.GroupID cb) as [grp|] eqn:Hgrp; [|done].
    simpl in *. set (k := Callback.GroupID cb) in *.
    assert (CallbackGroup.ID grp = k) as Hk by (by apply Hwf).
    destruct (decide (size (<[CompletionInfo.AgentID info := info]>
                              (CallbackGroup.Results grp))
                      = length (CallbackGroup.AgentIDs grp))) as [Hsz|Hsz].
    + assert (k ≠ gid) as Hkg.
      { intros ->. rewrite Hg in Hgrp. injection Hgrp as <-.
        rewrite Hids in Hsz. simpl in Hsz.
        apply map_size_empty_iff in Hsz. by apply insert_non_empty in Hsz. }
      match type of Htick with
      | context [executeGroupCallback env ?k' ?g1 ?r1 w] =>
          destruct (executeGroupCallback_groups env k' g1 r1 w)
            as (g' & Hid' & _ & _ & _ & Hgs & Hgh & _);
          destruct (executeGroupCallback env k' g1 r1 w) as [r2 w2]
      end.
      simpl in *. rewrite Hk in *.
      unfold kept. simpl. rewrite Hgs, Hgh. split; [|split; [|split]].
      * exists g. rewrite lookup_delete_ne by done.
        rewrite !lookup_insert_ne by done. done.
      * intros k' h Hl.
        destruct (decide (k' = k)) as [->|Hkk]; [by rewrite lookup_delete_eq in Hl|].
        rewrite lookup_delete_ne in Hl by done.
        rewrite !lookup_insert_ne in Hl by done. by apply Hwf.
      * lia.
      * intros h Hin Hid. apply elem_of_push in Hin as [Hin| ->]; [by apply Hh|].
        congruence.
    + simpl in *. unfold kept. simpl. split; [|split; [|split]].
      * destruct (decide (k = gid)) as [Hkg|Hkg].
        -- rewrite Hkg in *. rewrite lookup_insert_eq. eexists. split; [done|].
           rewrite Hg in Hgrp. injection Hgrp as <-. done.
        -- exists g. by rewrite lookup_insert_ne.
      * intros k' h Hl. destruct (decide (k' = k)) as [->|Hkk].
        -- rewrite lookup_insert_eq in Hl. injection Hl as <-. exact Hk.
        -- rewrite lookup_insert_ne in Hl by done. by apply Hwf.
      * lia.
      * done.
  - rewrite executeCallback_unfold in *. simpl in *.
    unfold kept. simpl. split; [eauto|]. split; [done|]. split; [lia|done].
Qed.

End Runs.

(** ** A batch without members *)

Section EmptyBatch.
Variable env : Env.

Lemma kept_Register (gid : string) (t0 : nat) (old : list CallbackGroup.t)
    (a n t p m ph e c : string) (st : Registry * World) :
  kept gid t0 old st →
  kept gid t0 old ((Register env a n t p m ph e c st.1 st.2).1.2,
                   (Register env a n t p m ph e c st.1 st.2).2).
Proof.
  intros K. unfold Register.
  destruct (checkCall st.1 m ph); [by destruct st|].
  destruct (checkEmail st.1 m e); [by destruct st|].
  simpl. eapply kept_same_groups; [exact K|done|done|]. simpl.
  match goal with |- _ ≤ tick (persist env ?r' ?w') =>
    pose proof (persist_tick env r' w') as Hp end.
  simpl in Hp. lia.
Qed.

Lemma kept_Cancel (gid : string) (t0 : nat) (old : list CallbackGroup.t)
    (a : string) (st : Registry * World) :
  kept gid t0 old st →
  kept gid t0 old ((Cancel env a st.1 st.2).1.2, (Cancel env a st.1 st.2).2).
Proof.
  intros K. unfold Cancel.
  destruct (callbacks st.1 !! a); [|by destruct st].
  simpl. eapply kept_same_groups; [exact K|done|done|]. simpl.
  match goal with |- _ ≤ tick (persist env ?r' ?w') =>
    pose proof (persist_tick env r' w') as Hp end.
  lia.
Qed.

Lemma kept_SetAgentValidator (gid : string) (t0 : nat) (old : list CallbackGroup.t)
    (fn : option (string → bool)) (st : Registry * World) :
  kept gid t0 old st → kept gid t0 old (SetAgentValidator env fn st.1 st.2).
Proof.
  intros K. unfold SetAgentValidator, cleanupOrphaned. simpl.
  destruct fn as [valid|].
  - destruct (foldl (orphan valid) _ _) as [cbs h]. simpl.
    eapply kept_same_groups; [exact K|done|done|]. simpl.
    match goal with |- _ ≤ tick (persist env ?r' ?w') =>
      pose proof (persist_tick env r' w') as Hp end.
    lia.
  - eapply kept_same_groups; [exact K|done|done|done].
Qed.

Lemma kept_RegisterBatch (t0 : nat) (old : list CallbackGroup.t)
    (ags : list AgentInfo.t) (m ph e c : string) (st : Registry * World) :
  (∀ n, t0 < n → time_Now env n ≠ time_Now env t0) →
  kept ("grp-" +:+ pretty (time_Now env t0)) t0 old st →
  kept ("grp-" +:+ pretty (time_Now env t0)) t0 old
    ((RegisterBatch env ags m ph e c st.1 st.2).1.2,
     (RegisterBatch env ags m ph e c st.1 st.2).2).
Proof.
  intros Hclock K. destruct st as [r w]. simpl.
  destruct (checkBatchCall m ph) as [err|] eqn:Hc;
    [unfold RegisterBatch; by rewrite Hc|].
  destruct (checkBatchEmail m e) as [err|] eqn:He;
    [unfold RegisterBatch; by rewrite Hc, He|].
  destruct (RegisterBatch_spec env ags m ph e c r w
              (proj1 (checkBatchCall_None m ph) Hc)
              (proj1 (checkBatchEmail_None m e) He))
    as (g & r1 & w1 & -> & Hid & _ & _ & _ & _ & Hgs & _ & _ & _ & Hgh & _ & Htick).
  simpl. destruct K as ((g0 & Hg0 & Hids & Hst) & Hwf & Ht & Hh). simpl in *.
  assert ("grp-" +:+ pretty (time_Now env (tick w))
          ≠ "grp-" +:+ pretty (time_Now env t0)) as Hne.
  { intros Heq. apply String.app_inj in Heq. apply pretty_Z_inj in Heq.
    by apply (Hclock (tick w)). }
  unfold kept. simpl. rewrite Hgs, Hgh. split; [|split; [|split]].
  - exists g0. by rewrite lookup_insert_ne.
  - intros k h Hl.
    destruct (decide (k = "grp-" +:+ pretty (time_Now env (tick w)))) as [->|Hk].
    + rewrite lookup_insert_eq in Hl. injection Hl as <-. exact Hid.
    + rewrite lookup_insert_ne in Hl by done. by apply Hwf.
  - lia.
  - done.
Qed.

Lemma kept_perform (t0 : nat) (old : list CallbackGroup.t) (op : Op)
    (st : Registry * World) :
  (∀ n, t0 < n → time_Now env n ≠ time_Now env t0) →
  kept ("grp-" +:+ pretty (time_Now env t0)) t0 old st →
  kept ("grp-" +:+ pretty (time_Now env t0)) t0 old (perform env st op).
Proof.
  intros Hclock K. destruct op; simpl.
  - by apply kept_Register.
  - by apply kept_RegisterBatch.
  - by apply kept_OnAgentComplete.
  - by apply kept_Cancel.
  - by apply kept_SetAgentValidator.
  - eapply kept_same_groups; [exact K|done|done|done].
Qed.

Lemma kept_run (t0 : nat) (old : list CallbackGroup.t) (ops : list Op) :
  (∀ n, t0 < n → time_Now env n ≠ time_Now env t0) →
  ∀ st, kept ("grp-" +:+ pretty (time_Now env t0)) t0 old st →
        kept ("grp-" +:+ pretty (time_Now env t0)) t0 old (run env ops st).
Proof.
  intros Hclock. induction ops as [|op ops IH]; intros st K; simpl; [done|].
  apply IH. by apply kept_perform.
Qed.

(** C10. [RegisterBatch] with no members succeeds whenever the contact
    fields that the method needs are present.  It creates no callback and
    one group without member ids, and that group is never dispatched:
    after any sequence of operations on the registry the group is still in
    the pending groups map, pending and memberless, and no group of its id
    has entered the group history.  (Every group of the registry is
    assumed to be stored under its own id, as [RegisterBatch] stores it,
    and the clock is assumed not to read the nanosecond of the
    registration again, so that no later batch takes the same group id.) *)
Theorem empty_batch_is_never_dispatched (method phone emailAddr customerName : string)
    (r : Registry) (w : World) :
  (method = "call" ∨ method = "both" → phone ≠ "") →
  (method = "email" ∨ method = "both" → emailAddr ≠ "") →
  (∀ k g, groups r !! k = Some g → CallbackGroup.ID g = k) →
  (∀ n, tick w < n → time_Now env n ≠ time_Now env (tick w)) →
  ∃ g r1 w1,
    RegisterBatch env [] method phone emailAddr customerName r w = (Ok g, r1, w1)
    ∧ CallbackGroup.AgentIDs g = []
    ∧ groups r1 !! CallbackGroup.ID g = Some g
    ∧ callbacks r1 = callbacks r
    ∧ ∀ ops,
        (∃ g', groups (run env ops (r1, w1)).1 !! CallbackGroup.ID g = Some g'
               ∧ CallbackGroup.AgentIDs g' = []
               ∧ CallbackGroup.Status g' = "pending")
        ∧ (∀ h, h ∈ groupHistory (run env ops (r1, w1)).1 →
             CallbackGroup.ID h = CallbackGroup.ID g → h ∈ groupHistory r).
Proof.
  intros Hp He Hwf Hclock.
  destruct (RegisterBatch_spec env [] method phone emailAddr customerName r w Hp He)
    as (g & r1 & w1 & Hout & Hid & Hids & _ & _ & Hst & Hgs & _ & Hcbs & _ & Hgh
        & _ & Htick).
  exists g, r1, w1. split; [exact Hout|]. split; [exact Hids|].
  split; [rewrite Hgs, Hid; apply lookup_insert_eq|].
  split.
  { apply map_eq. intros k. apply Hcbs. simpl. apply not_elem_of_nil. }
  intros ops.
  assert (kept ("grp-" +:+ pretty (time_Now env (tick w))) (tick w) (groupHistory r)
            (r1, w1)) as K.
  { unfold kept. simpl. rewrite Hgs, Hgh. split; [|split; [|split]].
    - exists g. rewrite lookup_insert_eq. done.
    - intros k h Hl.
      destruct (decide (k = "grp-" +:+ pretty (time_Now env (tick w)))) as [->|Hk].
      + rewrite lookup_insert_eq in Hl. injection Hl as <-. exact Hid.
      + rewrite lookup_insert_ne in Hl by done. by apply Hwf.
    - exact Htick.
    - done. }
  apply (kept_run (tick w) (groupHistory r) ops Hclock) in K.
  destruct K as (Hg & _ & _ & Hh). rewrite Hid. split; [exact Hg|exact Hh].
Qed.

End EmptyBatch.

(** An empty batch, then every kind of operation, among them a completion
    for an agent nobody registered. *)
Lemma empty_batch_is_never_dispatched_witness :
  ∃ g r1 w1,
    RegisterBatch calmEnv [] "email" "" "ann@example.com" "Ann"
      (emptyRegistry None (Some demoEmail)) emptyWorld = (Ok g, r1, w1)
    ∧ CallbackGroup.AgentIDs g = []
    ∧ ∃ g', groups
              (run calmEnv
                 [DoOnAgentComplete (CompletionInfo.mk "A" "alpha" "done" "proj" "");
                  DoRegister "B" "beta" "task" "proj" "email" "" "ann@example.com" "Ann";
                  DoOnAgentComplete (CompletionInfo.mk "B" "beta" "done" "proj" "");
                  DoCancel "B"; DoSetAgentValidator (Some (λ _, false))]
                 (r1, w1)).1 !! CallbackGroup.ID g = Some g'
            ∧ CallbackGroup.AgentIDs g' = [].
Proof.
  destruct (empty_batch_is_never_dispatched calmEnv "email" "" "ann@example.com" "Ann"
              (emptyRegistry None (Some demoEmail)) emptyWorld)
    as (g & r1 & w1 & Hout & Hids & _ & _ & Hrun).
  - intros [H|H]; discriminate H.
  - intros _. discriminate.
  - intros k g H. simpl in H. by rewrite lookup_empty in H.
  - intros n Hn. simpl in *. lia.
  - exists g, r1, w1. split; [exact Hout|]. split; [exact Hids|].
    destruct (Hrun [DoOnAgentComplete (CompletionInfo.mk "A" "alpha" "done" "proj" "");
                    DoRegister "B" "beta" "task" "proj" "email" "" "ann@example.com" "Ann";
                    DoOnAgentComplete (CompletionInfo.mk "B" "beta" "done" "proj" "");
                    DoCancel "B"; DoSetAgentValidator (Some (λ _, false))])
      as [(g' & Hg' & Hids' & _) _].
    exists g'. split; [exact Hg'|exact Hids'].
Defined.

(** ** The completion barrier *)

Section Barrier.
Variable env : Env.

Lemma executeGroupCallback_callbacks (key : string) (g : CallbackGroup.t)
    (r : Registry) (w : World) :
  (∀ a, a ∈ CallbackGroup.AgentIDs g →
     callbacks (executeGroupCallback env key g r w).1 !! a = None)
  ∧ (∀ a, a ∉ CallbackGroup.AgentIDs g →
       callbacks (executeGroupCallback env key g r w).1 !! a = callbacks r !! a).
Proof.
  rewrite executeGroupCallback_unfold. simpl.
  match goal with
  | |- context [foldl (retireMember ?s ?t) _ _] =>
      destruct (foldl_retireMember s t (CallbackGroup.AgentIDs g) (callbacks r)
                  (history r)) as (Hin & Hout & _)
  end.
  split; [exact Hin|exact Hout].
Qed.

Lemma waiting_step (gid : string) (ids : list string) (D : gset string)
    (h : list Callback.t) (gh : list CallbackGroup.t) (ob : list Effect)
    (info : CompletionInfo.t) (st : Registry * World) :
  waiting gid ids D h gh ob st →
  CompletionInfo.AgentID info ∈ ids →
  (size ({[CompletionInfo.AgentID info]} ∪ D) ≠ length ids →
   waiting gid ids ({[CompletionInfo.AgentID info]} ∪ D) h gh ob
     (OnAgentComplete env info st.1 st.2))
  ∧ (size ({[CompletionInfo.AgentID info]} ∪ D) = length ids →
     fired gid ids ({[CompletionInfo.AgentID info]} ∪ D) gh
       (OnAgentComplete env info st.1 st.2)).
Proof.
  destruct st as [r w]. simpl.
  intros ((g & Hg & Hid & Hids & Hst & Hdom) & Hne & Hmem & Hh & Hgh & Hob) Ha.
  simpl in *.
  destruct (Hmem _ Ha) as (cb & Hcb & Hcg & Hcs).
  assert (size (<[CompletionInfo.AgentID info := info]> (CallbackGroup.Results g))
          = size ({[CompletionInfo.AgentID info]} ∪ D)) as Hsz.
  { rewrite <- (size_dom (D := gset string)). by rewrite dom_insert_L, Hdom. }
  unfold OnAgentComplete. rewrite Hcb.
  rewrite decide_True by (by rewrite Hcg).
  rewrite Hcg, Hg. simpl. rewrite Hsz, Hids. split; intros Hbar.
  - rewrite decide_False by done. unfold waiting. simpl.
    split; [|split; [done|split; [done|split; [done|split; [done|]]]]].
    + eexists. rewrite lookup_insert_eq. split; [reflexivity|]. simpl.
      split; [done|]. split; [done|]. split; [done|].
      by rewrite dom_insert_L, Hdom.
    + by rewrite persist_outbox.
  - rewrite decide_True by done.
    set (g1 := CallbackGroup.with_Results _ g).
    set (r1 := set_groups _ r).
    destruct (executeGroupCallback_groups env gid g1 r1 w)
      as (g' & Hid' & Hids' & Hres' & Hst' & Hgs & Hghs & _).
    destruct (executeGroupCallback_callbacks gid g1 r1 w) as [Hin _].
    destruct (executeGroupCallback env gid g1 r1 w) as [r2 w2].
    simpl in *. unfold fired. simpl. split; [|split].
    + rewrite Hgs, Hid. apply lookup_delete_eq.
    + intros a Hai. apply Hin. by rewrite Hids.
    + exists g'. rewrite Hghs, Hgh. split; [done|].
      split; [congruence|]. split; [congruence|].
      split; [|done]. rewrite Hres'. by rewrite dom_insert_L, Hdom.
Qed.

Lemma completed_snoc (infos : list CompletionInfo.t) (info : CompletionInfo.t) :
  completed (infos ++ [info]) = {[CompletionInfo.AgentID info]} ∪ completed infos.
Proof.
  unfold completed. rewrite fmap_app. simpl.
  rewrite list_to_set_snoc_L. apply (comm_L (∪)).
Qed.

Lemma completions_snoc (infos : list CompletionInfo.t) (info : CompletionInfo.t)
    (st : Registry * World) :
  completions env (infos ++ [info]) st
  = OnAgentComplete env info (completions env infos st).1 (completions env infos st).2.
Proof. unfold completions. by rewrite foldl_snoc. Qed.

(** While fewer distinct agents have completed than the group has member
    ids, the group is waiting. *)
Lemma waiting_completions (gid : string) (ids : list string)
    (h : list Callback.t) (gh : list CallbackGroup.t) (ob : list Effect)
    (st : Registry * World) (infos : list CompletionInfo.t) :
  waiting gid ids ∅ h gh ob st →
  (∀ i, i ∈ infos → CompletionInfo.AgentID i ∈ ids) →
  size (completed infos) < length ids →
  waiting gid ids (completed infos) h gh ob (completions env infos st).
Proof.
  intros W0. induction infos as [|info infos IH] using rev_ind; intros Hmem Hsz.
  - exact W0.
  - rewrite completed_snoc in *. rewrite completions_snoc.
    assert (size (completed infos) ≤ size ({[CompletionInfo.AgentID info]}
                                           ∪ completed infos)) as Hle
      by (apply subseteq_size, union_subseteq_r).
    apply waiting_step.
    + apply IH; [|lia]. intros i Hi. apply Hmem, elem_of_app. by left.
    + apply Hmem, elem_of_app. right. by apply list_elem_of_singleton.
    + lia.
Qed.


End Barrier.

Section BarrierTheorem.
Variable env : Env.

Lemma completed_members (ids : list string) (infos : list CompletionInfo.t) :
  (∀ i, i ∈ infos → CompletionInfo.AgentID i ∈ ids) →
  completed infos ⊆ list_to_set ids.
Proof.
  intros Hmem a Ha. unfold completed in Ha.
  apply elem_of_list_to_set in Ha. apply list_elem_of_fmap in Ha as (i & -> & Hi).
  apply elem_of_list_to_set. by apply Hmem.
Qed.

Lemma size_list_to_set_le (l : list string) :
  size (list_to_set l : gset string) ≤ length l.
Proof.
  induction l as [|a l IH]; simpl.
  - done.
  - rewrite size_union_alt, size_singleton.
    pose proof (subseteq_size (list_to_set l ∖ {[a]}) (list_to_set l : gset string)
                  (subseteq_difference_l _ _ _ (reflexivity _))).
    lia.
Qed.




End BarrierTheorem.

(** ** Persistence *)

Section Codec.







End Codec.

Section Reload.
Variable env : Env.



End Reload.




(** * Further properties of the registry *)

(** ** What one operation does to the four parts *)

Section Shape.
Variable env : Env.

(** The members retired by a group dispatch come from the pending map. *)
Lemma foldl_retireMember_from (s : string) (t : Time) (ids : list string) :
  ∀ (cbs : gmap string Callback.t) (h : list Callback.t),
    let st := foldl (retireMember s t) (cbs, h) ids in
    (∀ k c, st.1 !! k = Some c → cbs !! k = Some c)
    ∧ (∀ c', c' ∈ st.2 →
         c' ∈ h ∨ ∃ k c, k ∈ ids ∧ cbs !! k = Some c ∧ c' = retired s t c).
Proof.
  induction ids as [|a ids IH]; intros cbs h.
  - simpl. split; [done|]. intros c' Hc'. by left.
  - cbn [foldl].
    assert (retireMember s t (cbs, h) a
            = match cbs !! a with
              | Some c => (delete a cbs, h ++ [retired s t c])
              | None => (cbs, h)
              end) as -> by reflexivity.
    destruct (cbs !! a) as [c|] eqn:Ha.
    + destruct (IH (delete a cbs) (h ++ [retired s t c])) as [Hsub Hfrom].
      split.
      * intros k c0 Hk. apply Hsub in Hk.
        destruct (decide (k = a)) as [->|Hne]; [by rewrite lookup_delete_eq in Hk|].
        by rewrite lookup_delete_ne in Hk.
      * intros c' Hc'. destruct (Hfrom c' Hc') as [Hin|(k & c0 & Hk & Hl & ->)].
        -- apply elem_of_app in Hin as [Hin|Hin]; [by left|].
           apply list_elem_of_singleton in Hin as ->.
           right. exists a, c. split; [by apply elem_of_cons; left|done].
        -- right. exists k, c0. split; [by apply elem_of_cons; right|].
           destruct (decide (k = a)) as [->|Hne]; [by rewrite lookup_delete_eq in Hl|].
           by rewrite lookup_delete_ne in Hl.
    + destruct (IH cbs h) as [Hsub Hfrom]. split; [exact Hsub|].
      intros c' Hc'. destruct (Hfrom c' Hc') as [Hin|(k & c0 & Hk & Hl & ->)];
        [by left|].
      right. exists k, c0. split; [by apply elem_of_cons; right|done].
Qed.

Lemma elem_of_keep_last {A : Type} (cap : nat) (l : list A) (x : A) :
  x ∈ (if decide (cap < length l) then drop (length l - cap) l else l) → x ∈ l.
Proof. case_decide; [apply subseteq_drop|done]. Qed.


Lemma evolves_refl (reg : string → Prop) (r : Registry) : evolves reg r r.
Proof. unfold evolves. repeat split; intros; left; eauto. Qed.

Lemma evolves_same (reg : string → Prop) (r r' : Registry) :
  callbacks r' = callbacks r → groups r' = groups r →
  history r' = history r → groupHistory r' = groupHistory r →
  evolves reg r r'.
Proof.
  intros Hc Hg Hh Hgh. unfold evolves. rewrite Hc, Hg, Hh, Hgh.
  repeat split; intros; left; eauto.
Qed.

Lemma OnAgentComplete_evolves (reg : string → Prop) (info : CompletionInfo.t)
    (r : Registry) (w : World) :
  keyed r → evolves reg r (OnAgentComplete env info r w).1.
Proof.
  intros [Hkc Hkg]. unfold OnAgentComplete.
  destruct (callbacks r !! CompletionInfo.AgentID info) as [cb|] eqn:Hcb;
    [|apply evolves_refl].
  pose proof (Hkc _ _ Hcb) as Hkey.
  destruct (decide (Callback.GroupID cb ≠ "")) as [Hne|Hne].
  - destruct (groups r !! Callback.GroupID cb) as [grp|] eqn:Hgrp;
      [|apply evolves_refl].
    pose proof (Hkg _ _ Hgrp) as Hgid. simpl.
    set (k := Callback.GroupID cb) in *.
    set (g1 := CallbackGroup.with_Results _ grp).
    set (r1 := set_groups (<[k := g1]> (groups r)) r).
    case_decide as Hsz.
    + destruct (executeGroupCallback_groups env k g1 r1 w)
        as (g' & Hid' & _ & _ & Hst' & Hgs & Hgh & _).
      pose proof (executeGroupCallback_unfold env k g1 r1 w) as Hun.
      cbv zeta in Hun.
      set (s' := CallbackGroup.Status _) in Hun.
      assert (s' = "completed" ∨ s' = "failed") as Hs'.
      { subst s'. destruct (dispatchBatch env r1 _ (step w)).1; simpl; auto. }
      destruct (foldl_retireMember_from s' (time_Now env (tick w))
                  (CallbackGroup.AgentIDs g1) (callbacks r1) (history r1))
        as [Hsub Hfrom].
      destruct (executeGroupCallback env k g1 r1 w) as [r2 w2] eqn:E.
      injection Hun as Hr2 _. simpl in *.
      unfold evolves. split; [|split; [|split]].
      * intros x c Hx. left. rewrite Hr2 in Hx. simpl in Hx. by apply Hsub.
      * intros x g Hx. left. rewrite Hgs in Hx.
        destruct (decide (x = CallbackGroup.ID grp)) as [->|Hx'];
          [by rewrite lookup_delete_eq in Hx|].
        rewrite lookup_delete_ne in Hx by done.
        rewrite Hgid in Hx'.
        rewrite !lookup_insert_ne in Hx by done. eauto.
      * intros c' Hc'. rewrite Hr2 in Hc'. simpl in Hc'.
        apply elem_of_keep_last in Hc'.
        destruct (Hfrom c' Hc') as [?|(x & c & Hx & Hl & ->)]; [by left|].
        right. exists c. simpl. rewrite (Hkc _ _ Hl). split; [done|].
        unfold retires, retired. simpl. repeat split; try done.
        destruct Hs' as [->| ->]; auto.
      * intros h Hh. rewrite Hgh in Hh.
        apply elem_of_push in Hh as [?| ->]; [by left|by right].
    + simpl. unfold evolves. simpl. split; [|split; [|split]].
      * intros; by left.
      * intros x g Hx. left. destruct (decide (x = k)) as [->|Hxk].
        -- rewrite lookup_insert_eq in Hx. injection Hx as <-. eauto.
        -- rewrite lookup_insert_ne in Hx by done. eauto.
      * intros; by left.
      * intros; by left.
  - rewrite executeCallback_unfold. simpl.
    set (cb0 := Callback.with_CompletedAt _ cb).
    set (out := dispatch env r cb0 info (step w)).
    unfold evolves. simpl. split; [|split; [|split]].
    + intros x c Hx. left. rewrite Hkey in Hx.
      rewrite delete_insert_eq in Hx.
      destruct (decide (x = CompletionInfo.AgentID info)) as [->|Hne'];
        [by rewrite lookup_delete_eq in Hx|].
      by rewrite lookup_delete_ne in Hx.
    + intros x g Hx. left. eauto.
    + intros c' Hc'. apply elem_of_push in Hc' as [?| ->]; [by left|].
      right. exists cb.
      destruct (out.1) as [e|]; simpl; rewrite Hkey; (split; [done|]);
        unfold retires; simpl; repeat split; auto.
    + intros; by left.
Qed.

End Shape.

Section ShapeOps.
Variable env : Env.

Lemma Register_evolves (a n t p m ph e c : string) (r : Registry) (w : World) :
  evolves (λ k, k = a) r (Register env a n t p m ph e c r w).1.2.
Proof.
  unfold Register.
  destruct (checkCall r m ph); [apply evolves_refl|].
  destruct (checkEmail r m e); [apply evolves_refl|].
  simpl. unfold evolves. simpl. split; [|split; [|split]];
    [|intros; left; eauto|intros; by left|intros; by left].
  intros k cb Hk. destruct (decide (k = a)) as [->|Hne].
  - rewrite lookup_insert_eq in Hk. injection Hk as <-. right. done.
  - rewrite lookup_insert_ne in Hk by done. by left.
Qed.

Lemma RegisterBatch_evolves (ags : list AgentInfo.t) (m ph e c : string)
    (r : Registry) (w : World) :
  evolves (λ k, k ∈ AgentInfo.ID <$> ags) r (RegisterBatch env ags m ph e c r w).1.2.
Proof.
  destruct (checkBatchCall m ph) as [err|] eqn:Hc;
    [unfold RegisterBatch; rewrite Hc; apply evolves_refl|].
  destruct (checkBatchEmail m e) as [err|] eqn:He;
    [unfold RegisterBatch; rewrite Hc, He; apply evolves_refl|].
  destruct (RegisterBatch_spec env ags m ph e c r w
              (proj1 (checkBatchCall_None m ph) Hc)
              (proj1 (checkBatchEmail_None m e) He))
    as (g & r1 & w1 & -> & Hid & _ & _ & _ & Hst & Hgs & Hin & Hout & Hh & Hgh & _).
  simpl. unfold evolves. rewrite Hgs, Hh, Hgh. split; [|split; [|split]].
  - intros k cb Hk. destruct (decide (k ∈ AgentInfo.ID <$> ags)) as [Hi|Hi].
    + destruct (Hin k Hi) as (cb' & Hcb' & Ha & _ & Hs). right.
      rewrite Hk in Hcb'. injection Hcb' as <-. done.
    + left. by rewrite <- Hout.
  - intros k g0 Hk.
    destruct (decide (k = "grp-" +:+ pretty (time_Now env (tick w)))) as [->|Hne].
    + rewrite lookup_insert_eq in Hk. injection Hk as <-. right. done.
    + rewrite lookup_insert_ne in Hk by done. left. eauto.
  - intros; by left.
  - intros; by left.
Qed.

Lemma Cancel_evolves (reg : string → Prop) (a : string) (r : Registry) (w : World) :
  evolves reg r (Cancel env a r w).1.2.
Proof.
  unfold Cancel. destruct (callbacks r !! a) eqn:Ha; [|apply evolves_refl].
  simpl. unfold evolves. simpl. split; [|split; [|split]];
    [|intros; left; eauto|intros; by left|intros; by left].
  intros k cb Hk. left.
  destruct (decide (k = a)) as [->|Hne]; [by rewrite lookup_delete_eq in Hk|].
  by rewrite lookup_delete_ne in Hk.
Qed.

Lemma SetAgentValidator_evolves (reg : string → Prop) (fn : option (string → bool))
    (r : Registry) (w : World) :
  keyed r → evolves reg r (SetAgentValidator env fn r w).1.
Proof.
  intros [Hkc _]. unfold SetAgentValidator.
  destruct fn as [valid|].
  - destruct (cleanupOrphaned_spec env valid (set_agentValidator (Some valid) r) w
                eq_refl) as (Hh & Hm & Hg & Hgh).
    simpl in *. unfold evolves. rewrite Hh, Hg, Hgh.
    split; [|split; [|split]]; [| intros; left; eauto | | intros; by left].
    + intros k cb Hk. left. rewrite Hm in Hk. by destruct (valid k).
    + intros c' Hc'. apply elem_of_app in Hc' as [?|Hc']; [by left|].
      apply list_elem_of_fmap in Hc' as ([k c] & -> & Hkc').
      apply list_elem_of_filter in Hkc' as [_ Hkc'].
      apply elem_of_map_to_list in Hkc'.
      right. exists c. unfold orphaned. simpl. rewrite (Hkc _ _ Hkc').
      split; [done|]. unfold retires. simpl. repeat split; auto.
  - unfold cleanupOrphaned. simpl. by apply evolves_same.
Qed.

Lemma evolves_impl (reg reg' : string → Prop) (r r' : Registry) :
  (∀ k, reg k → reg' k) → evolves reg r r' → evolves reg' r r'.
Proof.
  intros Himp (Hc & Hrest). split; [|exact Hrest].
  intros k c Hk. destruct (Hc k c Hk) as [?|(? & ?)]; [by left|right; auto].
Qed.

Lemma perform_evolves (st : Registry * World) (op : Op) :
  keyed st.1 → evolves (λ k, registers k op) st.1 (perform env st op).1.
Proof.
  intros K. destruct op; simpl.
  - eapply evolves_impl; [|apply Register_evolves]. by intros k ->.
  - eapply evolves_impl; [|apply RegisterBatch_evolves]. done.
  - by apply OnAgentComplete_evolves.
  - apply Cancel_evolves.
  - by apply SetAgentValidator_evolves.
  - by apply evolves_same.
Qed.

Lemma evolves_keyed (reg : string → Prop) (r r' : Registry) :
  evolves reg r r' → keyed r → keyed r'.
Proof.
  intros (Hc & Hg & _ & _) [Hkc Hkg]. split.
  - intros k cb Hk. destruct (Hc k cb Hk) as [?|(_ & ? & _)]; [by apply Hkc|done].
  - intros k g Hk. destruct (Hg k g Hk) as [(g0 & Hg0 & Hid & _)|[? _]]; [|done].
    rewrite Hid. by apply Hkg.
Qed.

Lemma evolves_statuses (reg : string → Prop) (r r' : Registry) :
  evolves reg r r' → statuses r → statuses r'.
Proof.
  intros (Hc & Hg & Hh & Hgh) (Sc & Sg & Sh & Sgh).
  rewrite Forall_forall in Sh. rewrite Forall_forall in Sgh.
  split; [|split; [|split]].
  - intros k cb Hk. destruct (Hc k cb Hk) as [?|(_ & _ & ?)]; [by eapply Sc|done].
  - intros k g Hk. destruct (Hg k g Hk) as [(g0 & Hg0 & _ & Hs)|[_ ?]]; [|done].
    rewrite Hs. by eapply Sg.
  - apply Forall_forall. intros c' Hc'.
    destruct (Hh c' Hc') as [?|(c & _ & _ & _ & _ & _ & ?)]; [by apply Sh|done].
  - apply Forall_forall. intros h Hin.
    destruct (Hgh h Hin) as [?|?]; [by apply Sgh|done].
Qed.

Lemma keyed_run (ops : list Op) :
  ∀ st, keyed st.1 → keyed (run env ops st).1.
Proof.
  induction ops as [|op ops IH]; intros st K; simpl; [done|].
  apply IH. eapply evolves_keyed; [by apply perform_evolves|done].
Qed.

Lemma statuses_run (ops : list Op) :
  ∀ st, keyed st.1 → statuses st.1 → statuses (run env ops st).1.
Proof.
  induction ops as [|op ops IH]; intros st K S; simpl; [done|].
  pose proof (perform_evolves st op K) as E.
  apply IH; [by eapply evolves_keyed|by eapply evolves_statuses].
Qed.

(** X1. The registry keeps its state machine.  If every pending callback
    is stored under its agent id and every pending group under its id, if
    everything in the two maps is pending and everything in the histories
    has a terminal status (completed, failed or orphaned for a callback,
    completed or failed for a group), then the same holds after any
    sequence of operations.  A registry that starts empty is in this state. *)
Theorem run_keeps_state_machine (ops : list Op) (st : Registry * World) :
  keyed st.1 → statuses st.1 →
  keyed (run env ops st).1 ∧ statuses (run env ops st).1.
Proof.
  intros K S. split; [by apply keyed_run|by apply statuses_run].
Qed.

End ShapeOps.

Lemma emptyRegistry_keyed (v : option vapi.Client) (e : option email.Client) :
  keyed (emptyRegistry v e) ∧ statuses (emptyRegistry v e).
Proof.
  unfold keyed, statuses. simpl.
  repeat split; try (intros k x H; by rewrite lookup_empty in H); constructor.
Qed.

Lemma run_keeps_state_machine_witness :
  keyed livelyRegistry.1 ∧ statuses livelyRegistry.1.
Proof.
  apply (run_keeps_state_machine calmEnv).
  - apply emptyRegistry_keyed.
  - apply emptyRegistry_keyed.
Defined.

(** ** The histories stay within their capacities *)

Section CapacityRuns.
Variable env : Env.

Lemma OnAgentComplete_bounded (info : CompletionInfo.t) (r : Registry) (w : World) :
  bounded r → bounded (OnAgentComplete env info r w).1.
Proof.
  intros [Hh Hgh]. unfold OnAgentComplete.
  destruct (callbacks r !! CompletionInfo.AgentID info) as [cb|]; [|done].
  destruct (decide (Callback.GroupID cb ≠ "")).
  - destruct (groups r !! Callback.GroupID cb) as [grp|]; [|done]. simpl.
    case_decide; [|done].
    match goal with
    | |- context [executeGroupCallback env ?k ?g ?r1 w] =>
        pose proof (executeGroupCallback_capacity env k g r1 w Hgh) as Hcap;
        destruct (executeGroupCallback env k g r1 w) as [r2 w2]
    end.
    exact Hcap.
  - pose proof (executeCallback_capacity env (CompletionInfo.AgentID info) cb info
                  r w Hh) as [Hcap Hsame].
    destruct (executeCallback env _ cb info r w) as [r2 w2]. simpl in *.
    split; [exact Hcap|by rewrite Hsame].
Qed.

Lemma perform_bounded (st : Registry * World) (op : Op) :
  ¬ installsValidator op → bounded st.1 → bounded (perform env st op).1.
Proof.
  intros Hop B. destruct op; simpl.
  - unfold Register. destruct (checkCall _ _ _); [done|].
    destruct (checkEmail _ _ _); done.
  - destruct (checkBatchCall method phone) as [err|] eqn:Hc;
      [unfold RegisterBatch; by rewrite Hc|].
    destruct (checkBatchEmail method emailAddr) as [err|] eqn:He;
      [unfold RegisterBatch; by rewrite Hc, He|].
    destruct (RegisterBatch_spec env agents method phone emailAddr customerName
                st.1 st.2 (proj1 (checkBatchCall_None _ _) Hc)
                (proj1 (checkBatchEmail_None _ _) He))
      as (g & r1 & w1 & -> & _ & _ & _ & _ & _ & _ & _ & _ & Hh & Hgh & _).
    simpl. unfold bounded. by rewrite Hh, Hgh.
  - by apply OnAgentComplete_bounded.
  - unfold Cancel. by destruct (callbacks st.1 !! agentID).
  - destruct fn as [valid|]; [by exfalso; apply Hop|].
    done.
  - done.
Qed.

(** X2. As long as no agent validator is installed, the histories stay
    within their capacities: from a registry with at most 100 history
    entries and at most 50 group history entries, any sequence of
    registrations, completions and cancellations leaves at most 100 and at
    most 50. *)
Theorem run_keeps_capacity (ops : list Op) (st : Registry * World) :
  Forall (λ op, ¬ installsValidator op) ops →
  bounded st.1 → bounded (run env ops st).1.
Proof.
  revert st. induction ops as [|op ops IH]; intros st Hops B; simpl; [done|].
  apply Forall_cons in Hops as [Hop Hops].
  apply IH; [done|]. by apply perform_bounded.
Qed.

End CapacityRuns.

Lemma run_keeps_capacity_witness : bounded livelyRegistry.1.
Proof.
  apply (run_keeps_capacity calmEnv).
  - repeat constructor; simpl; tauto.
  - unfold bounded. simpl. lia.
Defined.

(** ** Cancellation *)

Section Cancellation.
Variable env : Env.

Lemma evolves_forgotten (reg : string → Prop) (a : string) (old : list Callback.t)
    (r r' : Registry) :
  evolves reg r r' → ¬ reg a → forgotten a old r → forgotten a old r'.
Proof.
  intros (Hc & _ & Hh & _) Hreg [Hgone Hold]. split.
  - destruct (callbacks r' !! a) as [c|] eqn:Ha; [|done].
    destruct (Hc a c Ha) as [?|(? & _)]; [congruence|done].
  - intros c' Hc' Ha. destruct (Hh c' Hc') as [?|(c & Hl & _)]; [by apply Hold|].
    rewrite Ha in Hl. congruence.
Qed.

Lemma forgotten_run (a : string) (old : list Callback.t) (ops : list Op) :
  Forall (λ op, ¬ registers a op) ops →
  ∀ st, keyed st.1 → forgotten a old st.1 → forgotten a old (run env ops st).1.
Proof.
  induction ops as [|op ops IH]; intros Hops st K F; simpl; [done|].
  apply Forall_cons in Hops as [Hop Hops].
  pose proof (perform_evolves env st op K) as E.
  apply IH; [done|by eapply evolves_keyed|by eapply evolves_forgotten].
Qed.

(** X3. [Cancel] of an agent without a pending callback returns false
    and changes nothing.  [Cancel] of a pending callback returns true and
    removes it from the pending map, leaving the groups, both histories
    and the outbox as they were; and as long as the agent is not
    registered again, no later operation brings it back: the agent has no
    pending callback and the history gains no callback of that agent. *)
Theorem Cancel_forgets (a : string) (r : Registry) (w : World) :
  keyed r →
  (callbacks r !! a = None → Cancel env a r w = (false, r, w))
  ∧ (is_Some (callbacks r !! a) →
     (Cancel env a r w).1.1 = true
     ∧ callbacks (Cancel env a r w).1.2 = delete a (callbacks r)
     ∧ Get a (Cancel env a r w).1.2 = None
     ∧ groups (Cancel env a r w).1.2 = groups r
     ∧ history (Cancel env a r w).1.2 = history r
     ∧ groupHistory (Cancel env a r w).1.2 = groupHistory r
     ∧ outbox (Cancel env a r w).2 = outbox w
     ∧ ∀ ops, Forall (λ op, ¬ registers a op) ops →
         forgotten a (history r)
           (run env ops ((Cancel env a r w).1.2, (Cancel env a r w).2)).1).
Proof.
  intros K. split.
  - intros Ha. unfold Cancel. by rewrite Ha.
  - intros [cb Ha].
    pose proof (Cancel_evolves env (λ _, False) a r w) as E.
    unfold Cancel in *. rewrite Ha in *. simpl in *.
    split; [done|]. split; [done|]. split; [apply lookup_delete_eq|].
    split; [done|]. split; [done|]. split; [done|].
    split; [apply persist_outbox|].
    intros ops Hops. apply forgotten_run; [done| |].
    + simpl. by eapply evolves_keyed.
    + simpl. split; [apply lookup_delete_eq|]. intros c Hc _. exact Hc.
Qed.

End Cancellation.

Lemma Cancel_forgets_witness :
  Cancel calmEnv "B" bothRegistry emptyWorld = (false, bothRegistry, emptyWorld)
  ∧ forgotten "A" []
      (run calmEnv
         [DoOnAgentComplete (CompletionInfo.mk "A" "alpha" "done" "proj" "");
          DoRegister "B" "beta" "task" "proj" "email" "" "ann@example.com" "Ann";
          DoOnAgentComplete (CompletionInfo.mk "B" "beta" "done" "proj" "")]
         ((Cancel calmEnv "A" bothRegistry emptyWorld).1.2,
          (Cancel calmEnv "A" bothRegistry emptyWorld).2)).1.
Proof.
  assert (keyed bothRegistry) as K.
  { split.
    - intros k cb H. unfold bothRegistry in H. simpl in H.
      apply lookup_singleton_Some in H as [<- <-]. reflexivity.
    - intros k g H. simpl in H. by rewrite lookup_empty in H. }
  split.
  - apply (Cancel_forgets calmEnv "B" bothRegistry emptyWorld K). reflexivity.
  - destruct (Cancel_forgets calmEnv "A" bothRegistry emptyWorld K) as [_ H].
    destruct H as (_ & _ & _ & _ & _ & _ & _ & H); [by eexists|].
    apply H. repeat constructor; simpl; [tauto|discriminate|tauto].
Defined.

(** ** What a completion sends *)

Section Sending.
Variable env : Env.

(** What a successful [Register] returns and leaves behind. *)
Lemma Register_ok (a agentName taskSummary projectName method phone emailAddr
    customerName : string) (r : Registry) (w : World) :
  checkCall r method phone = None → checkEmail r method emailAddr = None →
  ∃ id t,
    let cb := Callback.mk id a agentName taskSummary projectName method phone
                emailAddr customerName (personaName r) t zeroTime "pending" "" "" in
    let r1 := set_callbacks (<[a := cb]> (callbacks r)) r in
    ∃ w1, Register env a agentName taskSummary projectName method phone emailAddr
            customerName r w = (Ok cb, r1, w1)
          ∧ outbox w1 = outbox w.
Proof.
  intros Hc He. unfold Register. rewrite Hc, He. simpl.
  eexists _, _, _. split; [reflexivity|]. by rewrite persist_outbox.
Qed.

Lemma executeCall_outbox (r : Registry) (cb : Callback.t) (info : CompletionInfo.t)
    (w : World) :
  outbox (executeCall env r cb info w).2 = outbox w
  ∨ ∃ c req, outbox (executeCall env r cb info w).2 = outbox w ++ [PlacedCall c req]
             ∧ vapiClient r = Some c ∧ vapi.IsConfigured c = true.
Proof.
  unfold executeCall, Call, createCall.
  destruct (vapiClient r) as [c|]; [|by left].
  destruct (vapi.IsConfigured c) eqn:Hc; simpl; [|by left].
  right. eauto.
Qed.

Lemma send_outbox (c : email.Client) (to subject body fromOverride : string)
    (w : World) :
  ∃ m, outbox (send env c to subject body fromOverride w).2 = outbox w ++ [SentMail c m]
       ∧ mTo m = to ∧ mSubject m = subject ∧ mBody m = body
       ∧ (fromOverride = "" → mFrom m = email.from c)
       ∧ (send env c to subject body fromOverride w).1
         = smtp_SendMail env (S (tick w)) c m.
Proof.
  unfold send, now. simpl. eexists. split; [reflexivity|]. simpl.
  repeat split. intros ->. reflexivity.
Qed.

Lemma executeEmail_outbox (r : Registry) (cb : Callback.t) (info : CompletionInfo.t)
    (w : World) :
  outbox (executeEmail env r cb info w).2 = outbox w
  ∨ ∃ e m, outbox (executeEmail env r cb info w).2 = outbox w ++ [SentMail e m]
           ∧ emailClient r = Some e ∧ email.IsConfigured e = true.
Proof.
  unfold executeEmail, SendTaskComplete.
  destruct (emailClient r) as [e|]; [|by left].
  destruct (email.IsConfigured e) eqn:He; cbn [negb]; [|by left].
  right. exists e.
  match goal with
  | |- context [send env e ?to ?su ?bo ?fo w] =>
      destruct (send_outbox e to su bo fo w) as (m & Hm & _)
  end.
  eauto.
Qed.

Lemma executeBatchEmail_outbox (r : Registry) (g : CallbackGroup.t) (w : World) :
  outbox (executeBatchEmail env r g w).2 = outbox w
  ∨ ∃ e m, outbox (executeBatchEmail env r g w).2 = outbox w ++ [SentMail e m]
           ∧ emailClient r = Some e ∧ email.IsConfigured e = true.
Proof.
  unfold executeBatchEmail, SendBatchComplete.
  destruct (emailClient r) as [e|]; [|by left].
  destruct (email.IsConfigured e) eqn:He; cbn [negb]; [|by left].
  right. exists e.
  match goal with
  | |- context [send env e ?to ?su ?bo ?fo w] =>
      destruct (send_outbox e to su bo fo w) as (m & Hm & _)
  end.
  eauto.
Qed.

Lemma dispatch_sendable (r : Registry) (cb : Callback.t) (info : CompletionInfo.t)
    (w : World) :
  ∃ effs, outbox (dispatch env r cb info w).2 = outbox w ++ effs ∧ sendable r effs.
Proof.
  unfold dispatch. repeat case_decide.
  - destruct (executeCall_outbox r cb info w) as [Ho|(c & req & Ho & ? & ?)].
    + exists []. rewrite app_nil_r. split; [done|by left].
    + eexists. split; [exact Ho|]. right. left. eauto.
  - destruct (executeEmail_outbox r cb info w) as [Ho|(e & m & Ho & ? & ?)].
    + exists []. rewrite app_nil_r. split; [done|by left].
    + eexists. split; [exact Ho|]. right. right. left. eauto.
  - pose proof (executeCall_outbox r cb info w) as Hc.
    destruct (executeCall env r cb info w) as [e1 w1]. simpl in Hc.
    pose proof (executeEmail_outbox r cb info w1) as He.
    destruct (executeEmail env r cb info w1) as [e2 w2]. simpl in *.
    destruct Hc as [Hc|(c & req & Hc & ? & ?)];
      destruct He as [He|(e & m & He & ? & ?)]; rewrite He, Hc.
    + exists []. rewrite app_nil_r. split; [done|by left].
    + eexists. split; [reflexivity|]. right. right. left. eauto.
    + eexists. split; [reflexivity|]. right. left. eauto.
    + eexists. split; [by rewrite <- app_assoc|]. right. right. right.
      eexists _, _, _, _. eauto.
  - exists []. rewrite app_nil_r. split; [done|by left].
Qed.

Lemma dispatchBatch_sendable (r : Registry) (g : CallbackGroup.t) (w : World) :
  outbox (dispatchBatch env r g w).2 = outbox w
  ∨ ∃ e m, outbox (dispatchBatch env r g w).2 = outbox w ++ [SentMail e m]
           ∧ emailClient r = Some e ∧ email.IsConfigured e = true.
Proof.
  unfold dispatchBatch, executeBatchCall. repeat case_decide.
  - by left.
  - apply executeBatchEmail_outbox.
  - pose proof (executeBatchEmail_outbox r g w) as He.
    destruct (executeBatchEmail env r g w) as [e2 w2]. exact He.
  - by left.
Qed.

(** X4. One completion event sends at most one call and one mail, the
    call first, and only through a client that is configured.  For an
    agent without a pending callback it sends nothing; for a member of a
    group it never places a call. *)
Theorem OnAgentComplete_sends_at_most_once (info : CompletionInfo.t)
    (r : Registry) (w : World) :
  ∃ effs,
    outbox (OnAgentComplete env info r w).2 = outbox w ++ effs
    ∧ sendable r effs
    ∧ (callbacks r !! CompletionInfo.AgentID info = None → effs = [])
    ∧ (∀ cb, callbacks r !! CompletionInfo.AgentID info = Some cb →
         Callback.GroupID cb ≠ "" → ∀ c req, PlacedCall c req ∉ effs).
Proof.
  unfold OnAgentComplete.
  destruct (callbacks r !! CompletionInfo.AgentID info) as [cb|] eqn:Hcb.
  2:{ exists []. rewrite app_nil_r. split; [done|]. split; [by left|].
      split; [done|]. intros cb H. discriminate H. }
  destruct (decide (Callback.GroupID cb ≠ "")) as [Hne|Hne].
  - assert (∀ effs : list Effect,
              (effs = [] ∨ ∃ e m, effs = [SentMail e m]) →
              ∀ c req, PlacedCall c req ∉ effs) as Hnocall.
    { intros effs [->|(e & m & ->)] c req Hin.
      - by apply elem_of_nil in Hin.
      - apply list_elem_of_singleton in Hin. discriminate Hin. }
    destruct (groups r !! Callback.GroupID cb) as [grp|].
    2:{ exists []. rewrite app_nil_r. split; [done|]. split; [by left|].
        split; [done|]. intros _ _ _. apply Hnocall. by left. }
    simpl. case_decide as Hbar.
    + rewrite executeGroupCallback_unfold. simpl. rewrite persist_outbox.
      match goal with
      | |- context [dispatchBatch env ?r1 ?g1 (step w)] =>
          destruct (dispatchBatch_sendable r1 g1 (step w)) as [H'|(e & m & H' & ? & ?)]
      end; simpl in *; rewrite H'.
      * exists []. rewrite app_nil_r. split; [done|]. split; [by left|].
        split; [done|]. intros _ _ _. apply Hnocall. by left.
      * eexists. split; [reflexivity|]. split; [right; right; left; eauto|].
        split; [done|]. intros _ _ _. apply Hnocall. right. eauto.
    + simpl. rewrite persist_outbox. exists []. rewrite app_nil_r.
      split; [done|]. split; [by left|]. split; [done|].
      intros _ _ _. apply Hnocall. by left.
  - rewrite executeCallback_unfold. simpl. rewrite persist_outbox.
    match goal with
    | |- context [dispatch env r ?cb0 info (step w)] =>
        destruct (dispatch_sendable r cb0 info (step w)) as (effs & H' & Hs)
    end.
    simpl in H'. exists effs. split; [exact H'|]. split; [exact Hs|].
    split; [done|]. intros cb' Hcb' Hg. injection Hcb' as <-. done.
Qed.

(** X5. The method of a callback is not checked against the three
    known ones.  [Register] accepts any other method without asking for a
    phone number, an email address or a client, and when the agent
    completes the callback is retired as completed although nothing was
    sent. *)
Theorem unknown_method_completes_silently
    (a agentName taskSummary projectName method phone emailAddr customerName : string)
    (r : Registry) (w : World) :
  method ≠ "call" → method ≠ "email" → method ≠ "both" →
  ∃ cb r1 w1,
    Register env a agentName taskSummary projectName method phone emailAddr
      customerName r w = (Ok cb, r1, w1)
    ∧ ∀ info, CompletionInfo.AgentID info = a →
        outbox (OnAgentComplete env info r1 w1).2 = outbox w
        ∧ ∃ cb', last (history (OnAgentComplete env info r1 w1).1) = Some cb'
                 ∧ Callback.ID cb' = Callback.ID cb
                 ∧ Callback.Status cb' = "completed"
                 ∧ Callback.Error cb' = "".
Proof.
  intros Hc He Hb.
  destruct (Register_ok a agentName taskSummary projectName method phone emailAddr
              customerName r w) as (id & t & w1 & Hout & Hob).
  { apply checkCall_None. tauto. }
  { apply checkEmail_None. tauto. }
  eexists _, _, w1. split; [exact Hout|].
  intros info Hi.
  rewrite (OnAgentComplete_single env info
             (Callback.mk id a agentName taskSummary projectName method phone
                emailAddr customerName (personaName r) t zeroTime "pending" "" ""))
    by (simpl; by rewrite ?Hi, ?lookup_insert_eq).
  simpl.
  rewrite persist_outbox, executeCallback_unfold. simpl.
  assert (∀ r' cb0 w0, Callback.Method cb0 = method →
            dispatch env r' cb0 info w0 = (None, w0)) as Hd.
  { intros r' cb0 w0 Hm0. unfold dispatch. rewrite Hm0.
    rewrite !decide_False by done. reflexivity. }
  rewrite Hd by done. simpl.
  split; [exact Hob|].
  eexists. split; [apply last_push; lia|]. simpl. done.
Qed.

End Sending.

Lemma unknown_method_completes_silently_witness :
  ∃ cb r1 w1,
    Register calmEnv "A" "alpha" "task" "proj" "sms" "" "" "Ann"
      (emptyRegistry None None) emptyWorld = (Ok cb, r1, w1)
    ∧ outbox (OnAgentComplete calmEnv (CompletionInfo.mk "A" "alpha" "done" "proj" "")
                r1 w1).2 = [].
Proof.
  destruct (unknown_method_completes_silently calmEnv "A" "alpha" "task" "proj" "sms"
              "" "" "Ann" (emptyRegistry None None) emptyWorld)
    as (cb & r1 & w1 & Hout & H); [discriminate..|].
  exists cb, r1, w1. split; [exact Hout|].
  destruct (H (CompletionInfo.mk "A" "alpha" "done" "proj" "") eq_refl) as [Hob _].
  exact Hob.
Defined.

(** ** Truncation of texts *)

Section Texts.

Lemma length_append (s1 s2 : string) :
  String.length (s1 +:+ s2) = String.length s1 + String.length s2.
Proof. induction s1 as [|c s1 IH]; simpl; [done|]. by rewrite IH. Qed.

Lemma length_substring_0 (n : nat) (s : string) :
  String.length (String.substring 0 n s) = min n (String.length s).
Proof.
  revert s. induction n as [|n IH]; intros [|c s]; simpl; try done.
  by rewrite IH.
Qed.

Lemma prefix_substring_0 (n : nat) (s : string) :
  String.prefix (String.substring 0 n s) s = true.
Proof.
  revert s. induction n as [|n IH]; intros [|c s]; simpl; try done.
  destruct (Ascii.ascii_dec c c); [apply IH|done].
Qed.


Lemma length_buildSubject (ctx : email.CallbackContext) :
  String.length (email.buildSubject ctx) ≤ 50.
Proof.
  unfold email.buildSubject. cbv zeta. case_decide as Hgt; [|lia].
  rewrite length_append, length_substring_0.
  change (String.length "...") with 3. lia.
Qed.

(** X6. [summarize] (package vapi) and [truncate] (package email) cut a
    text to a byte budget of at least 3: a text within the budget is
    returned unchanged; a longer one becomes its first [maxLen - 3] bytes
    followed by three dots, exactly [maxLen] bytes long.  Either way the
    result is within the budget. *)
Theorem summarize_within_budget (s : string) (maxLen : nat) :
  3 ≤ maxLen →
  email.truncate s maxLen = vapi.summarize s maxLen
  ∧ String.length (vapi.summarize s maxLen) ≤ maxLen
  ∧ (String.length s ≤ maxLen → vapi.summarize s maxLen = s)
  ∧ (maxLen < String.length s →
     String.length (vapi.summarize s maxLen) = maxLen
     ∧ ∃ pre, vapi.summarize s maxLen = pre +:+ "..."
              ∧ String.length pre = maxLen - 3
              ∧ String.prefix pre s = true).
Proof.
  intros Hm. split; [reflexivity|]. unfold vapi.summarize.
  destruct (decide (String.length s ≤ maxLen)) as [Hle|Hgt].
  - split; [done|]. split; [done|]. lia.
  - assert (String.length (String.substring 0 (maxLen - 3) s) = maxLen - 3) as Hl
      by (rewrite length_substring_0; lia).
    assert (String.length (String.substring 0 (maxLen - 3) s +:+ "...") = maxLen)
      as Hl' by (rewrite length_append, Hl; change (String.length "...") with 3; lia).
    split; [lia|].
    split; [lia|]. intros _.
    split; [exact Hl'|].
    eexists. split; [reflexivity|]. split; [exact Hl|apply prefix_substring_0].
Qed.

(** X7. The subject of a completion mail is never longer than 50 bytes:
    "<agent> completed: <task>" or "<agent> failed: <task>" when that
    fits, otherwise its first 47 bytes and three dots. *)
Theorem buildSubject_at_most_50 (ctx : email.CallbackContext) :
  String.length (email.buildSubject ctx) ≤ 50
  ∧ (let full := email.AgentName ctx
                 +:+ (if email.Success ctx then " completed: " else " failed: ")
                 +:+ email.TaskSummary ctx in
     (String.length full ≤ 50 → email.buildSubject ctx = full)
     ∧ (50 < String.length full →
        email.buildSubject ctx = String.substring 0 47 full +:+ "..."
        ∧ String.length (email.buildSubject ctx) = 50)).
Proof.
  unfold email.buildSubject.
  assert ((if email.Success ctx
           then email.AgentName ctx +:+ " completed: " +:+ email.TaskSummary ctx
           else email.AgentName ctx +:+ " failed: " +:+ email.TaskSummary ctx)
          = email.AgentName ctx
            +:+ (if email.Success ctx then " completed: " else " failed: ")
            +:+ email.TaskSummary ctx) as -> by (by destruct (email.Success ctx)).
  set (full := email.AgentName ctx +:+ _).
  cbv zeta.
  destruct (decide (50 < String.length full)) as [Hgt|Hle].
  - assert (String.length (String.substring 0 47 full +:+ "...") = 50) as Hl
      by (rewrite length_append, length_substring_0;
          change (String.length "...") with 3; lia).
    split; [lia|]. split; [lia|done].
  - split; [lia|]. split; [done|lia].
Qed.

End Texts.

Lemma summarize_within_budget_witness :
  vapi.summarize "a finished report, rather long" 10 = "a finis..."
  ∧ String.length (vapi.summarize "a finished report, rather long" 10) ≤ 10.
Proof.
  split; [reflexivity|].
  apply (summarize_within_budget "a finished report, rather long" 10). lia.
Defined.

(** ** Delivery of a single callback *)

Section Delivery.
Variable env : Env.

(** What the completion of an agent with a single callback leaves: the
    effects of the dispatch, and the callback at the end of the history
    with the outcome of the dispatch. *)
Lemma OnAgentComplete_single_outcome (info : CompletionInfo.t) (cb : Callback.t)
    (r : Registry) (w : World) :
  callbacks r !! CompletionInfo.AgentID info = Some cb →
  Callback.GroupID cb = "" →
  let cb0 := Callback.with_CompletedAt (time_Now env (tick w)) cb in
  let out := dispatch env r cb0 info (step w) in
  outbox (OnAgentComplete env info r w).2 = outbox out.2
  ∧ last (history (OnAgentComplete env info r w).1)
    = Some (match out.1 with
            | Some e => Callback.with_Error e (Callback.with_Status "failed" cb0)
            | None => Callback.with_Status "completed" cb0
            end).
Proof.
  intros Hcb Hg cb0 out.
  rewrite (OnAgentComplete_single env info cb) by done.
  simpl. rewrite persist_outbox, executeCallback_unfold. simpl.
  split; [done|]. apply last_push. lia.
Qed.

(** X8. A callback of method "email" registered with an address while
    the mail client is configured: when the agent completes, exactly one
    mail goes out through that client, to the registered address, from
    the client's sender, with a subject of at most 50 bytes.  The callback
    is retired as completed when the SMTP server accepts this message and
    as failed, with the server's error, when it does not. *)
Theorem email_callback_delivers
    (a agentName taskSummary projectName phone emailAddr customerName : string)
    (ec : email.Client) (r : Registry) (w : World) :
  emailAddr ≠ "" → emailClient r = Some ec → email.IsConfigured ec = true →
  ∃ cb r1 w1,
    Register env a agentName taskSummary projectName "email" phone emailAddr
      customerName r w = (Ok cb, r1, w1)
    ∧ ∀ info, CompletionInfo.AgentID info = a →
        ∃ m cb',
          outbox (OnAgentComplete env info r1 w1).2 = outbox w ++ [SentMail ec m]
          ∧ mTo m = emailAddr ∧ mFrom m = email.from ec
          ∧ String.length (mSubject m) ≤ 50
          ∧ last (history (OnAgentComplete env info r1 w1).1) = Some cb'
          ∧ Callback.ID cb' = Callback.ID cb
          ∧ match smtp_SendMail env (S (S (tick w1))) ec m with
            | None => Callback.Status cb' = "completed" ∧ Callback.Error cb' = ""
            | Some e => Callback.Status cb' = "failed" ∧ Callback.Error cb' = e
            end.
Proof.
  intros Hne Hec Hconf.
  destruct (Register_ok env a agentName taskSummary projectName "email" phone emailAddr
              customerName r w) as (id & t & w1 & Hout & Hob).
  { reflexivity. }
  { unfold checkEmail, CanEmail. rewrite Hec, Hconf. simpl.
    by rewrite decide_False by done. }
  eexists _, _, w1. split; [exact Hout|].
  intros info Hi.
  match type of Hout with _ = (Ok ?cb, ?r1, _) =>
    destruct (OnAgentComplete_single_outcome info cb r1 w1) as [Ho Hl];
      [cbn [callbacks set_callbacks]; by rewrite Hi, lookup_insert_eq|reflexivity|]
  end.
  rewrite Ho, Hl. clear Ho Hl.
  unfold dispatch. cbn [Callback.Method Callback.with_CompletedAt].
  rewrite decide_False by discriminate. rewrite decide_True by reflexivity.
  unfold executeEmail. cbn [emailClient set_callbacks]. rewrite Hec, Hconf.
  cbn [negb]. unfold SendTaskComplete. rewrite Hconf. cbn [negb].
  match goal with
  | |- context [send env ec ?to ?su ?bo ?fo ?w0] =>
      destruct (send_outbox env ec to su bo fo w0) as (m & Hm & Hto & Hsu & _ & Hfrom & Hans);
      destruct (send env ec to su bo fo w0) as [ans w2] eqn:Hsend
  end.
  cbn [fst snd] in Hm, Hans. cbn [fst snd].
  cbn [tick step] in Hans.
  exists m,
    (match ans with
     | Some e => Callback.with_Error e (Callback.with_Status "failed"
                   (Callback.with_CompletedAt (time_Now env (tick w1))
                      (Callback.mk id a agentName taskSummary projectName "email" phone
                         emailAddr customerName (personaName r) t zeroTime "pending" "" "")))
     | None => Callback.with_Status "completed"
                   (Callback.with_CompletedAt (time_Now env (tick w1))
                      (Callback.mk id a agentName taskSummary projectName "email" phone
                         emailAddr customerName (personaName r) t zeroTime "pending" "" ""))
     end).
  split; [by rewrite Hm, <- Hob|].
  split; [exact Hto|]. split; [by apply Hfrom|].
  split; [rewrite Hsu; apply length_buildSubject|].
  split; [reflexivity|].
  rewrite <- Hans. by destruct ans.
Qed.


End Delivery.

Lemma email_callback_delivers_witness :
  ∃ cb r1 w1,
    Register calmEnv "A" "alpha" "task" "proj" "email" "" "ann@example.com" "Ann"
      (emptyRegistry None (Some demoEmail)) emptyWorld = (Ok cb, r1, w1)
    ∧ ∃ m, outbox (OnAgentComplete calmEnv (CompletionInfo.mk "A" "alpha" "done" "proj" "")
                     r1 w1).2 = [SentMail demoEmail m]
           ∧ mTo m = "ann@example.com".
Proof.
  destruct (email_callback_delivers calmEnv "A" "alpha" "task" "proj" ""
              "ann@example.com" "Ann" demoEmail (emptyRegistry None (Some demoEmail))
              emptyWorld)
    as (cb & r1 & w1 & Hout & H); [discriminate|reflexivity|reflexivity|].
  exists cb, r1, w1. split; [exact Hout|].
  destruct (H (CompletionInfo.mk "A" "alpha" "done" "proj" "") eq_refl)
    as (m & cb' & Hob & Hto & _).
  exists m. split; [exact Hob|exact Hto].
Defined.


(** ** Durability *)

Section Durability.
Variable env : Env.







End Durability.


(** ** Registration of a batch *)

Section Batches.
Variable env : Env.

(** The callback that the loop of [RegisterBatch] leaves for an agent is
    made from the last entry of the list with that id. *)
Lemma foldl_registerMember_last (method phone emailAddr customerName persona
    groupID : string) (agents : list AgentInfo.t) (cbs : gmap string Callback.t)
    (w : World) (a : string) (ag : AgentInfo.t) :
  last (filter (λ x, AgentInfo.ID x = a) agents) = Some ag →
  ∃ id t,
    (foldl (registerMember env method phone emailAddr customerName persona groupID)
       (cbs, w) agents).1 !! a
    = Some (Callback.mk id a (AgentInfo.Name ag) (AgentInfo.TaskSummary ag)
              (AgentInfo.ProjectName ag) method phone emailAddr customerName persona
              t zeroTime "pending" "" groupID).
Proof.
  induction agents as [|x agents IH] using rev_ind; [discriminate|].
  rewrite filter_app, foldl_app. cbn [foldl].
  unfold registerMember at 1, now. cbn [fst snd].
  rewrite filter_cons, filter_nil.
  destruct (decide (AgentInfo.ID x = a)) as [Hx|Hx].
  - rewrite last_snoc. intros [= <-]. rewrite Hx, lookup_insert_eq. eauto.
  - rewrite app_nil_r, lookup_insert_ne by done. exact IH.
Qed.

(** X11. [RegisterBatch] either rejects the request and changes nothing,
    or stores one group and one callback per agent.  It rejects, with the
    texts of [Register], a method with a call and no phone number, and
    otherwise a method with a mail and no address.  Everything else is
    accepted, whatever the clients and whatever the list of agents: the
    group is pending with no results, lists the agent ids in the order
    given and is stored under an id made from the clock; every agent of
    the list gets a pending callback of that group, made from the last
    entry of the list with its id; the other pending callbacks and both
    histories are what they were, and nothing is sent. *)
Theorem RegisterBatch_rejects_or_stores (agents : list AgentInfo.t)
    (method phone emailAddr customerName : string) (r : Registry) (w : World) :
  let out := RegisterBatch env agents method phone emailAddr customerName r w in
  let noPhone := (method = "call" ∨ method = "both") ∧ phone = "" in
  let noAddress := (method = "email" ∨ method = "both") ∧ emailAddr = "" in
  (noPhone ∧ out = (Err "phone number required for call callback", r, w))
  ∨ (¬ noPhone ∧ noAddress
     ∧ out = (Err "email address required for email callback", r, w))
  ∨ (¬ noPhone ∧ ¬ noAddress
     ∧ ∃ t r1 w1,
         let gid := "grp-" +:+ pretty (time_Now env (tick w)) in
         let g := CallbackGroup.mk gid (AgentInfo.ID <$> agents) ∅ method phone
                    emailAddr customerName (personaName r) t zeroTime "pending" "" in
         out = (Ok g, r1, w1)
         ∧ groups r1 = <[gid := g]> (groups r)
         ∧ (∀ a ag, last (filter (λ x, AgentInfo.ID x = a) agents) = Some ag →
              ∃ id t',
                callbacks r1 !! a
                = Some (Callback.mk id a (AgentInfo.Name ag) (AgentInfo.TaskSummary ag)
                          (AgentInfo.ProjectName ag) method phone emailAddr
                          customerName (personaName r) t' zeroTime "pending" "" gid))
         ∧ (∀ a, a ∉ AgentInfo.ID <$> agents → callbacks r1 !! a = callbacks r !! a)
         ∧ history r1 = history r
         ∧ groupHistory r1 = groupHistory r
         ∧ outbox w1 = outbox w).
Proof.
  intros out noPhone noAddress. subst out.
  destruct (decide ((method = "call" ∨ method = "both") ∧ phone = "")) as [Hp|Hp].
  { left. split; [exact Hp|]. by destruct Hp as [[-> | ->] ->]. }
  right.
  assert (checkBatchCall method phone = None) as Hc.
  { apply checkBatchCall_None. intros Hm ->. by apply Hp. }
  destruct (decide ((method = "email" ∨ method = "both") ∧ emailAddr = "")) as [He|He].
  { left. split; [exact Hp|]. split; [exact He|].
    unfold RegisterBatch. rewrite Hc. by destruct He as [[-> | ->] ->]. }
  right. split; [exact Hp|]. split; [exact He|].
  assert (checkBatchEmail method emailAddr = None) as Hce.
  { apply checkBatchEmail_None. intros Hm ->. by apply He. }
  unfold RegisterBatch. rewrite Hc, Hce. unfold now. cbn [fst snd].
  pose proof (foldl_registerMember env method phone emailAddr customerName
                (personaName r) ("grp-" +:+ pretty (time_Now env (tick w))) agents
                (callbacks r) (step w)) as (_ & Hout & Hob & _).
  pose proof (λ a ag, foldl_registerMember_last method phone emailAddr customerName
                (personaName r) ("grp-" +:+ pretty (time_Now env (tick w))) agents
                (callbacks r) (step w) a ag) as Hlast.
  destruct (foldl _ (callbacks r, step w) agents) as [cbs w'].
  cbn [fst snd] in Hout, Hob, Hlast.
  eexists _, _, _. cbv zeta. split; [reflexivity|].
  cbn [groups callbacks history groupHistory set_groups set_callbacks].
  split; [reflexivity|]. split; [exact Hlast|]. split; [exact Hout|].
  split; [reflexivity|]. split; [reflexivity|].
  by rewrite persist_outbox.
Qed.

End Batches.

(** ** A group that lost a member *)

Section Stranding.
Variable env : Env.

Lemma size_without_member (ids : list string) (a : string) (D : gset string) :
  a ∈ ids → D ⊆ list_to_set ids ∖ {[a]} → size D < length ids.
Proof.
  intros Ha HD.
  pose proof (subseteq_size _ _ HD) as H1.
  pose proof (size_list_to_set_le ids) as H2.
  assert (size (list_to_set ids ∖ {[a]} : gset string)
          < size (list_to_set ids : gset string)) as H3.
  { apply subset_size. split.
    - intros x Hx. by apply elem_of_difference in Hx as [Hx _].
    - intros Hsub. assert (a ∈ (list_to_set ids ∖ {[a]} : gset string)) as Hin
        by (apply Hsub; by apply elem_of_list_to_set).
      apply elem_of_difference in Hin as [_ Hin]. apply Hin.
      by apply elem_of_singleton. }
  lia.
Qed.

Lemma stranded_step (gid : string) (ids : list string) (a : string) (D : gset string)
    (h : list Callback.t) (gh : list CallbackGroup.t) (ob : list Effect)
    (info : CompletionInfo.t) (st : Registry * World) :
  stranded gid ids a D h gh ob st →
  a ∈ ids → D ⊆ list_to_set ids ∖ {[a]} →
  CompletionInfo.AgentID info ∈ ids →
  stranded gid ids a
    (if decide (CompletionInfo.AgentID info = a) then D
     else {[CompletionInfo.AgentID info]} ∪ D)
    h gh ob (OnAgentComplete env info st.1 st.2).
Proof.
  destruct st as [r w]. cbn [fst snd].
  intros ((g & Hg & Hid & Hids & Hst & Hdom) & Hne & Hgone & Hmem & Hh & Hgh & Hob)
    Ha HD Hi.
  cbn [fst snd] in *.
  destruct (decide (CompletionInfo.AgentID info = a)) as [Hia|Hia].
  { rewrite OnAgentComplete_absent by (by rewrite Hia).
    unfold stranded. cbn [fst snd].
    split; [by exists g|]. done. }
  destruct (Hmem _ Hi Hia) as (cb & Hcb & Hcg & Hcs).
  assert (size (<[CompletionInfo.AgentID info := info]> (CallbackGroup.Results g))
          ≠ length ids) as Hsz.
  { rewrite <- (size_dom (D := gset string)), dom_insert_L, Hdom.
    assert (size ({[CompletionInfo.AgentID info]} ∪ D) < length ids); [|lia].
    apply (size_without_member ids a); [done|].
    intros x Hx. apply elem_of_union in Hx as [Hx|Hx]; [|by apply HD].
    apply elem_of_singleton in Hx as ->.
    apply elem_of_difference. split; [by apply elem_of_list_to_set|].
    intros Hx. by apply elem_of_singleton in Hx. }
  unfold OnAgentComplete. rewrite Hcb.
  rewrite decide_True by (by rewrite Hcg).
  rewrite Hcg, Hg. cbn [CallbackGroup.Results CallbackGroup.with_Results
                        CallbackGroup.AgentIDs].
  rewrite Hids. rewrite decide_False by exact Hsz.
  unfold stranded. cbn [fst snd groups callbacks history groupHistory set_groups].
  split; [|split; [done|split; [done|split; [done|split; [done|split; [done|]]]]]].
  - eexists. rewrite lookup_insert_eq. split; [reflexivity|].
    cbn [CallbackGroup.ID CallbackGroup.AgentIDs CallbackGroup.Status
         CallbackGroup.Results CallbackGroup.with_Results].
    split; [done|]. split; [done|]. split; [done|].
    by rewrite dom_insert_L, Hdom.
  - by rewrite persist_outbox.
Qed.

Lemma completed_without (infos : list CompletionInfo.t) (info : CompletionInfo.t)
    (a : string) :
  completed (infos ++ [info]) ∖ {[a]}
  = if decide (CompletionInfo.AgentID info = a) then completed infos ∖ {[a]}
    else {[CompletionInfo.AgentID info]} ∪ completed infos ∖ {[a]}.
Proof.
  rewrite completed_snoc. apply set_eq. intros x.
  case_decide as Hia;
    rewrite ?elem_of_difference, ?elem_of_union, ?elem_of_difference,
      ?elem_of_singleton.
  - subst a. intuition congruence.
  - intuition congruence.
Qed.

Lemma stranded_completions (gid : string) (ids : list string) (a : string)
    (h : list Callback.t) (gh : list CallbackGroup.t) (ob : list Effect)
    (st : Registry * World) (infos : list CompletionInfo.t) :
  stranded gid ids a ∅ h gh ob st → a ∈ ids →
  (∀ i, i ∈ infos → CompletionInfo.AgentID i ∈ ids) →
  stranded gid ids a (completed infos ∖ {[a]}) h gh ob (completions env infos st).
Proof.
  intros S0 Ha. induction infos as [|info infos IH] using rev_ind; intros Hmem.
  - assert (completed [] ∖ {[a]} = (∅ : gset string)) as ->; [|exact S0].
    apply set_eq. intros x. rewrite elem_of_difference. unfold completed. simpl.
    split; [intros [Hx _]; exact Hx|intros Hx; by apply elem_of_empty in Hx].
  - rewrite completions_snoc, completed_without.
    apply stranded_step; [|done| |].
    + apply IH. intros i Hi. apply Hmem, elem_of_app. by left.
    + intros x Hx. apply elem_of_difference in Hx as [Hx Hxa].
      apply elem_of_difference. split; [|done].
      eapply completed_members; [|exact Hx].
      intros i Hi. apply Hmem, elem_of_app. by left.
    + apply Hmem, elem_of_app. right. by apply list_elem_of_singleton.
Qed.

(** X12. Cancelling the pending callback of one member of a registered
    group strands the group.  [Cancel] succeeds and removes only that
    callback; the group keeps the member in its list.  From then on,
    whatever completion events of the members arrive, in any order and with
    any repetitions, the barrier is never reached: the completions of the
    cancelled member are ignored, those of the others are recorded, and the
    group stays pending in the groups map, the other members keep their
    pending callbacks, and nothing is dispatched or retired. *)
Theorem cancelled_member_strands_group (agents : list AgentInfo.t)
    (method phone emailAddr customerName a : string) (r : Registry) (w : World) :
  (method = "call" ∨ method = "both" → phone ≠ "") →
  (method = "email" ∨ method = "both" → emailAddr ≠ "") →
  a ∈ AgentInfo.ID <$> agents →
  ∃ g r1 w1 r2 w2,
    RegisterBatch env agents method phone emailAddr customerName r w = (Ok g, r1, w1)
    ∧ Cancel env a r1 w1 = (true, r2, w2)
    ∧ CallbackGroup.AgentIDs g = AgentInfo.ID <$> agents
    ∧ ∀ infos : list CompletionInfo.t,
        (∀ i, i ∈ infos → CompletionInfo.AgentID i ∈ CallbackGroup.AgentIDs g) →
        stranded (CallbackGroup.ID g) (CallbackGroup.AgentIDs g) a
          (completed infos ∖ {[a]}) (history r) (groupHistory r) (outbox w)
          (completions env infos (r2, w2)).
Proof.
  intros Hp He Ha.
  destruct (RegisterBatch_spec env agents method phone emailAddr customerName r w
              Hp He)
    as (g & r1 & w1 & Hout & Hid & Hids & Hres & _ & Hst & Hgs & Hcbs & _ & Hh & Hgh
        & Hob & _).
  destruct (Hcbs a Ha) as (cba & Hcba & _).
  exists g, r1, w1. eexists _, _. split; [exact Hout|].
  split; [unfold Cancel; rewrite Hcba; reflexivity|]. split; [exact Hids|].
  intros infos Hmem.
  apply stranded_completions; [|by rewrite Hids|exact Hmem].
  unfold stranded.
  cbn [fst snd groups callbacks history groupHistory set_callbacks].
  split; [|split; [|split; [|split; [|split; [done|split; [done|]]]]]].
  - exists g. rewrite Hgs, Hid, lookup_insert_eq.
    split; [done|]. split; [done|]. split; [done|]. split; [done|].
    rewrite Hres. apply dom_empty_L.
  - rewrite Hid. discriminate.
  - apply lookup_delete_eq.
  - intros b Hb Hba. rewrite Hids in Hb.
    destruct (Hcbs b Hb) as (cb & Hcb & _ & Hcg & Hcs).
    exists cb. rewrite lookup_delete_ne by done. rewrite Hid. done.
  - by rewrite persist_outbox.
Qed.

End Stranding.

Lemma cancelled_member_strands_group_witness :
  ∃ g r1 w1 r2 w2,
    RegisterBatch calmEnv
      [AgentInfo.mk "A" "alpha" "task a" "proj"; AgentInfo.mk "B" "beta" "task b" "proj"]
      "email" "" "ann@example.com" "Ann" (emptyRegistry None (Some demoEmail))
      emptyWorld = (Ok g, r1, w1)
    ∧ Cancel calmEnv "A" r1 w1 = (true, r2, w2)
    ∧ is_Some (groups (completions calmEnv
                         [CompletionInfo.mk "B" "beta" "done" "proj" "";
                          CompletionInfo.mk "A" "alpha" "done" "proj" ""]
                         (r2, w2)).1 !! CallbackGroup.ID g).
Proof.
  destruct (cancelled_member_strands_group calmEnv
              [AgentInfo.mk "A" "alpha" "task a" "proj";
               AgentInfo.mk "B" "beta" "task b" "proj"]
              "email" "" "ann@example.com" "Ann" "A"
              (emptyRegistry None (Some demoEmail)) emptyWorld)
    as (g & r1 & w1 & r2 & w2 & Hout & Hc & Hids & H).
  - intros [H|H]; discriminate H.
  - intros _. discriminate.
  - apply elem_of_cons. by left.
  - exists g, r1, w1, r2, w2. split; [exact Hout|]. split; [exact Hc|].
    destruct (H [CompletionInfo.mk "B" "beta" "done" "proj" "";
                 CompletionInfo.mk "A" "alpha" "done" "proj" ""])
      as ((g' & Hg' & _) & _).
    + rewrite Hids. intros i Hi.
      apply elem_of_cons in Hi as [->|Hi]; [apply elem_of_cons; right; apply elem_of_cons; by left|].
      apply elem_of_cons in Hi as [->|Hi]; [apply elem_of_cons; by left|].
      by apply elem_of_nil in Hi.
    + by exists g'.
Defined.

(** ** The mail of a group *)

Section GroupMail.
Variable env : Env.

Lemma recorded_snoc (infos : list CompletionInfo.t) (info : CompletionInfo.t) :
  recorded (infos ++ [info]) = <[CompletionInfo.AgentID info := info]> (recorded infos).
Proof. unfold recorded. by rewrite foldl_snoc. Qed.

Lemma recorded_last (infos : list CompletionInfo.t) (a : string) :
  recorded infos !! a = last (filter (λ i, CompletionInfo.AgentID i = a) infos).
Proof.
  induction infos as [|info infos IH] using rev_ind; [done|].
  rewrite recorded_snoc, filter_app, filter_cons, filter_nil.
  destruct (decide (CompletionInfo.AgentID info = a)) as [Hi|Hi].
  - by rewrite last_snoc, Hi, lookup_insert_eq.
  - by rewrite app_nil_r, lookup_insert_ne.
Qed.

Lemma dom_recorded (infos : list CompletionInfo.t) :
  dom (recorded infos) = completed infos.
Proof.
  induction infos as [|info infos IH] using rev_ind.
  - unfold recorded, completed. simpl. apply dom_empty_L.
  - by rewrite recorded_snoc, completed_snoc, dom_insert_L, IH.
Qed.

(** One completion of a member of a waiting group, spelled out. *)
Lemma waiting_records (gid : string) (ids : list string) (D : gset string)
    (h : list Callback.t) (gh : list CallbackGroup.t) (ob : list Effect)
    (info : CompletionInfo.t) (g : CallbackGroup.t) (st : Registry * World) :
  waiting gid ids D h gh ob st →
  groups st.1 !! gid = Some g →
  CompletionInfo.AgentID info ∈ ids →
  let g1 := CallbackGroup.with_Results
              (<[CompletionInfo.AgentID info := info]> (CallbackGroup.Results g)) g in
  let r1 := set_groups (<[gid := g1]> (groups st.1)) st.1 in
  OnAgentComplete env info st.1 st.2
  = if decide (size (CallbackGroup.Results g1) = length ids)
    then ((executeGroupCallback env gid g1 r1 st.2).1,
          persist env (executeGroupCallback env gid g1 r1 st.2).1
            (executeGroupCallback env gid g1 r1 st.2).2)
    else (r1, persist env r1 st.2).
Proof.
  destruct st as [r w].
  intros ((g' & Hg' & Hid & Hids & Hst & Hdom) & Hne & Hmem & _) Hg Ha g1 r1.
  cbn [fst snd] in *. rewrite Hg in Hg'. injection Hg' as <-.
  destruct (Hmem _ Ha) as (cb & Hcb & Hcg & Hcs).
  unfold OnAgentComplete. rewrite Hcb.
  rewrite decide_True by (by rewrite Hcg).
  rewrite Hcg, Hg. cbv zeta. fold g1. fold r1.
  assert (CallbackGroup.AgentIDs g1 = ids) as -> by exact Hids.
  case_decide as Hbar; [|reflexivity].
  by destruct (executeGroupCallback env gid g1 r1 w).
Qed.

(** While the group waits, its completion map is [recorded], and the
    rest of the group and of the registry is what it was. *)
Lemma completions_record (gid : string) (ids : list string)
    (h : list Callback.t) (gh : list CallbackGroup.t) (ob : list Effect)
    (g : CallbackGroup.t) (st : Registry * World) (infos : list CompletionInfo.t) :
  waiting gid ids ∅ h gh ob st →
  groups st.1 !! gid = Some g → CallbackGroup.Results g = ∅ →
  (∀ i, i ∈ infos → CompletionInfo.AgentID i ∈ ids) →
  size (completed infos) < length ids →
  groups (completions env infos st).1 !! gid
  = Some (CallbackGroup.with_Results (recorded infos) g)
  ∧ emailClient (completions env infos st).1 = emailClient st.1
  ∧ getServerURL (completions env infos st).1 = getServerURL st.1
  ∧ groupHistory (completions env infos st).1 = gh
  ∧ outbox (completions env infos st).2 = ob.
Proof.
  intros W0 Hg Hres.
  induction infos as [|info infos IH] using rev_ind; intros Hmem Hsz.
  - destruct W0 as (_ & _ & _ & _ & Hgh & Hob).
    unfold completions, recorded. simpl. rewrite Hg. split; [|done].
    f_equal. destruct g. simpl in *. by rewrite Hres.
  - assert (∀ i, i ∈ infos → CompletionInfo.AgentID i ∈ ids) as Hmem'
      by (intros i Hi; apply Hmem, elem_of_app; by left).
    assert (CompletionInfo.AgentID info ∈ ids) as Hi
      by (apply Hmem, elem_of_app; right; by apply list_elem_of_singleton).
    assert (size (completed infos) < length ids) as Hsz'.
    { rewrite completed_snoc in Hsz.
      pose proof (subseteq_size (completed infos)
                    ({[CompletionInfo.AgentID info]} ∪ completed infos)
                    (union_subseteq_r _ _)). lia. }
    destruct (IH Hmem' Hsz') as (Hgs & Hec & Hurl & Hgh & Hob).
    pose proof (waiting_completions env _ _ _ _ _ _ infos W0 Hmem' Hsz') as W.
    rewrite completions_snoc.
    rewrite (waiting_records _ _ _ _ _ _ info _ _ W Hgs Hi).
    cbn [CallbackGroup.Results CallbackGroup.with_Results].
    rewrite <- recorded_snoc.
    rewrite decide_False.
    2:{ rewrite <- (size_dom (D := gset string)), dom_recorded. lia. }
    cbn [fst snd groups set_groups emailClient getServerURL groupHistory].
    rewrite lookup_insert_eq, persist_outbox.
    split; [by destruct g|]. done.
Qed.

(** X13. The mail of a group.  A batch registered with method "email" and
    an address, while the mail client is configured: the completion that
    brings the completion map to the number of members sends exactly one
    mail, and none before.  It goes through that client to the registered
    address, from the client's sender, and is the batch mail for the
    customer name of the group with one line per member, made from the
    last completion event of that member, without task summary or project
    name (the order of the lines is that of a Go map range, so it is given
    up to permutation).  The group enters the group history as completed
    when the SMTP server accepts the message and as failed, with the
    server's error, when it does not. *)
Theorem group_mail_at_barrier (agents : list AgentInfo.t)
    (phone emailAddr customerName : string) (ec : email.Client)
    (r : Registry) (w : World) :
  emailAddr ≠ "" → emailClient r = Some ec → email.IsConfigured ec = true →
  ∃ g r1 w1,
    RegisterBatch env agents "email" phone emailAddr customerName r w = (Ok g, r1, w1)
    ∧ CallbackGroup.AgentIDs g = AgentInfo.ID <$> agents
    ∧ ∀ (pre : list CompletionInfo.t) (info : CompletionInfo.t),
        (∀ i, i ∈ pre ++ [info] →
           CompletionInfo.AgentID i ∈ CallbackGroup.AgentIDs g) →
        size (completed pre) < length (CallbackGroup.AgentIDs g) →
        size (completed (pre ++ [info])) = length (CallbackGroup.AgentIDs g) →
        outbox (completions env pre (r1, w1)).2 = outbox w
        ∧ ∃ m ctx g',
            outbox (completions env (pre ++ [info]) (r1, w1)).2
            = outbox w ++ [SentMail ec m]
            ∧ mTo m = emailAddr ∧ mFrom m = email.from ec
            ∧ mSubject m = email.buildBatchSubject ctx
            ∧ mBody m = email.buildBatchEmailBody ctx
            ∧ email.bRecipientName ctx = customerName
            ∧ email.bResults ctx
              ≡ₚ reported <$> (map_to_list (recorded (pre ++ [info]))).*2
            ∧ length (email.bResults ctx) = length (CallbackGroup.AgentIDs g)
            ∧ (∀ a, recorded (pre ++ [info]) !! a
                    = last (filter (λ i, CompletionInfo.AgentID i = a) (pre ++ [info])))
            ∧ last (groupHistory (completions env (pre ++ [info]) (r1, w1)).1) = Some g'
            ∧ CallbackGroup.ID g' = CallbackGroup.ID g
            ∧ match smtp_SendMail env
                      (S (S (tick (completions env pre (r1, w1)).2))) ec m with
              | None => CallbackGroup.Status g' = "completed"
                        ∧ CallbackGroup.Error g' = ""
              | Some e => CallbackGroup.Status g' = "failed"
                          ∧ CallbackGroup.Error g' = e
              end.
Proof.
  intros Hne Hec Hconf.
  destruct (RegisterBatch_spec env agents "email" phone emailAddr customerName r w)
    as (g & r1 & w1 & Hout & Hid & Hids & Hres & Hmeth & Hst & Hgs & Hcbs & _ & Hh
        & Hgh & Hob & _).
  { intros [H|H]; discriminate H. }
  { intros _. exact Hne. }
  exists g, r1, w1. split; [exact Hout|]. split; [exact Hids|].
  assert (waiting (CallbackGroup.ID g) (CallbackGroup.AgentIDs g) ∅ (history r)
            (groupHistory r) (outbox w) (r1, w1)) as W0.
  { unfold waiting. simpl. split; [|split; [|split; [|done]]].
    - exists g. rewrite Hgs, Hid, lookup_insert_eq.
      split; [done|]. split; [done|]. split; [done|]. split; [done|].
      rewrite Hres. apply dom_empty_L.
    - rewrite Hid. discriminate.
    - intros a Ha. rewrite Hids in Ha.
      destruct (Hcbs a Ha) as (cb & Hcb & _ & Hcg & Hcs).
      exists cb. rewrite Hid. done. }
  assert (groups (r1, w1).1 !! CallbackGroup.ID g = Some g) as Hg
    by (cbn [fst]; by rewrite Hgs, Hid, lookup_insert_eq).
  assert (emailClient r1 = Some ec ∧ CallbackGroup.CustomerEmail g = emailAddr
          ∧ CallbackGroup.CustomerName g = customerName
          ∧ CallbackGroup.Error g = "") as (Hec1 & Hge & Hgn & Hgerr).
  { assert (checkBatchEmail "email" emailAddr = None) as He
      by (apply checkBatchEmail_None; intros _; exact Hne).
    revert Hout. unfold RegisterBatch.
    change (checkBatchCall "email" phone) with (@None string). rewrite He.
    unfold now. cbn [fst snd].
    destruct (foldl _ _ agents) as [cbs w']. intros [= <- <- _]. done. }
  intros pre info Hmem Hsz Hbar.
  assert (∀ i, i ∈ pre → CompletionInfo.AgentID i ∈ CallbackGroup.AgentIDs g) as Hmem'
    by (intros i Hi; apply Hmem, elem_of_app; by left).
  assert (CompletionInfo.AgentID info ∈ CallbackGroup.AgentIDs g) as Hi
    by (apply Hmem, elem_of_app; right; by apply list_elem_of_singleton).
  destruct (completions_record _ _ _ _ _ g (r1, w1) pre W0 Hg Hres Hmem' Hsz)
    as (Hgs' & Hec' & _ & Hgh' & Hob').
  cbn [fst snd] in Hec'. rewrite Hec1 in Hec'.
  split; [exact Hob'|].
  pose proof (waiting_completions env _ _ _ _ _ _ pre W0 Hmem' Hsz) as W.
  rewrite completions_snoc.
  rewrite (waiting_records _ _ _ _ _ _ info _ _ W Hgs' Hi).
  cbn [CallbackGroup.Results CallbackGroup.with_Results].
  rewrite <- recorded_snoc.
  rewrite decide_True
    by (by rewrite <- (size_dom (D := gset string)), dom_recorded).
  cbn [fst snd]. rewrite persist_outbox, executeGroupCallback_unfold.
  cbn [fst snd groupHistory set_groupHistory].
  unfold dispatchBatch.
  cbn [CallbackGroup.Method CallbackGroup.with_CompletedAt CallbackGroup.with_Results].
  rewrite Hmeth. rewrite decide_False by discriminate.
  rewrite decide_True by reflexivity.
  unfold executeBatchEmail. cbn [emailClient set_groups getServerURL].
  rewrite Hec', Hconf. cbn [negb fst].
  unfold SendBatchComplete. rewrite Hconf. cbn [negb].
  match goal with
  | |- context [send env ec ?to ?su ?bo ?fo ?w0] =>
      destruct (send_outbox env ec to su bo fo w0)
        as (m & Hm & Hto & Hsu & Hbo & Hfrom & Hans);
      destruct (send env ec to su bo fo w0) as [ans w2] eqn:Hsend
  end.
  cbn [fst snd] in Hm, Hans. cbn [fst snd].
  cbn [email.bRecipientEmail email.bRecipientName email.bResults email.bViewURL
       CallbackGroup.CustomerEmail CallbackGroup.CustomerName CallbackGroup.Results
       CallbackGroup.with_CompletedAt CallbackGroup.with_Results] in Hto, Hsu, Hbo.
  cbn [tick step] in Hans.
  exists m. eexists. eexists.
  split; [rewrite Hm; cbn [outbox step]; by rewrite Hob'|].
  split; [by rewrite Hto|]. split; [by apply Hfrom|].
  split; [exact Hsu|]. split; [exact Hbo|].
  split; [exact Hgn|]. split; [reflexivity|].
  split.
  { cbn [email.bResults]. rewrite !length_fmap, length_map_to_list.
    by rewrite <- (size_dom (D := gset string)), dom_recorded. }
  split; [apply recorded_last|].
  split.
  { cbn [groupHistory set_groupHistory set_groups set_history set_callbacks].
    rewrite Hgh'. apply last_push. lia. }
  rewrite <- Hans.
  destruct ans; cbn; by rewrite ?Hgerr.
Qed.

End GroupMail.

Lemma group_mail_at_barrier_witness :
  let iA := CompletionInfo.mk "A" "alpha" "done" "proj" "" in
  let iB := CompletionInfo.mk "B" "beta" "" "proj" "no luck" in
  ∃ g r1 w1,
    RegisterBatch calmEnv
      [AgentInfo.mk "A" "alpha" "task a" "proj"; AgentInfo.mk "B" "beta" "task b" "proj"]
      "email" "" "ann@example.com" "Ann" (emptyRegistry None (Some demoEmail))
      emptyWorld = (Ok g, r1, w1)
    ∧ outbox (completions calmEnv [iA] (r1, w1)).2 = []
    ∧ ∃ m, outbox (completions calmEnv [iA; iB] (r1, w1)).2 = [SentMail demoEmail m]
           ∧ mTo m = "ann@example.com".
Proof.
  intros iA iB.
  destruct (group_mail_at_barrier calmEnv
              [AgentInfo.mk "A" "alpha" "task a" "proj";
               AgentInfo.mk "B" "beta" "task b" "proj"]
              "" "ann@example.com" "Ann" demoEmail
              (emptyRegistry None (Some demoEmail)) emptyWorld)
    as (g & r1 & w1 & Hout & Hids & H); [discriminate|reflexivity|reflexivity|].
  exists g, r1, w1. split; [exact Hout|].
  destruct (H [iA] iB) as (Hpre & m & ctx & g' & Hob & Hto & _).
  - rewrite Hids. intros i Hi.
    apply elem_of_cons in Hi as [->|Hi]; [apply elem_of_cons; by left|].
    apply list_elem_of_singleton in Hi as ->.
    apply elem_of_cons; right. apply elem_of_cons; by left.
  - rewrite Hids. vm_compute. lia.
  - rewrite Hids. reflexivity.
  - split; [exact Hpre|]. exists m. split; [exact Hob|exact Hto].
Defined.

(** ** Callbacks whose client is missing *)

Section MissingClient.
Variable env : Env.

Lemma executeCall_unconfigured (r : Registry) (cb : Callback.t)
    (info : CompletionInfo.t) (w : World) :
  CanCall r = false →
  executeCall env r cb info w = (Some "VAPI client not configured", w).
Proof.
  unfold CanCall, executeCall. destruct (vapiClient r) as [c|]; [|done].
  by intros ->.
Qed.

Lemma executeEmail_unconfigured (r : Registry) (cb : Callback.t)
    (info : CompletionInfo.t) (w : World) :
  CanEmail r = false →
  executeEmail env r cb info w = (Some "email client not configured", w).
Proof.
  unfold CanEmail, executeEmail. destruct (emailClient r) as [c|]; [|done].
  by intros ->.
Qed.

(** X14. A pending single callback whose client is missing or not
    configured when the agent completes (the registry was constructed
    without it, the callback coming from the persisted file): nothing is
    sent, and the callback is retired as failed with the error of the
    missing client; for method "both" with both clients missing, with the
    two errors joined. *)
Theorem missing_client_fails_callback (info : CompletionInfo.t) (cb : Callback.t)
    (r : Registry) (w : World) :
  callbacks r !! CompletionInfo.AgentID info = Some cb →
  Callback.GroupID cb = "" →
  (Callback.Method cb = "call" ∧ CanCall r = false)
  ∨ (Callback.Method cb = "email" ∧ CanEmail r = false)
  ∨ (Callback.Method cb = "both" ∧ CanCall r = false ∧ CanEmail r = false) →
  outbox (OnAgentComplete env info r w).2 = outbox w
  ∧ ∃ cb',
      last (history (OnAgentComplete env info r w).1) = Some cb'
      ∧ Callback.ID cb' = Callback.ID cb
      ∧ Callback.Status cb' = "failed"
      ∧ Callback.Error cb'
        = (if decide (Callback.Method cb = "call") then "VAPI client not configured"
           else if decide (Callback.Method cb = "email")
                then "email client not configured"
                else "call: VAPI client not configured; "
                     +:+ "email: email client not configured").
Proof.
  intros Hcb Hg Hm.
  destruct (OnAgentComplete_single_outcome env info cb r w Hcb Hg) as [Ho Hl].
  rewrite Ho, Hl. clear Ho Hl.
  unfold dispatch. cbn [Callback.Method Callback.with_CompletedAt].
  destruct Hm as [[Hm Hc]|[[Hm He]|(Hm & Hc & He)]]; rewrite Hm.
  - rewrite decide_True by done. rewrite executeCall_unconfigured by done.
    split; [done|]. eexists. split; [reflexivity|]. done.
  - rewrite decide_False by discriminate. rewrite !decide_True by done.
    rewrite executeEmail_unconfigured by done.
    split; [done|]. eexists. split; [reflexivity|]. done.
  - rewrite !decide_False by discriminate. rewrite decide_True by done.
    rewrite executeCall_unconfigured by done.
    rewrite executeEmail_unconfigured by done.
    split; [done|]. eexists. split; [reflexivity|]. done.
Qed.

End MissingClient.

Lemma missing_client_fails_callback_witness :
  let info := CompletionInfo.mk "A" "alpha" "done" "proj" "" in
  outbox (OnAgentComplete calmEnv info
            (set_callbacks {["A" := bothCallback]} (emptyRegistry None None))
            emptyWorld).2 = []
  ∧ ∃ cb',
      last (history (OnAgentComplete calmEnv info
                       (set_callbacks {["A" := bothCallback]} (emptyRegistry None None))
                       emptyWorld).1) = Some cb'
      ∧ Callback.Status cb' = "failed".
Proof.
  intros info.
  destruct (missing_client_fails_callback calmEnv info bothCallback
              (set_callbacks {["A" := bothCallback]} (emptyRegistry None None))
              emptyWorld) as (Hob & cb' & Hl & _ & Hs & _).
  - reflexivity.
  - reflexivity.
  - right. right. repeat split; reflexivity.
  - split; [exact Hob|]. exists cb'. split; [exact Hl|exact Hs].
Defined.

(** ** Orphaned callbacks *)

Section Orphans.
Variable env : Env.

(** X15. Installing an agent validator runs one clean-up pass.  The
    pending callbacks of the agents it rejects leave the pending map and
    are appended to the history, each once, in the order of a Go map
    range, with status "orphaned" and otherwise as they were (no
    completion time is set); the callbacks of the agents it accepts stay.  The pass touches
    neither the groups nor the group history and sends nothing, so a
    group keeps an orphaned member in its list.  A second pass with the
    same validator changes nothing.  Installing no validator cleans
    nothing and writes nothing. *)
Theorem SetAgentValidator_orphans_once (valid : string → bool) (r : Registry)
    (w : World) :
  let st1 := SetAgentValidator env (Some valid) r w in
  let st2 := SetAgentValidator env (Some valid) st1.1 st1.2 in
  (∀ k, callbacks st1.1 !! k = if valid k then callbacks r !! k else None)
  ∧ (∃ gone : list (string * Callback.t),
       history st1.1 = history r ++ (orphaned <$> gone)
       ∧ NoDup gone.*1
       ∧ ∀ k c, (k, c) ∈ gone ↔ callbacks r !! k = Some c ∧ valid k = false)
  ∧ groups st1.1 = groups r
  ∧ groupHistory st1.1 = groupHistory r
  ∧ outbox st1.2 = outbox w
  ∧ callbacks st2.1 = callbacks st1.1
  ∧ history st2.1 = history st1.1
  ∧ SetAgentValidator env None r w = (set_agentValidator None r, w).
Proof.
  intros st1 st2.
  assert (∀ r0 w0,
            let r0' := set_agentValidator (Some valid) r0 in
            history (SetAgentValidator env (Some valid) r0 w0).1
            = history r0
              ++ (orphaned <$> filter (λ kv, valid kv.1 = false)
                                 (map_to_list (callbacks r0)))
            ∧ (∀ k, callbacks (SetAgentValidator env (Some valid) r0 w0).1 !! k
                    = if valid k then callbacks r0 !! k else None)
            ∧ groups (SetAgentValidator env (Some valid) r0 w0).1 = groups r0
            ∧ groupHistory (SetAgentValidator env (Some valid) r0 w0).1
              = groupHistory r0) as Hspec.
  { intros r0 w0 r0'. unfold SetAgentValidator.
    apply (cleanupOrphaned_spec env valid r0' w0). reflexivity. }
  destruct (Hspec r w) as (Hh & Hc & Hg & Hgh).
  destruct (Hspec st1.1 st1.2) as (Hh2 & Hc2 & _ & _).
  fold st1 in Hh, Hc, Hg, Hgh. fold st2 in Hh2, Hc2.
  split; [exact Hc|]. split.
  { exists (filter (λ kv : string * Callback.t, valid kv.1 = false)
              (map_to_list (callbacks r))).
    split; [exact Hh|]. split.
    - eapply sublist_NoDup; [apply (NoDup_fst_map_to_list (callbacks r))|].
      apply fmap_sublist, sublist_filter.
    - intros k c. rewrite list_elem_of_filter, elem_of_map_to_list. cbn [fst].
      tauto. }
  split; [exact Hg|]. split; [exact Hgh|].
  split.
  { unfold st1, SetAgentValidator, cleanupOrphaned.
    cbn [agentValidator set_agentValidator].
    destruct (foldl _ _ _). cbn [snd]. apply persist_outbox. }
  split.
  { apply map_eq. intros k. rewrite Hc2, Hc. by destruct (valid k). }
  split; [|reflexivity].
  rewrite Hh2.
  assert (filter (λ kv : string * Callback.t, valid kv.1 = false)
            (map_to_list (callbacks st1.1)) = []) as ->; [|by rewrite app_nil_r].
  destruct (filter _ (map_to_list (callbacks st1.1))) as [|[k c] l] eqn:Hf; [done|].
  assert ((k, c) ∈ filter (λ kv : string * Callback.t, valid kv.1 = false)
                     (map_to_list (callbacks st1.1))) as Hin
    by (rewrite Hf; apply elem_of_cons; by left).
  apply list_elem_of_filter in Hin as [Hv Hin]. cbn [fst] in Hv.
  apply elem_of_map_to_list in Hin. rewrite Hc, Hv in Hin. discriminate Hin.
Qed.

End Orphans.

(** ** The queries *)

Section Queries.
Variable env : Env.

(** X16. The queries agree with each other.  In a registry whose
    callbacks are stored under their agent ids, and so in every registry
    reached from an empty one, [ListPending] returns each pending callback
    once, no two of them for the same agent, and a callback is listed
    exactly when [Get] of its agent returns it; [ListHistory] returns the
    history. *)
Theorem ListPending_agrees_with_Get (ops : list Op) (st : Registry * World) :
  keyed st.1 →
  let r := (run env ops st).1 in
  (∀ c, c ∈ ListPending r ↔ Get (Callback.AgentID c) r = Some c)
  ∧ NoDup (Callback.AgentID <$> ListPending r)
  ∧ length (ListPending r) = size (callbacks r)
  ∧ ListHistory r = history r.
Proof.
  intros K r.
  assert (keyed r) as [Kc _] by (by apply keyed_run).
  unfold ListPending, Get.
  split; [|split; [|split; [|done]]].
  - intros c. rewrite list_elem_of_fmap. split.
    + intros ([k c'] & -> & Hin). apply elem_of_map_to_list in Hin.
      cbn [snd]. by rewrite (Kc _ _ Hin).
    + intros Hc. exists (Callback.AgentID c, c). split; [done|].
      by apply elem_of_map_to_list.
  - assert (Callback.AgentID <$> (map_to_list (callbacks r)).*2
            = (map_to_list (callbacks r)).*1) as ->;
      [|apply NoDup_fst_map_to_list].
    rewrite <- list_fmap_compose. apply list_fmap_ext.
    intros i [k c] Hi. apply list_elem_of_lookup_2, elem_of_map_to_list in Hi.
    cbn. by apply Kc.
  - by rewrite length_fmap, length_map_to_list.
Qed.

End Queries.

Lemma ListPending_agrees_with_Get_witness :
  NoDup (Callback.AgentID <$> ListPending livelyRegistry.1)
  ∧ length (ListPending livelyRegistry.1) = 3.
Proof.
  split.
  - apply (ListPending_agrees_with_Get calmEnv). apply emptyRegistry_keyed.
  - reflexivity.
Defined.

(** * The history store *)

Section HistoryStore.
Import History.
Variable env : Env.

Lemma wrap64_small (z : Z) :
  (- 9223372036854775808 ≤ z < 9223372036854775808)%Z → wrap64 z = z.
Proof.
  intros H. unfold wrap64.
  change (2 ^ 63)%Z with 9223372036854775808%Z.
  change (2 ^ 64)%Z with 18446744073709551616%Z.
  rewrite Z.mod_small by lia. lia.
Qed.

Lemma window_days (days : Z) :
  (0 ≤ days ≤ 106751)%Z → window days = (- (days * 86400000000000))%Z.
Proof.
  intros H. unfold window, Hour.
  rewrite (wrap64_small (- days)) by lia.
  rewrite (wrap64_small (- days * 24)) by lia.
  rewrite wrap64_small by lia. lia.
Qed.

Lemma window_wraps (days : Z) :
  (106752 ≤ days ≤ 213503)%Z →
  window days = (18446744073709551616 - days * 86400000000000)%Z.
Proof.
  intros H. unfold window, Hour.
  rewrite (wrap64_small (- days)) by lia.
  rewrite (wrap64_small (- days * 24)) by lia.
  unfold wrap64.
  change (2 ^ 63)%Z with 9223372036854775808%Z.
  change (2 ^ 64)%Z with 18446744073709551616%Z.
  replace (- days * 24 * 3600000000000 + 9223372036854775808)%Z
    with ((18446744073709551616 - days * 86400000000000 + 9223372036854775808)
          + (-1) * 18446744073709551616)%Z by lia.
  rewrite Z.mod_add by lia. rewrite Z.mod_small by lia. lia.
Qed.

Lemma count_nil {A} (P : A → Prop) `{!∀ x, Decision (P x)} : count P [] = 0%Z.
Proof. reflexivity. Qed.

Lemma count_cons {A} (P : A → Prop) `{!∀ x, Decision (P x)} (x : A) (l : list A) :
  count P (x :: l) = ((if decide (P x) then 1 else 0) + count P l)%Z.
Proof.
  unfold count. rewrite filter_cons. destruct (decide (P x)); simpl length; lia.
Qed.

Lemma count_nonneg {A} (P : A → Prop) `{!∀ x, Decision (P x)} (l : list A) :
  (0 ≤ count P l)%Z.
Proof. unfold count. lia. Qed.

Lemma count_ext {A} (P Q : A → Prop) `{!∀ x, Decision (P x)} `{!∀ x, Decision (Q x)}
    (l : list A) :
  (∀ x, P x ↔ Q x) → count P l = count Q l.
Proof.
  intros HPQ. induction l as [|x l IH]; [done|].
  rewrite !count_cons, IH.
  destruct (decide (P x)) as [HP|HP], (decide (Q x)) as [HQ|HQ]; try done;
    exfalso; [apply HQ, HPQ, HP|apply HP, HPQ, HQ].
Qed.

Lemma lookup_incr (k k' : string) (m : gmap string Z) :
  incr k m !! k'
  = if decide (k = k') then Some (default 0 (m !! k) + 1)%Z else m !! k'.
Proof.
  unfold incr. case_decide as Hk.
  - subst k'. by rewrite lookup_insert_eq.
  - by rewrite lookup_insert_ne.
Qed.

(** What a counting loop leaves under a key: nothing new when no element
    counted for it, and otherwise the old count and the number of them. *)
Lemma foldl_incr_lookup {A} (P : A → Prop) `{!∀ x, Decision (P x)}
    (key : A → string) (l : list A) :
  ∀ (m : gmap string Z) (k : string),
    foldl (λ m e, if decide (P e) then incr (key e) m else m) m l !! k
    = if decide (count (λ e, P e ∧ key e = k) l = 0)%Z then m !! k
      else Some (default 0 (m !! k) + count (λ e, P e ∧ key e = k) l)%Z.
Proof.
  induction l as [|e l IH]; intros m k; [done|].
  cbn [foldl]. rewrite IH, count_cons.
  pose proof (count_nonneg (λ e, P e ∧ key e = k) l) as Hc.
  destruct (decide (P e ∧ key e = k)) as [[HP Hk]|Hno].
  - rewrite (decide_True (P := P e)) by done. rewrite lookup_incr, Hk.
    rewrite (decide_True (P := k = k)) by done. cbn [default].
    rewrite (decide_False (P := (1 + _ = 0)%Z)) by lia.
    case_decide as Hn; [rewrite Hn|]; f_equal; unfold id; lia.
  - rewrite Z.add_0_l.
    assert ((if decide (P e) then incr (key e) m else m) !! k = m !! k) as ->; [|done].
    case_decide as HP; [|done]. rewrite lookup_incr.
    rewrite decide_False; [done|]. intros Hk. apply Hno. by split.
Qed.

(** The parts of the state of the loop of [buildSummary], each on its own. *)
Lemma foldl_summarizeEntry (l : list HistoryEntry) :
  ∀ (s : HistorySummary) (td dc : Z),
    let out := foldl (summarizeEntry env) (s, td, dc) l in
    TotalEntries out.1.1 = TotalEntries s
    ∧ AvgDurationMs out.1.1 = AvgDurationMs s
    ∧ TotalProcesses out.1.1
      = (TotalProcesses s
         + count (λ e, Type_ e = HistoryProcessStart ∨ Type_ e = HistoryProcessEnd) l)%Z
    ∧ TotalSessions out.1.1
      = (TotalSessions s
         + count (λ e, Type_ e = HistorySessionStart ∨ Type_ e = HistorySessionEnd) l)%Z
    ∧ TotalErrors out.1.1
      = (TotalErrors s + count (λ e, Type_ e = HistoryError) l)%Z
    ∧ ByAgent out.1.1
      = foldl (λ m e, if decide (Agent e ≠ "") then incr (Agent e) m else m)
          (ByAgent s) l
    ∧ ByDay out.1.1
      = foldl (λ m e, if decide True then incr (formatDay env (Timestamp e)) m else m)
          (ByDay s) l
    ∧ ByStatus out.1.1
      = foldl (λ m e, if decide (Status e ≠ "") then incr (Status e) m else m)
          (ByStatus s) l
    ∧ out.1.2
      = foldl (λ a e, if decide (0 < DurationMs e)%Z then wrap64 (a + DurationMs e)
                      else a) td l
    ∧ out.2 = (dc + count (λ e, 0 < DurationMs e)%Z l)%Z
    ∧ TotalCost out.1.1
      = foldl (λ c e, match Metrics e with
                      | Some m => PrimFloat.add c (EstimatedCost m)
                      | None => c
                      end) (TotalCost s) l.
Proof.
  induction l as [|e l IH]; intros s td dc.
  - cbn [foldl fst snd]. rewrite !count_nil, !Z.add_0_r. done.
  - cbn [foldl].
    destruct (summarizeEntry env (s, td, dc) e) as [[s1 td1] dc1] eqn:E.
    specialize (IH s1 td1 dc1). cbv zeta in IH.
    destruct IH as (H1 & H2 & H3 & H4 & H5 & H6 & H7 & H8 & H9 & H10 & H11).
    cbv zeta. rewrite H1, H2, H3, H4, H5, H6, H7, H8, H9, H10, H11.
    rewrite !count_cons. clear H1 H2 H3 H4 H5 H6 H7 H8 H9 H10 H11.
    unfold summarizeEntry in E.
    unfold HistoryProcessStart, HistoryProcessEnd, HistorySessionStart,
      HistorySessionEnd, HistoryError in *.
    destruct (decide (Type_ e = "process_start" ∨ Type_ e = "process_end"))
      as [Hp|Hp];
      destruct (decide (Type_ e = "session_start" ∨ Type_ e = "session_end"))
        as [Hs|Hs];
      destruct (decide (Type_ e = "error")) as [He|He];
      destruct (decide (0 < DurationMs e)%Z) as [Hd|Hd];
      injection E as <- <- <-; cbn [TotalEntries AvgDurationMs TotalProcesses
        TotalSessions TotalErrors ByAgent ByDay ByStatus TotalCost];
      try (exfalso; destruct Hp as [Hp|Hp], Hs as [Hs|Hs]; congruence);
      try (exfalso; destruct Hp as [Hp|Hp]; congruence);
      try (exfalso; destruct Hs as [Hs|Hs]; congruence);
      repeat split; try reflexivity; lia.
Qed.

Lemma sumZ_durations_cons (e : HistoryEntry) (l : list HistoryEntry) :
  sumZ (durations (e :: l))
  = ((if decide (0 < DurationMs e)%Z then DurationMs e else 0)
     + sumZ (durations l))%Z.
Proof.
  unfold durations. rewrite fmap_cons, filter_cons.
  destruct (decide (0 < DurationMs e)%Z); [reflexivity|]. by rewrite Z.add_0_l.
Qed.

Lemma sumZ_durations_nonneg (l : list HistoryEntry) : (0 ≤ sumZ (durations l))%Z.
Proof.
  induction l as [|e l IH]; [done|]. rewrite sumZ_durations_cons.
  destruct (decide (0 < DurationMs e)%Z); lia.
Qed.

Lemma length_durations (l : list HistoryEntry) :
  Z.of_nat (length (durations l)) = count (λ e, 0 < DurationMs e)%Z l.
Proof.
  induction l as [|e l IH]; [done|].
  rewrite count_cons, <- IH. unfold durations.
  rewrite fmap_cons, filter_cons.
  destruct (decide (0 < DurationMs e)%Z); simpl length; lia.
Qed.

(** As long as the sum fits 63 bits, the wrapping sum of the loop is the sum. *)
Lemma foldl_wrap64_sum (l : list HistoryEntry) :
  ∀ a : Z,
    (0 ≤ a)%Z → (a + sumZ (durations l) < 9223372036854775808)%Z →
    foldl (λ a e, if decide (0 < DurationMs e)%Z then wrap64 (a + DurationMs e)
                  else a) a l
    = (a + sumZ (durations l))%Z.
Proof.
  induction l as [|e l IH]; intros a Ha Hs.
  - cbn. lia.
  - cbn [foldl]. rewrite sumZ_durations_cons in *.
    pose proof (sumZ_durations_nonneg l) as Hn.
    destruct (decide (0 < DurationMs e)%Z) as [Hd|Hd].
    + rewrite wrap64_small by lia. rewrite IH by lia. lia.
    + rewrite IH by lia. lia.
Qed.

Lemma count_False {A} (P : A → Prop) `{!∀ x, Decision (P x)} (l : list A) :
  (∀ x, ¬ P x) → count P l = 0%Z.
Proof.
  intros HP. induction l as [|x l IH]; [done|].
  rewrite count_cons, IH. by rewrite decide_False by apply HP.
Qed.

Lemma count_named {A} (key : A → string) (k : string) (l : list A) :
  count (λ e, key e ≠ "" ∧ key e = k) l
  = if decide (k = "") then 0%Z else count (λ e, key e = k) l.
Proof.
  case_decide as Hk.
  - apply count_False. intros x [Hx Hxk]. congruence.
  - apply count_ext. intros x. split; [tauto|]. intros Hx. split; congruence.
Qed.

Lemma count_types_le (l : list HistoryEntry) :
  (count (λ e, Type_ e = HistoryProcessStart ∨ Type_ e = HistoryProcessEnd) l
   + count (λ e, Type_ e = HistorySessionStart ∨ Type_ e = HistorySessionEnd) l
   + count (λ e, Type_ e = HistoryError) l
   ≤ Z.of_nat (length l))%Z.
Proof.
  induction l as [|e l IH]; [done|].
  rewrite !count_cons. cbn [length]. rewrite Nat2Z.inj_succ.
  unfold HistoryProcessStart, HistoryProcessEnd, HistorySessionStart,
    HistorySessionEnd, HistoryError in *.
  repeat case_decide; try lia; exfalso; intuition congruence.
Qed.

Lemma buildSummary_length (l : list HistoryEntry) :
  TotalEntries (buildSummary env l) = Z.of_nat (length l).
Proof.
  unfold buildSummary.
  destruct (foldl_summarizeEntry l
              (mkSummary (Z.of_nat (length l)) 0 0 0 ∅ ∅ ∅ 0 PrimFloat.zero) 0%Z 0%Z)
    as (H1 & _).
  destruct (foldl (summarizeEntry env) _ l) as [[s td] dc]. exact H1.
Qed.

(** X17. The summary of a list of entries.  [TotalEntries] is the length
    of the list, [TotalErrors] the number of entries of type "error";
    [TotalProcesses] is half the number of process start and end entries,
    rounded down, so that a process that has started and not ended counts
    for nothing, and likewise [TotalSessions].  [ByAgent] and [ByStatus]
    hold, for each agent and status that is not empty and occurs, the
    number of its entries, and nothing else; [ByDay] the same for the day
    of the timestamp.  No entry with a positive duration gives an average
    of zero; otherwise, as long as the sum of the positive durations fits
    63 bits, the average is that sum divided by their number, rounded
    down. *)
Theorem buildSummary_counts (l : list HistoryEntry) :
  let s := buildSummary env l in
  let perKey (key : HistoryEntry → string) (k : string) :=
    if decide (k = "" ∨ count (λ e, key e = k) l = 0)%Z then None
    else Some (count (λ e, key e = k) l) in
  TotalEntries s = Z.of_nat (length l)
  ∧ TotalProcesses s
    = Z.quot (count (λ e, Type_ e = HistoryProcessStart
                          ∨ Type_ e = HistoryProcessEnd) l) 2
  ∧ TotalSessions s
    = Z.quot (count (λ e, Type_ e = HistorySessionStart
                          ∨ Type_ e = HistorySessionEnd) l) 2
  ∧ TotalErrors s = count (λ e, Type_ e = HistoryError) l
  ∧ (2 * TotalProcesses s + 2 * TotalSessions s + TotalErrors s ≤ TotalEntries s)%Z
  ∧ (∀ a, ByAgent s !! a = perKey Agent a)
  ∧ (∀ st, ByStatus s !! st = perKey Status st)
  ∧ (∀ d, ByDay s !! d
          = if decide (count (λ e, formatDay env (Timestamp e) = d) l = 0)%Z then None
            else Some (count (λ e, formatDay env (Timestamp e) = d) l))
  ∧ (durations l = [] → AvgDurationMs s = 0%Z)
  ∧ (durations l ≠ [] → (sumZ (durations l) < 9223372036854775808)%Z →
     AvgDurationMs s
     = Z.quot (sumZ (durations l)) (Z.of_nat (length (durations l)))).
Proof.
  intros s perKey. subst s. unfold buildSummary.
  destruct (foldl_summarizeEntry l
              (mkSummary (Z.of_nat (length l)) 0 0 0 ∅ ∅ ∅ 0 PrimFloat.zero) 0%Z 0%Z)
    as (H1 & H2 & H3 & H4 & H5 & H6 & H7 & H8 & H9 & H10 & H11).
  destruct (foldl (summarizeEntry env) _ l) as [[s td] dc].
  cbn [fst snd TotalEntries AvgDurationMs TotalProcesses TotalSessions TotalErrors
       ByAgent ByDay ByStatus TotalCost] in *.
  rewrite Z.add_0_l in H3, H4, H5, H10.
  rewrite H1, H3, H4, H5.
  split; [done|]. split; [done|]. split; [done|]. split; [done|].
  split.
  { pose proof (count_types_le l) as Hle.
    pose proof (count_nonneg (λ e, Type_ e = HistoryProcessStart
                                   ∨ Type_ e = HistoryProcessEnd) l) as Hp.
    pose proof (count_nonneg (λ e, Type_ e = HistorySessionStart
                                   ∨ Type_ e = HistorySessionEnd) l) as Hs.
    rewrite !Z.quot_div_nonneg by lia.
    pose proof (Z.mul_div_le _ 2 ltac:(lia) : (2 * (count (λ e, Type_ e = HistoryProcessStart ∨ Type_ e = HistoryProcessEnd) l / 2) ≤ _)%Z).
    pose proof (Z.mul_div_le _ 2 ltac:(lia) : (2 * (count (λ e, Type_ e = HistorySessionStart ∨ Type_ e = HistorySessionEnd) l / 2) ≤ _)%Z).
    lia. }
  assert (∀ (key : HistoryEntry → string) (k : string),
            foldl (λ m e, if decide (key e ≠ "") then incr (key e) m else m) ∅ l !! k
            = perKey key k) as Hkey.
  { intros key k. rewrite (foldl_incr_lookup (λ e, key e ≠ "") key).
    rewrite lookup_empty, count_named. subst perKey. cbv beta. cbn [default].
    destruct (decide (k = "")) as [Hk|Hk].
    - rewrite decide_True by done. by rewrite decide_True by (by left).
    - pose proof (count_nonneg (λ e, key e = k) l).
      repeat case_decide; try done; try (f_equal; unfold id; lia);
        exfalso; intuition lia. }
  split; [intros a; rewrite H6; apply Hkey|].
  split; [intros st; rewrite H8; apply Hkey|].
  split.
  { intros d. rewrite H7.
    rewrite (foldl_incr_lookup (λ _ : HistoryEntry, True)
               (λ e, formatDay env (Timestamp e))).
    rewrite lookup_empty. cbn [default].
    rewrite (count_ext (λ e, True ∧ formatDay env (Timestamp e) = d)
               (λ e, formatDay env (Timestamp e) = d)) by (intros x; tauto).
    case_decide; [done|]. by f_equal. }
  rewrite H2, H9, H10. rewrite <- length_durations. split.
  - intros ->. cbn [length]. by rewrite decide_False by lia.
  - intros Hne Hsum.
    assert (0 < length (durations l)) by (destruct (durations l); [done|simpl; lia]).
    rewrite decide_True by lia.
    rewrite foldl_wrap64_sum by (rewrite ?Z.add_0_l; lia).
    by rewrite Z.add_0_l.
Qed.

#[local] Instance newestFirst_total : Total newestFirst.
Proof. intros a b. unfold newestFirst. lia. Qed.

#[local] Instance newestFirst_trans : Transitive newestFirst.
Proof. intros a b c. unfold newestFirst. lia. Qed.

(** X18. A query over the last [days] days, for a number of days whose
    nanoseconds fit 63 bits (at most 106751): the entries returned are
    those of the store stamped after the clock reading less [days] times
    24 hours, each once, the newest first; the summary is that of the
    entries returned and counts them; the store is left as it is. *)
Theorem Query_newest_first (days : Z) (h : HistoryStore) (w : World) :
  (0 ≤ days ≤ 106751)%Z →
  let out := Query env days h w in
  let cutoff := (time_Now env (tick w) - days * 86400000000000)%Z in
  Entries out.1 ≡ₚ filter (λ e, cutoff < Timestamp e)%Z (entries h)
  ∧ StronglySorted (λ a b, Timestamp b ≤ Timestamp a)%Z (Entries out.1)
  ∧ Summary out.1 = buildSummary env (Entries out.1)
  ∧ TotalEntries (Summary out.1) = Z.of_nat (length (Entries out.1))
  ∧ out.2 = step w.
Proof.
  intros Hd out cutoff. subst out. unfold Query, now. cbn [fst snd Entries Summary].
  rewrite window_days by done. unfold Add.
  rewrite (list_filter_iff _ (λ e, cutoff < Timestamp e)%Z).
  2:{ intros e. unfold After. subst cutoff. lia. }
  split; [apply merge_sort_Permutation|].
  split; [apply (StronglySorted_merge_sort newestFirst)|].
  split; [done|]. split; [|done].
  apply buildSummary_length.
Qed.

(** X19. The window of a query wraps at 64 bits.  For a number of days
    from 106752 to 213503 the cutoff lies after the clock reading, so
    the query returns no entry that is not stamped in the future: from a
    store whose entries are stamped up to the clock reading it returns
    nothing, and a summary of nothing. *)
Theorem Query_window_wraps (days : Z) (h : HistoryStore) (w : World) :
  (106752 ≤ days ≤ 213503)%Z →
  Forall (λ e, Timestamp e ≤ time_Now env (tick w))%Z (entries h) →
  Entries (Query env days h w).1 = []
  ∧ TotalEntries (Summary (Query env days h w).1) = 0%Z.
Proof.
  intros Hd Hold. unfold Query, now. cbn [fst snd Entries Summary].
  rewrite window_wraps by done. unfold Add.
  assert (filter (λ entry, After (Timestamp entry)
                    (time_Now env (tick w)
                     + (18446744073709551616 - days * 86400000000000))%Z)
            (entries h) = []) as ->; [|done].
  induction Hold as [|e l He Hl IH]; [done|].
  rewrite filter_cons, IH. rewrite decide_False; [done|]. unfold After. lia.
Qed.

Lemma foldl_countSpawn (cutoff : Time) (l : list HistoryEntry) :
  ∀ (m : gmap string Z) (n : Z),
    foldl (countSpawn cutoff) (m, n) l
    = (foldl (λ m e, if decide (¬ Before (Timestamp e) cutoff
                                ∧ Type_ e = HistoryProcessStart ∧ Agent e ≠ "")
                     then incr (Agent e) m else m) m l,
       (n + count (λ e, ¬ Before (Timestamp e) cutoff
                        ∧ Type_ e = HistoryProcessStart ∧ Agent e ≠ "") l)%Z).
Proof.
  induction l as [|e l IH]; intros m n.
  - cbn [foldl]. by rewrite count_nil, Z.add_0_r.
  - cbn [foldl]. rewrite count_cons. unfold countSpawn at 2. cbn [fst snd].
    destruct (decide (Before (Timestamp e) cutoff)) as [Hb|Hb].
    + rewrite IH. rewrite !(decide_False (P := ¬ Before _ _ ∧ _)) by tauto.
      f_equal; lia.
    + destruct (decide (Type_ e = HistoryProcessStart ∧ Agent e ≠ "")) as [Hs|Hs].
      * rewrite IH. rewrite !(decide_True (P := ¬ Before _ _ ∧ _)) by tauto.
        f_equal; lia.
      * rewrite IH. rewrite !(decide_False (P := ¬ Before _ _ ∧ _)) by tauto.
        f_equal; lia.
Qed.

(** X20. [BuildSpawnPatterns] reports no pattern.  Whatever the store
    holds, the list of common patterns is empty, the maximal depth is 0
    and no agent is reported as a spawner: the map of pattern counts is
    never written.  What it does count are the process start entries
    with an agent that are not stamped before the cutoff (an entry stamped
    at the cutoff counts, while [Query] leaves it out): [TotalSpawns] is
    their number and [SpawnedByAgent] holds, for each agent that has one,
    the number of its own. *)
Theorem BuildSpawnPatterns_finds_no_pattern (days : Z) (h : HistoryStore) (w : World) :
  let out := BuildSpawnPatterns env days h w in
  let cutoff := (time_Now env (tick w) + window days)%Z in
  CommonPatterns out.1 = []
  ∧ MaxDepth out.1 = 0%Z
  ∧ SpawnsByAgent out.1 = ∅
  ∧ TotalSpawns out.1
    = count (λ e, (cutoff ≤ Timestamp e)%Z ∧ Type_ e = "process_start" ∧ Agent e ≠ "")
        (entries h)
  ∧ (∀ a, SpawnedByAgent out.1 !! a
          = if decide (a = "" ∨ count (λ e, (cutoff ≤ Timestamp e)%Z
                                       ∧ Type_ e = "process_start" ∧ Agent e = a)
                                  (entries h) = 0%Z)
            then None
            else Some (count (λ e, (cutoff ≤ Timestamp e)%Z
                                   ∧ Type_ e = "process_start" ∧ Agent e = a)
                         (entries h)))
  ∧ out.2 = step w.
Proof.
  intros out cutoff. subst out. unfold BuildSpawnPatterns, now.
  cbn [fst snd]. fold cutoff. unfold Add. fold cutoff.
  rewrite foldl_countSpawn. rewrite map_to_list_empty.
  cbn [foldl fst snd CommonPatterns MaxDepth SpawnsByAgent SpawnedByAgent TotalSpawns].
  split; [reflexivity|]. split; [reflexivity|]. split; [reflexivity|].
  split.
  { rewrite Z.add_0_l. apply count_ext. intros e.
    unfold Before, HistoryProcessStart. split; intros (H1 & H2 & H3); repeat split;
      try done; lia. }
  split; [|reflexivity].
  intros a. rewrite foldl_incr_lookup, lookup_empty. cbn [default].
  rewrite (count_ext _ (λ e, (cutoff ≤ Timestamp e)%Z ∧ Type_ e = "process_start"
                             ∧ Agent e ≠ "" ∧ Agent e = a)).
  2:{ intros e. unfold Before, HistoryProcessStart.
      split; [intros [(H1 & H2 & H3) H4]|intros (H1 & H2 & H3 & H4)];
        repeat split; try done; lia. }
  destruct (decide (a = "")) as [Ha|Ha].
  - rewrite (decide_True (P := a = "" ∨ _)) by (by left).
    rewrite count_False; [done|]. intros e (_ & _ & H3 & H4). congruence.
  - rewrite (count_ext _ (λ e, (cutoff ≤ Timestamp e)%Z ∧ Type_ e = "process_start"
                               ∧ Agent e = a)).
    2:{ intros e. split; [tauto|]. intros (H1 & H2 & H3). repeat split; congruence. }
    repeat case_decide; try done; try (by f_equal); exfalso; intuition lia.
Qed.

Lemma prune_snoc (l : list HistoryEntry) (e' : HistoryEntry) (t : Time) :
  filter (λ e, After (Timestamp e) (Add t (- MaxHistoryAge))) (l ++ [e'])
  = filter (λ e, t - MaxHistoryAge < Timestamp e)%Z l
    ++ (if decide (t - MaxHistoryAge < Timestamp e')%Z then [e'] else []).
Proof.
  rewrite filter_app, filter_cons, filter_nil.
  rewrite (list_filter_iff _ (λ e, t - MaxHistoryAge < Timestamp e)%Z)
    by (intros e; unfold After, Add; lia).
  reflexivity.
Qed.

Lemma Forall_prune_snoc (l : list HistoryEntry) (e' : HistoryEntry) (c : Z) :
  Forall (λ e, c < Timestamp e)%Z
    (filter (λ e, c < Timestamp e)%Z l
     ++ (if decide (c < Timestamp e')%Z then [e'] else [])).
Proof.
  apply Forall_app. split.
  - apply Forall_forall. intros e He. by apply list_elem_of_filter in He as [He _].
  - case_decide; by repeat constructor.
Qed.

(** X21. [Record] stamps, appends, prunes and saves.  The entry stored
    is the entry given, with an id made from the clock if it had none and
    with the next clock reading as timestamp if it had the zero time.  The
    store then holds, in their order, the old entries stamped after the
    last clock reading less 30 days, followed by the new entry if it is
    stamped after that instant too: an entry given with an older
    timestamp is dropped at once.  [save] is called once, with the entries
    kept. *)
Theorem Record_stamps_appends_prunes (entry : HistoryEntry) (h : HistoryStore)
    (w : World) :
  let out := Record_ env entry h w in
  let n1 := if decide (ID entry = "") then S (tick w) else tick w in
  let n2 := if decide (Timestamp entry = zeroTime) then S n1 else n1 in
  let entry' :=
    with_Timestamp
      (if decide (Timestamp entry = zeroTime) then time_Now env n1 else Timestamp entry)
      (with_ID (if decide (ID entry = "") then formatID env (time_Now env (tick w))
                else ID entry) entry) in
  let cutoff := (time_Now env n2 - 2592000000000000)%Z in
  entries out.1
  = filter (λ e, cutoff < Timestamp e)%Z (entries h)
    ++ (if decide (cutoff < Timestamp entry')%Z then [entry'] else [])
  ∧ Forall (λ e, cutoff < Timestamp e)%Z (entries out.1)
  ∧ baseDir out.1 = baseDir h
  ∧ saved out.2 = saved w ++ [(filePath env h, entries out.1)]
  ∧ tick out.2 = S (S n2).
Proof.
  intros out n1 n2 entry' cutoff.
  assert (entries out.1
          = filter (λ e, cutoff < Timestamp e)%Z (entries h)
            ++ (if decide (cutoff < Timestamp entry')%Z then [entry'] else [])
          ∧ baseDir out.1 = baseDir h
          ∧ saved out.2 = saved w ++ [(filePath env h, entries out.1)]
          ∧ tick out.2 = S (S n2)) as (He & Hb & Hs & Ht).
  { subst out cutoff entry' n2 n1.
    change 2592000000000000%Z with MaxHistoryAge.
    unfold Record_, generateHistoryID, prune, now, filePath.
    destruct entry as [id ty ts ag pid task status dur met err].
    cbn [ID Timestamp].
    destruct (decide (id = "")) as [Hi|Hi];
      destruct (decide (ts = zeroTime)) as [Hz|Hz];
      cbn [fst snd entries baseDir tick saved step save ID Timestamp with_ID
           with_Timestamp];
      rewrite ?(decide_True (P := ts = zeroTime)) by done;
      rewrite ?(decide_False (P := ts = zeroTime)) by done;
      cbn [fst snd entries baseDir tick saved step save ID Timestamp with_ID
           with_Timestamp];
      rewrite prune_snoc; done. }
  split; [exact He|]. split; [|done].
  rewrite He. apply Forall_prune_snoc.
Qed.

End HistoryStore.

Lemma Query_newest_first_witness :
  History.ID <$> History.Entries
    (History.Query (History.tickingEnv History.demoStart) 1 History.demoStore
       History.emptyWorld).1 = ["e2"]
  ∧ History.TotalEntries
      (History.Summary
         (History.Query (History.tickingEnv History.demoStart) 1 History.demoStore
            History.emptyWorld).1) = 1%Z.
Proof.
  destruct (Query_newest_first (History.tickingEnv History.demoStart) 1
              History.demoStore History.emptyWorld) as (_ & _ & _ & H & _); [lia|].
  split; [reflexivity|]. rewrite H. reflexivity.
Defined.

Lemma Query_window_wraps_witness :
  History.Entries
    (History.Query (History.tickingEnv History.demoStart) 200000 History.demoStore
       History.emptyWorld).1 = [].
Proof.
  apply (Query_window_wraps (History.tickingEnv History.demoStart) 200000
           History.demoStore History.emptyWorld).
  - lia.
  - repeat constructor; simpl; unfold History.demoStart; lia.
Defined.

(** ** A disk that takes no write *)

Section ReadOnly.
Variable env : Env.

Lemma persist_readonly (r : Registry) (w : World) :
  readonly env → files (persist env r w) = files w.
Proof.
  intros Hro. unfold persist.
  destruct (os_MkdirAll env (tick w) _); cbn [negb]; [|done].
  by rewrite Hro.
Qed.

Lemma send_files (c : email.Client) (to subject body fromOverride : string)
    (w : World) :
  files (send env c to subject body fromOverride w).2 = files w.
Proof. reflexivity. Qed.

Lemma dispatch_files (r : Registry) (cb : Callback.t) (info : CompletionInfo.t)
    (w : World) :
  files (dispatch env r cb info w).2 = files w.
Proof.
  assert (∀ w0, files (executeCall env r cb info w0).2 = files w0) as Hc.
  { intros w0. unfold executeCall, Call, createCall.
    destruct (vapiClient r) as [c|]; [|done].
    by destruct (vapi.IsConfigured c). }
  assert (∀ w0, files (executeEmail env r cb info w0).2 = files w0) as He.
  { intros w0. unfold executeEmail, SendTaskComplete.
    destruct (emailClient r) as [c|]; [|done].
    by destruct (email.IsConfigured c). }
  unfold dispatch. repeat case_decide; [apply Hc|apply He| |done].
  specialize (Hc w). destruct (executeCall env r cb info w) as [e1 w1].
  specialize (He w1). destruct (executeEmail env r cb info w1) as [e2 w2].
  cbn [snd] in *. congruence.
Qed.

Lemma dispatchBatch_files (r : Registry) (g : CallbackGroup.t) (w : World) :
  files (dispatchBatch env r g w).2 = files w.
Proof.
  assert (∀ w0, files (executeBatchEmail env r g w0).2 = files w0) as He.
  { intros w0. unfold executeBatchEmail, SendBatchComplete.
    destruct (emailClient r) as [c|]; [|done].
    by destruct (email.IsConfigured c). }
  unfold dispatchBatch, executeBatchCall. repeat case_decide; [done|apply He| |done].
  specialize (He w). by destruct (executeBatchEmail env r g w) as [e2 w2].
Qed.

Lemma perform_readonly (st : Registry * World) (op : Op) :
  readonly env → files (perform env st op).2 = files st.2.
Proof.
  intros Hro. destruct st as [r w].
  destruct op as [a n t p m ph e c|ags m ph e c|info|a|fn|fn]; cbn [perform fst snd].
  - unfold Register.
    destruct (checkCall r m ph); [done|]. destruct (checkEmail r m e); [done|].
    unfold now. cbn [fst snd]. by rewrite persist_readonly.
  - unfold RegisterBatch.
    destruct (checkBatchCall m ph) eqn:Hc; [done|].
    destruct (checkBatchEmail m e) eqn:He; [done|].
    unfold now. cbn [fst snd].
    pose proof (foldl_registerMember env m ph e c (personaName r)
                  ("grp-" +:+ pretty (time_Now env (tick w))) ags (callbacks r)
                  (step w)) as (_ & _ & _ & Hfs).
    destruct (foldl _ (callbacks r, step w) ags) as [cbs w'].
    cbn [fst snd] in *. by rewrite persist_readonly.
  - unfold OnAgentComplete.
    destruct (callbacks r !! CompletionInfo.AgentID info) as [cb|]; [|done].
    destruct (decide (Callback.GroupID cb ≠ "")) as [Hg|Hg].
    + destruct (groups r !! Callback.GroupID cb) as [grp|]; [|done].
      cbv zeta. case_decide as Hbar.
      * rewrite executeGroupCallback_unfold. cbn [fst snd].
        rewrite persist_readonly by done. by rewrite dispatchBatch_files.
      * cbn [fst snd]. by rewrite persist_readonly.
    + rewrite executeCallback_unfold. cbn [fst snd].
      rewrite persist_readonly by done. by rewrite dispatch_files.
  - unfold Cancel. destruct (callbacks r !! a); cbn [fst snd]; [|done].
    by rewrite persist_readonly.
  - unfold SetAgentValidator, cleanupOrphaned. cbn [agentValidator set_agentValidator].
    destruct fn as [valid|]; [|done].
    destruct (foldl _ _ _) as [cbs h]. cbn [snd]. by rewrite persist_readonly.
  - done.
Qed.

(** X22. The errors of [persist] are only logged.  On a disk that takes
    no write, no operation fails for it: [Register] returns the callback
    and holds it as pending whenever its checks pass.  But no sequence
    of operations changes a file, so a registry constructed afterwards
    reads what was there before, and what was registered, completed or
    cancelled in between is lost. *)
Theorem readonly_disk_is_silent (ops : list Op) (st : Registry * World) :
  readonly env →
  files (run env ops st).2 = files st.2
  ∧ ∀ a agentName taskSummary projectName method phone emailAddr customerName,
      checkCall st.1 method phone = None →
      checkEmail st.1 method emailAddr = None →
      ∃ cb r1 w1,
        Register env a agentName taskSummary projectName method phone emailAddr
          customerName st.1 st.2 = (Ok cb, r1, w1)
        ∧ Get a r1 = Some cb
        ∧ files w1 = files st.2.
Proof.
  intros Hro. split.
  - revert st. unfold run. induction ops as [|op ops IH]; intros st; [done|].
    cbn [foldl]. rewrite IH. by apply perform_readonly.
  - intros a agentName taskSummary projectName method phone emailAddr customerName
      Hc He.
    pose proof (perform_readonly st
                  (DoRegister a agentName taskSummary projectName method phone
                     emailAddr customerName) Hro) as Hf.
    cbn [perform] in Hf.
    destruct (Register_ok env a agentName taskSummary projectName method phone
                emailAddr customerName st.1 st.2 Hc He)
      as (id & t & w1 & Hout & _).
    rewrite Hout in Hf. cbn [fst snd] in Hf.
    eexists _, _, w1. split; [exact Hout|]. split; [|exact Hf].
    unfold Get. cbn [callbacks set_callbacks]. apply lookup_insert_eq.
Qed.

End ReadOnly.

Lemma readonly_disk_is_silent_witness :
  files (run (mkEnv (λ n, Z.of_nat n) (λ _ _ _, None) (λ _ _ _, None)
                (λ _ _, true) (λ _ _, false) (λ _ _, true))
           [DoRegister "A" "alpha" "task" "proj" "email" "" "ann@example.com" "Ann";
            DoOnAgentComplete (CompletionInfo.mk "A" "alpha" "done" "proj" "")]
           (emptyRegistry None (Some demoEmail), emptyWorld)).2 = ∅.
Proof.
  apply (readonly_disk_is_silent
           (mkEnv (λ n, Z.of_nat n) (λ _ _ _, None) (λ _ _ _, None)
              (λ _ _, true) (λ _ _, false) (λ _ _, true))).
  intros n p. reflexivity.
Defined.
